(** * ply: the AST core ([src/lang/ast.c])

    A shallow embedding of the node store, the node constructors, the
    ancestor queries, the per-probe register and stack allocators, the
    generic walker and the destructor, followed by the properties
    established about them.  The debug dump ([node_fdump] and the
    functions around it) only prints and is left out.

    The C heap is an explicit store of three kinds of blocks (nodes,
    annotations, strings) addressed by typed pointers; [None] is the
    NULL pointer.  Code runs in a state monad over that store whose result
    is [Ok], [Fault] (a NULL or dangling dereference, where the C program
    has no defined behaviour) or [Timeout] (the bound [fuel] on the rounds
    of a loop or on the depth of a recursion exhausted); the store reached
    is kept in the three cases. *)

From Stdlib Require Import ZArith Lia.
From stdpp Require Import gmap strings list fin_maps.

Local Open Scope Z_scope.

(** ** Machine integers *)

Module MachInt.

(** [int] is 32 bits wide, [ssize_t] and [int64_t] 64 bits wide and
    [size_t] 64 bits wide and unsigned (LP64). *)
Definition INT_MIN : Z := - 2 ^ 31.
Definition INT_MAX : Z := 2 ^ 31 - 1.
Definition SSIZE_MIN : Z := - 2 ^ 63.
Definition SSIZE_MAX : Z := 2 ^ 63 - 1.
Definition SIZE_MAX : Z := 2 ^ 64 - 1.

Definition in_int (z : Z) : Prop := INT_MIN <= z <= INT_MAX.
Definition in_ssize (z : Z) : Prop := SSIZE_MIN <= z <= SSIZE_MAX.
Definition in_size (z : Z) : Prop := 0 <= z <= SIZE_MAX.

(** Two's complement reduction to a signed [w]-bit value. *)
Definition wrap_signed (w : Z) (z : Z) : Z :=
  (z + 2 ^ (w - 1)) mod 2 ^ w - 2 ^ (w - 1).

Definition wrap_int : Z -> Z := wrap_signed 32.
Definition wrap_ssize : Z -> Z := wrap_signed 64.

End MachInt.
Export MachInt.

(** ** Declarations of [ply/ast.h] and of the BPF register file *)

(** Modelled from the spec: the node kind enumeration [type_t] of
    [ply/ast.h] (its [NODE_TYPE_TABLE] is not part of the sources at hand).
    The enumerators are the ones [node_fdump] switches over. *)
Inductive type_t : Set :=
| TYPE_NONE | TYPE_SCRIPT | TYPE_PROBE | TYPE_IF | TYPE_UNROLL
| TYPE_BREAK | TYPE_CONTINUE | TYPE_RETURN | TYPE_CALL | TYPE_METHOD
| TYPE_ASSIGN | TYPE_BINOP | TYPE_NOT | TYPE_MAP | TYPE_VAR | TYPE_REC
| TYPE_INT | TYPE_STR | TYPE_STACK.

Global Instance type_t_eq_dec : EqDecision type_t.
Proof. solve_decision. Defined.

(** Modelled from the spec: the storage location enumeration [loc_t] of
    [ply/ast.h]; the enumerators are the ones [loc_str] switches over. *)
Inductive loc_t : Set := LOC_NOWHERE | LOC_VIRTUAL | LOC_REG | LOC_STACK.

(** Modelled from the spec: the operator enumeration [op_t] of [ply/ast.h]
    ([OP_TABLE] is not part of the sources at hand); an operator is kept as
    the value of its enumerator. *)
Definition op_t : Set := Z.

(** Modelled from the spec: the scratch registers of the BPF register file,
    [BPF_REG_6] up to, and not including, [BPF_REG_9]; three registers. *)
Definition BPF_REG_6 : Z := 6.
Definition BPF_REG_9 : Z := 9.

(** Pointers.  The three kinds of blocks live in address spaces of their
    own, as the C types keep them apart. *)
Abbreviation addr := positive.
Abbreviation ptr := (option positive).
Definition NULL : ptr := None.

(** Modelled from the spec: the annotation record [dyn_t] of [ply/ast.h]:
    semantic type, size, storage location with its register or stack
    offset, and the part used for probes: the two register masks, the
    stack pointer and the provider. *)
Record dyn_t : Set := mkDyn {
  dyn_type : type_t;
  dyn_size : Z;
  dyn_loc : loc_t;
  dyn_reg : Z;
  dyn_addr : Z;
  probe_dyn_regs : Z;
  probe_stat_regs : Z;
  probe_sp : Z;
  probe_pvdr : ptr
}.

(** What [calloc] returns for an annotation. *)
Definition dyn_zero : dyn_t :=
  mkDyn TYPE_NONE 0 LOC_NOWHERE 0 0 0 0 0 NULL.

Definition set_probe_dyn_regs (v : Z) (d : dyn_t) : dyn_t :=
  mkDyn (dyn_type d) (dyn_size d) (dyn_loc d) (dyn_reg d) (dyn_addr d)
        v (probe_stat_regs d) (probe_sp d) (probe_pvdr d).

Definition set_probe_stat_regs (v : Z) (d : dyn_t) : dyn_t :=
  mkDyn (dyn_type d) (dyn_size d) (dyn_loc d) (dyn_reg d) (dyn_addr d)
        (probe_dyn_regs d) v (probe_sp d) (probe_pvdr d).

Definition set_probe_sp (v : Z) (d : dyn_t) : dyn_t :=
  mkDyn (dyn_type d) (dyn_size d) (dyn_loc d) (dyn_reg d) (dyn_addr d)
        (probe_dyn_regs d) (probe_stat_regs d) v (probe_pvdr d).

(** Modelled from the spec: the payload union of [node_t] in [ply/ast.h],
    one member per node kind that has fields of its own.  [u_none] is the
    payload of the kinds without fields. *)
Inductive union_t : Set :=
| u_none
| u_script (probes : ptr)
| u_probe (pred stmts : ptr)
| u_call (module : ptr) (vargs : ptr) (n_vargs : Z)
| u_iff (cond then_ then_last els : ptr)
| u_unroll (count : Z) (stmts : ptr)
| u_method (map call : ptr)
| u_assign (lval expr : ptr)
| u_binop (op : op_t) (left right : ptr)
| u_not (not : ptr)
| u_map (rec : ptr)
| u_rec (vargs : ptr) (n_vargs : Z)
| u_integer (integer : Z).

(** Modelled from the spec: the node structure [node_t] of [ply/ast.h]:
    kind, sibling and parent links, annotation, string and payload. *)
Record node_t : Set := mkNode {
  type : type_t;
  next : ptr;
  parent : ptr;
  dyn : ptr;
  string : ptr;
  u : union_t
}.

Definition set_next (v : ptr) (n : node_t) : node_t :=
  mkNode (type n) v (parent n) (dyn n) (string n) (u n).
Definition set_parent (v : ptr) (n : node_t) : node_t :=
  mkNode (type n) (next n) v (dyn n) (string n) (u n).
Definition set_dyn (v : ptr) (n : node_t) : node_t :=
  mkNode (type n) (next n) (parent n) v (string n) (u n).
Definition set_string (v : ptr) (n : node_t) : node_t :=
  mkNode (type n) (next n) (parent n) (dyn n) v (u n).
Definition set_u (v : union_t) (n : node_t) : node_t :=
  mkNode (type n) (next n) (parent n) (dyn n) (string n) v.

(** The zeroed payload of a freshly allocated node, seen through the union
    member of its kind. *)
Definition u_zero (t : type_t) : union_t :=
  match t with
  | TYPE_SCRIPT => u_script NULL
  | TYPE_PROBE => u_probe NULL NULL
  | TYPE_CALL => u_call NULL NULL 0
  | TYPE_IF => u_iff NULL NULL NULL NULL
  | TYPE_UNROLL => u_unroll 0 NULL
  | TYPE_METHOD => u_method NULL NULL
  | TYPE_ASSIGN => u_assign NULL NULL
  | TYPE_BINOP => u_binop 0 NULL NULL
  | TYPE_NOT => u_not NULL
  | TYPE_MAP => u_map NULL
  | TYPE_REC => u_rec NULL 0
  | TYPE_INT => u_integer 0
  | _ => u_none
  end.

(** ** The store and the monad *)

Record heap : Type := mkHeap {
  nodes : gmap positive node_t;
  dyns : gmap positive dyn_t;
  strs : gmap positive String.string
}.

Definition heap_empty : heap := mkHeap ∅ ∅ ∅.

Definition with_nodes (h : heap) (m : gmap positive node_t) : heap :=
  mkHeap m (dyns h) (strs h).
Definition with_dyns (h : heap) (m : gmap positive dyn_t) : heap :=
  mkHeap (nodes h) m (strs h).
Definition with_strs (h : heap) (m : gmap positive String.string) : heap :=
  mkHeap (nodes h) (dyns h) m.

Inductive res (A : Type) : Type :=
| Ok (a : A)
| Fault
| Timeout.
Arguments Ok {A} a.
Arguments Fault {A}.
Arguments Timeout {A}.

Definition M (St A : Type) : Type := St -> res A * St.

Definition ret {St A} (a : A) : M St A := fun s => (Ok a, s).
Definition fault {St A} : M St A := fun s => (Fault, s).
Definition timeout {St A} : M St A := fun s => (Timeout, s).
Definition bind {St A B} (m : M St A) (f : A -> M St B) : M St B :=
  fun s =>
    match m s with
    | (Ok a, s') => f a s'
    | (Fault, s') => (Fault, s')
    | (Timeout, s') => (Timeout, s')
    end.

Declare Scope heap_scope.
Delimit Scope heap_scope with heap.
Notation "x <- m ;; k" := (bind m (fun x => k))
  (at level 100, m at next level, right associativity) : heap_scope.
Notation "m ;;; k" := (bind m (fun _ => k))
  (at level 100, right associativity) : heap_scope.
Local Open Scope heap_scope.

(** A sequence of calls of one function, results in call order. *)
Fixpoint calls {St A B} (f : A -> M St B) (l : list A) : M St (list B) :=
  match l with
  | [] => ret []
  | a :: l' => b <- f a ;; bs <- calls f l' ;; ret (b :: bs)
  end.

(** Dereferences.  Reading or writing through NULL or through a pointer to
    a block that is not allocated is a [Fault]. *)
Definition load_node (p : ptr) : M heap node_t :=
  fun h =>
    match p with
    | Some a => match nodes h !! a with
                | Some n => (Ok n, h)
                | None => (Fault, h)
                end
    | None => (Fault, h)
    end.

Definition update_node (p : ptr) (f : node_t -> node_t) : M heap unit :=
  n <- load_node p ;;
  fun h =>
    match p with
    | Some a => (Ok tt, with_nodes h (<[a := f n]> (nodes h)))
    | None => (Fault, h)
    end.

Definition load_dyn (p : ptr) : M heap dyn_t :=
  fun h =>
    match p with
    | Some a => match dyns h !! a with
                | Some d => (Ok d, h)
                | None => (Fault, h)
                end
    | None => (Fault, h)
    end.

Definition update_dyn (p : ptr) (f : dyn_t -> dyn_t) : M heap unit :=
  d <- load_dyn p ;;
  fun h =>
    match p with
    | Some a => (Ok tt, with_dyns h (<[a := f d]> (dyns h)))
    | None => (Fault, h)
    end.

(** ** The probe resource allocator *)

(** The two register masks of a probe's annotation, as the targets of the
    [pool] and [compl] pointers of [node_probe_reg_get]. *)
Inductive regs_field : Set := F_dyn_regs | F_stat_regs.

Definition regs_load (f : regs_field) (d : dyn_t) : Z :=
  match f with
  | F_dyn_regs => probe_dyn_regs d
  | F_stat_regs => probe_stat_regs d
  end.

Definition regs_store (f : regs_field) (v : Z) (d : dyn_t) : dyn_t :=
  match f with
  | F_dyn_regs => set_probe_dyn_regs v d
  | F_stat_regs => set_probe_stat_regs v d
  end.

(** The test of the loop body: the bit of [reg] is set in the mask [pool]
    points to and in the mask [compl] points to. *)
Definition reg_free (pool compl reg : Z) : bool :=
  negb (Z.land (Z.land pool compl) (Z.shiftl 1 reg) =? 0).

(** The loop [for (reg = BPF_REG_6; reg < BPF_REG_9; reg++)], [n] rounds
    left: the first register that passes the test, if any. *)
Fixpoint reg_scan (n : nat) (reg pool compl : Z) : option Z :=
  match n with
  | O => None
  | S n' => if reg_free pool compl reg then Some reg
            else reg_scan n' (reg + 1) pool compl
  end.

Definition node_probe_reg_get (probe : ptr) (dynamic : Z) : M heap Z :=
  n <- load_node probe ;;
  d <- load_dyn (dyn n) ;;
  let pool := if dynamic =? 0 then F_stat_regs else F_dyn_regs in
  let compl := if dynamic =? 0 then F_dyn_regs else F_stat_regs in
  match reg_scan (Z.to_nat (BPF_REG_9 - BPF_REG_6)) BPF_REG_6
                 (regs_load pool d) (regs_load compl d) with
  | Some reg =>
      update_dyn (dyn n)
        (fun d => regs_store pool
                    (Z.land (regs_load pool d) (Z.lnot (Z.shiftl 1 reg))) d) ;;;
      ret reg
  | None => ret (-1)
  end.

(** [probe->dyn->probe.sp -= size; return probe->dyn->probe.sp;] where [sp]
    is an [ssize_t] and [size] a [size_t]: the difference is taken modulo
    [2 ^ 64] and read back as a signed value. *)
Definition node_probe_stack_get (probe : ptr) (size : Z) : M heap Z :=
  n <- load_node probe ;;
  update_dyn (dyn n) (fun d => set_probe_sp (wrap_ssize (probe_sp d - size)) d) ;;;
  d <- load_dyn (dyn n) ;;
  ret (probe_sp d).

(** ** Allocation *)

(** [calloc] of a node or of an annotation and [strdup]: a block at an
    address not in use.  Running out of memory ends the program (the
    [assert]s of [node_new]) and is not part of the model. *)
Definition alloc_node (n : node_t) : M heap ptr :=
  fun h =>
    let a := fresh (dom (nodes h)) in
    (Ok (Some a), with_nodes h (<[a := n]> (nodes h))).

Definition alloc_dyn (d : dyn_t) : M heap ptr :=
  fun h =>
    let a := fresh (dom (dyns h)) in
    (Ok (Some a), with_dyns h (<[a := d]> (dyns h))).

Definition strdup (s : String.string) : M heap ptr :=
  fun h =>
    let a := fresh (dom (strs h)) in
    (Ok (Some a), with_strs h (<[a := s]> (strs h))).

(** [free]: nothing on NULL, a [Fault] on a block that is not allocated. *)
Definition free_node (p : ptr) : M heap unit :=
  fun h =>
    match p with
    | None => (Ok tt, h)
    | Some a => match nodes h !! a with
                | Some _ => (Ok tt, with_nodes h (delete a (nodes h)))
                | None => (Fault, h)
                end
    end.

Definition free_dyn (p : ptr) : M heap unit :=
  fun h =>
    match p with
    | None => (Ok tt, h)
    | Some a => match dyns h !! a with
                | Some _ => (Ok tt, with_dyns h (delete a (dyns h)))
                | None => (Fault, h)
                end
    end.

Definition free_str (p : ptr) : M heap unit :=
  fun h =>
    match p with
    | None => (Ok tt, h)
    | Some a => match strs h !! a with
                | Some _ => (Ok tt, with_strs h (delete a (strs h)))
                | None => (Fault, h)
                end
    end.

(** A write to a member of the payload union.  [f] is the write seen
    through the member of one node kind; on a node that holds another
    member the C program would reinterpret the bytes of the union, which
    the model reports as a [Fault]. *)
Definition update_u (p : ptr) (f : union_t -> option union_t) : M heap unit :=
  n <- load_node p ;;
  match f (u n) with
  | Some x => update_node p (set_u x)
  | None => fault
  end.

(** Modelled from the spec: the macro [node_foreach] of [ply/ast.h],
    [for (c = in; c; c = c->next) body], over a sibling chain; [fuel]
    bounds the number of rounds. *)
Fixpoint node_foreach (fuel : nat) (c : ptr) (body : ptr -> M heap unit)
  : M heap unit :=
  match c with
  | None => ret tt
  | Some _ =>
      match fuel with
      | O => timeout
      | S fuel' =>
          body c ;;;
          n <- load_node c ;;
          node_foreach fuel' (next n) body
      end
  end.

(** ** Ancestor queries *)

Fixpoint node_get_parent_of_type (fuel : nat) (t : type_t) (n : ptr)
  : M heap ptr :=
  match n with
  | None => ret n
  | Some _ =>
      nd <- load_node n ;;
      if decide (type nd = t) then ret n
      else match fuel with
           | O => timeout
           | S fuel' => node_get_parent_of_type fuel' t (parent nd)
           end
  end.

Fixpoint node_get_stmt (fuel : nat) (n : ptr) : M heap ptr :=
  match n with
  | None => ret NULL
  | Some _ =>
      nd <- load_node n ;;
      pd <- load_node (parent nd) ;;
      if decide (type pd = TYPE_PROBE) then ret n
      else match fuel with
           | O => timeout
           | S fuel' => node_get_stmt fuel' (parent nd)
           end
  end.

Definition node_get_probe (fuel : nat) (n : ptr) : M heap ptr :=
  node_get_parent_of_type fuel TYPE_PROBE n.

Definition node_get_pvdr (fuel : nat) (n : ptr) : M heap ptr :=
  probe <- node_get_probe fuel n ;;
  match probe with
  | Some _ =>
      pd <- load_node probe ;;
      d <- load_dyn (dyn pd) ;;
      ret (probe_pvdr d)
  | None => ret NULL
  end.

Definition node_get_script (fuel : nat) (n : ptr) : M heap ptr :=
  node_get_parent_of_type fuel TYPE_SCRIPT n.

(** ** Constructors *)

Definition node_new (t : type_t) : M heap ptr :=
  n <- alloc_node (mkNode t NULL NULL NULL NULL (u_zero t)) ;;
  (* maps and vars have shared dyns allocated in the symtable *)
  (if decide (t <> TYPE_MAP /\ t <> TYPE_VAR)
   then d <- alloc_dyn dyn_zero ;; update_node n (set_dyn d)
   else ret tt) ;;;
  ret n.

Definition node_str_new (val : ptr) : M heap ptr :=
  n <- node_new TYPE_STR ;;
  update_node n (set_string val) ;;;
  ret n.

Definition node_int_new (val : Z) : M heap ptr :=
  n <- node_new TYPE_INT ;;
  update_u n (fun x => match x with
                       | u_integer _ => Some (u_integer val)
                       | _ => None
                       end) ;;;
  ret n.

Definition node_rec_new (fuel : nat) (vargs : ptr) : M heap ptr :=
  n <- node_new TYPE_REC ;;
  update_u n (fun x => match x with
                       | u_rec _ k => Some (u_rec vargs k)
                       | _ => None
                       end) ;;;
  node_foreach fuel vargs (fun c =>
    update_node c (set_parent n) ;;;
    update_u n (fun x => match x with
                         | u_rec v k => Some (u_rec v (wrap_int (k + 1)))
                         | _ => None
                         end)) ;;;
  ret n.

Definition node_map_new (fuel : nat) (name : ptr) (rec : ptr) : M heap ptr :=
  n <- node_new TYPE_MAP ;;
  rec <- match rec with
         | None => s <- strdup String.EmptyString ;;
                   k <- node_str_new s ;;
                   node_rec_new fuel k
         | Some _ => ret rec
         end ;;
  update_node n (set_string name) ;;;
  update_u n (fun x => match x with
                       | u_map _ => Some (u_map rec)
                       | _ => None
                       end) ;;;
  update_node rec (set_parent n) ;;;
  ret n.

Definition node_var_new (name : ptr) : M heap ptr :=
  n <- node_new TYPE_VAR ;;
  update_node n (set_string name) ;;;
  ret n.

Definition node_not_new (expr : ptr) : M heap ptr :=
  n <- node_new TYPE_NOT ;;
  update_u n (fun x => match x with
                       | u_not _ => Some (u_not expr)
                       | _ => None
                       end) ;;;
  update_node expr (set_parent n) ;;;
  ret n.

Definition node_binop_new (left : ptr) (op : op_t) (right : ptr)
  : M heap ptr :=
  n <- node_new TYPE_BINOP ;;
  update_u n (fun x => match x with
                       | u_binop _ _ _ => Some (u_binop op left right)
                       | _ => None
                       end) ;;;
  update_node left (set_parent n) ;;;
  update_node right (set_parent n) ;;;
  ret n.

Definition node_assign_new (lval expr : ptr) : M heap ptr :=
  n <- node_new TYPE_ASSIGN ;;
  s <- strdup "=" ;;
  update_node n (set_string s) ;;;
  update_u n (fun x => match x with
                       | u_assign _ _ => Some (u_assign lval expr)
                       | _ => None
                       end) ;;;
  update_node lval (set_parent n) ;;;
  (match expr with
   | Some _ => update_node expr (set_parent n)
   | None => ret tt
   end) ;;;
  ret n.

Definition node_method_new (map call : ptr) : M heap ptr :=
  n <- node_new TYPE_METHOD ;;
  s <- strdup "method" ;;
  update_u call (fun x => match x with
                          | u_call _ v k => Some (u_call s v k)
                          | _ => None
                          end) ;;;
  update_u n (fun x => match x with
                       | u_method _ _ => Some (u_method map call)
                       | _ => None
                       end) ;;;
  update_node map (set_parent n) ;;;
  update_node call (set_parent n) ;;;
  ret n.

Definition node_call_new (fuel : nat) (module func vargs : ptr)
  : M heap ptr :=
  n <- node_new TYPE_CALL ;;
  update_node n (set_string func) ;;;
  update_u n (fun x => match x with
                       | u_call _ _ k => Some (u_call module vargs k)
                       | _ => None
                       end) ;;;
  node_foreach fuel vargs (fun c =>
    update_node c (set_parent n) ;;;
    update_u n (fun x => match x with
                         | u_call m v k => Some (u_call m v (wrap_int (k + 1)))
                         | _ => None
                         end)) ;;;
  ret n.

Definition node_if_new (fuel : nat) (cond then_ els : ptr) : M heap ptr :=
  n <- node_new TYPE_IF ;;
  update_u n (fun x => match x with
                       | u_iff _ _ l _ => Some (u_iff cond then_ l els)
                       | _ => None
                       end) ;;;
  update_node cond (set_parent n) ;;;
  node_foreach fuel then_ (fun c =>
    update_node c (set_parent n) ;;;
    cd <- load_node c ;;
    match next cd with
    | None => update_u n (fun x => match x with
                                   | u_iff a b _ d => Some (u_iff a b c d)
                                   | _ => None
                                   end)
    | Some _ => ret tt
    end) ;;;
  (match els with
   | Some _ => node_foreach fuel els (fun c => update_node c (set_parent n))
   | None => ret tt
   end) ;;;
  ret n.

Definition node_unroll_new (fuel : nat) (count : Z) (stmts : ptr)
  : M heap ptr :=
  n <- node_new TYPE_UNROLL ;;
  update_u n (fun x => match x with
                       | u_unroll _ _ => Some (u_unroll count stmts)
                       | _ => None
                       end) ;;;
  node_foreach fuel stmts (fun c => update_node c (set_parent n)) ;;;
  ret n.

Definition node_probe_new (fuel : nat) (pspec pred stmts : ptr)
  : M heap ptr :=
  n <- node_new TYPE_PROBE ;;
  update_node n (set_string pspec) ;;;
  update_u n (fun x => match x with
                       | u_probe _ _ => Some (u_probe pred stmts)
                       | _ => None
                       end) ;;;
  (match pred with
   | Some _ => update_node pred (set_parent n)
   | None => ret tt
   end) ;;;
  node_foreach fuel stmts (fun c => update_node c (set_parent n)) ;;;
  ret n.

Definition node_script_new (fuel : nat) (probes : ptr) : M heap ptr :=
  n <- node_new TYPE_SCRIPT ;;
  update_u n (fun x => match x with
                       | u_script _ => Some (u_script probes)
                       | _ => None
                       end) ;;;
  node_foreach fuel probes (fun c => update_node c (set_parent n)) ;;;
  ret n.

(** ** The generic walker *)

(** A walk runs over the store and the caller's context ([void *ctx]) of
    type [C]; both are handed to the callbacks, which may change them. *)
Definition lift {C A} (m : M heap A) : M (heap * C) A :=
  fun w =>
    match m (fst w) with
    | (r, h') => (r, (h', snd w))
    end.

(** The callbacks [pre] and [post]: from a node and the context to an
    [int] status. *)
Definition callback (C : Type) : Type := ptr -> M (heap * C) Z.

(** [err = ...; if (err) return err], the tail of the macros [do_list] and
    [do_walk], followed by the rest [k] of the function. *)
Definition or_return {St} (m : M St Z) (k : M St Z) : M St Z :=
  err <- m ;;
  if err =? 0 then k else ret err.

(** [f ? f(n, ctx) : 0] for an optional callback [f]. *)
Definition call_cb {C} (f : option (callback C)) (n : ptr) : M (heap * C) Z :=
  match f with
  | Some f => f n
  | None => ret 0
  end.

(** [node_walk] and [_node_walk_list]; [fuel] bounds the depth of the calls
    and the rounds of the list loop together.  Every field of [n] is read
    from the store at the point where the C code reads it. *)
Fixpoint node_walk {C} (fuel : nat) (n : ptr) (pre post : option (callback C))
  : M (heap * C) Z :=
  match fuel with
  | O => timeout
  | S fuel' =>
      let do_list head k := or_return (_node_walk_list fuel' head pre post) k in
      let do_walk node k := or_return (node_walk fuel' node pre post) k in
      let member {A} (f : union_t -> option A) : M (heap * C) A :=
        nd <- lift (load_node n) ;;
        match f (u nd) with
        | Some a => ret a
        | None => fault
        end in
      let finish := call_cb post n in
      or_return (call_cb pre n)
        (nd <- lift (load_node n) ;;
         match type nd with
         | TYPE_SCRIPT =>
             probes <- member (fun x => match x with
                                        | u_script p => Some p
                                        | _ => None
                                        end) ;;
             do_list probes finish
         | TYPE_PROBE =>
             pred <- member (fun x => match x with
                                      | u_probe p _ => Some p
                                      | _ => None
                                      end) ;;
             (match pred with
              | Some _ => do_walk pred
              | None => fun k => k
              end)
               (stmts <- member (fun x => match x with
                                          | u_probe _ s => Some s
                                          | _ => None
                                          end) ;;
                do_list stmts finish)
         | TYPE_IF =>
             cond <- member (fun x => match x with
                                      | u_iff c _ _ _ => Some c
                                      | _ => None
                                      end) ;;
             do_walk cond
               (then_ <- member (fun x => match x with
                                          | u_iff _ t _ _ => Some t
                                          | _ => None
                                          end) ;;
                do_list then_
                  (els <- member (fun x => match x with
                                           | u_iff _ _ _ e => Some e
                                           | _ => None
                                           end) ;;
                   match els with
                   | Some _ => do_list els finish
                   | None => finish
                   end))
         | TYPE_UNROLL =>
             stmts <- member (fun x => match x with
                                       | u_unroll _ s => Some s
                                       | _ => None
                                       end) ;;
             do_list stmts finish
         | TYPE_CALL =>
             vargs <- member (fun x => match x with
                                       | u_call _ v _ => Some v
                                       | _ => None
                                       end) ;;
             do_list vargs finish
         | TYPE_METHOD =>
             map <- member (fun x => match x with
                                     | u_method m _ => Some m
                                     | _ => None
                                     end) ;;
             do_walk map
               (call <- member (fun x => match x with
                                         | u_method _ c => Some c
                                         | _ => None
                                         end) ;;
                do_walk call finish)
         | TYPE_ASSIGN =>
             lval <- member (fun x => match x with
                                      | u_assign l _ => Some l
                                      | _ => None
                                      end) ;;
             do_walk lval
               (expr <- member (fun x => match x with
                                         | u_assign _ e => Some e
                                         | _ => None
                                         end) ;;
                match expr with
                | Some _ => do_walk expr finish
                | None => finish
                end)
         | TYPE_BINOP =>
             left <- member (fun x => match x with
                                      | u_binop _ l _ => Some l
                                      | _ => None
                                      end) ;;
             do_walk left
               (right <- member (fun x => match x with
                                          | u_binop _ _ r => Some r
                                          | _ => None
                                          end) ;;
                do_walk right finish)
         | TYPE_NOT =>
             not <- member (fun x => match x with
                                     | u_not e => Some e
                                     | _ => None
                                     end) ;;
             do_walk not finish
         | TYPE_MAP =>
             rec <- member (fun x => match x with
                                     | u_map r => Some r
                                     | _ => None
                                     end) ;;
             do_walk rec finish
         | TYPE_REC =>
             vargs <- member (fun x => match x with
                                       | u_rec v _ => Some v
                                       | _ => None
                                       end) ;;
             do_list vargs finish
         | TYPE_NONE => ret (-1)
         | _ => finish
         end)
  end

with _node_walk_list {C} (fuel : nat) (elem : ptr)
       (pre post : option (callback C)) : M (heap * C) Z :=
  match elem with
  | None => ret 0
  | Some _ =>
      match fuel with
      | O => timeout
      | S fuel' =>
          nd <- lift (load_node elem) ;;
          let next_ := next nd in
          or_return (node_walk fuel' elem pre post)
            (_node_walk_list fuel' next_ pre post)
      end
  end.

(** ** Destruction *)

Definition _node_free : callback unit := fun n =>
  lift (
    nd <- load_node n ;;
    (match type nd with
     | TYPE_CALL =>
         module <- (match u nd with
                    | u_call m _ _ => ret m
                    | _ => fault
                    end) ;;
         (match module with
          | Some _ => free_str module
          | None => ret tt
          end) ;;;
         (* fall-through *)
         free_str (string nd)
     | TYPE_PROBE | TYPE_ASSIGN | TYPE_MAP | TYPE_STR =>
         free_str (string nd)
     | _ => ret tt
     end) ;;;
    (if decide (type nd <> TYPE_MAP /\ type nd <> TYPE_VAR)
     then free_dyn (dyn nd)
     else ret tt) ;;;
    free_node n ;;;
    ret 0).

Definition node_free (fuel : nat) (n : ptr) : M (heap * unit) unit :=
  node_walk fuel n None (Some _node_free) ;;;
  ret tt.

(** ** Notions used to state the properties *)

(** [probe] points to a node whose annotation is allocated. *)
Definition probe_valid (h : heap) (probe : ptr) : bool :=
  match probe with
  | Some a => match nodes h !! a with
              | Some nd => match dyn nd with
                           | Some da => bool_decide (is_Some (dyns h !! da))
                           | None => false
                           end
              | None => false
              end
  | None => false
  end.

(** The annotation of the node [probe] points to. *)
Definition probe_dyn (h : heap) (probe : ptr) : option dyn_t :=
  a ← probe; nd ← nodes h !! a; da ← dyn nd; dyns h !! da.

(** The effect of one call of [node_probe_reg_get] on the annotation of the
    probe, and its result. *)
Definition reg_get_step (d : dyn_t) (dynamic : Z) : Z * dyn_t :=
  let pool := if dynamic =? 0 then F_stat_regs else F_dyn_regs in
  let compl := if dynamic =? 0 then F_dyn_regs else F_stat_regs in
  match reg_scan (Z.to_nat (BPF_REG_9 - BPF_REG_6)) BPF_REG_6
                 (regs_load pool d) (regs_load compl d) with
  | Some reg =>
      (reg, regs_store pool
              (Z.land (regs_load pool d) (Z.lnot (Z.shiftl 1 reg))) d)
  | None => (-1, d)
  end.

(** Register [r] is still free in the annotation [d]: neither class has
    taken it. *)
Definition reg_avail (d : dyn_t) (r : Z) : bool :=
  Z.testbit (probe_dyn_regs d) r && Z.testbit (probe_stat_regs d) r.

(** A register request for the dynamic class ([dynamic] non-zero) or for
    the static class. *)
Definition is_dynamic (dynamic : Z) : bool := negb (dynamic =? 0).

(** The offsets a sequence of stack requests returns, starting from the
    stack pointer [sp], when no request leaves the range of [ssize_t]. *)
Fixpoint stack_offsets (sp : Z) (sizes : list Z) : list Z :=
  match sizes with
  | [] => []
  | s :: sizes' => (sp - s) :: stack_offsets (sp - s) sizes'
  end.

(** *** Observing a walk *)

(** A callback invocation that returned: which callback, on which node,
    with which status. *)
Inductive phase : Set := Pre | Post.

Definition event : Set := phase * ptr * Z.

Definition ev_status (e : event) : Z := snd e.

(** [observe k f] is the callback [f] with a record kept of its
    invocations: it runs [f] on the store and on the context of [f], and
    appends the invocation to a log next to that context when [f]
    returns.  The log is not visible to [f]. *)
Definition observe {C} (k : phase) (f : callback C)
  : callback (C * list event) :=
  fun n w =>
    match f n (fst w, fst (snd w)) with
    | (Ok s, w') => (Ok s, (fst w', (snd w', snd (snd w) ++ [(k, n, s)])))
    | (Fault, w') => (Fault, (fst w', (snd w', snd (snd w))))
    | (Timeout, w') => (Timeout, (fst w', (snd w', snd (snd w))))
    end.

(** The log of a state of an observed walk, and the state without it. *)
Definition log_of {C} (w : heap * (C * list event)) : list event :=
  snd (snd w).

Definition erase {C} (w : heap * (C * list event)) : heap * C :=
  (fst w, fst (snd w)).

(** What a walk may have appended to the log when it ends with [r]:
    statuses 0 only, or statuses 0 followed by one last status, which is
    not 0 and is the result. *)
Definition aborting (r : res Z) (tr : list event) : Prop :=
  Forall (fun e => ev_status e = 0) tr
  \/ exists tr1 e, tr = tr1 ++ [e]
                   /\ Forall (fun e => ev_status e = 0) tr1
                   /\ ev_status e <> 0 /\ r = Ok (ev_status e).

(** A computation of a status that extends the log in that way, one that
    leaves the log alone, and one that does on an observed state what
    another does on the state without the log. *)
Definition sound {C} (m : M (heap * (C * list event)) Z) : Prop :=
  forall w r w', m w = (r, w') ->
                 exists tr, log_of w' = log_of w ++ tr /\ aborting r tr.

Definition quiet {C A} (m : M (heap * (C * list event)) A) : Prop :=
  forall w r w', m w = (r, w') -> log_of w' = log_of w.

Definition sim {C A} (m' : M (heap * (C * list event)) A)
           (m : M (heap * C) A) : Prop :=
  forall w r w', m' w = (r, w') -> m (erase w) = (r, erase w').

(** [m2] returns what [m1] returns whenever [m1] does not run out of
    fuel. *)
Definition extends {St A} (m1 m2 : M St A) : Prop :=
  forall w r w', m1 w = (r, w') -> r <> Timeout -> m2 w = (r, w').

(** *** Sibling lists and parent chains *)

(** [p] heads the NULL-terminated sibling chain of the nodes at the
    addresses [l], in this order. *)
Fixpoint siblings (h : heap) (p : ptr) (l : list addr) : Prop :=
  match l with
  | [] => p = NULL
  | a :: l' =>
      p = Some a
      /\ exists nd, nodes h !! a = Some nd /\ siblings h (next nd) l'
  end.

(** Every node of [h] is a node of [h'] with the same [next] link. *)
Definition keeps_links (h h' : heap) : Prop :=
  forall a nd, nodes h !! a = Some nd ->
               exists nd', nodes h' !! a = Some nd' /\ next nd' = next nd.

(** The node reached from the node at [a] by following [k] parent links. *)
Fixpoint ancestor (h : heap) (k : nat) (a : addr) : option addr :=
  match k with
  | O => Some a
  | S k' => nd ← nodes h !! a; p ← parent nd; ancestor h k' p
  end.

(** The kind of the node at [a]. *)
Definition node_type (h : heap) (a : addr) : option type_t :=
  type <$> nodes h !! a.

(** The payload of a call node with [k] counted arguments, and of a record
    node. *)
Definition is_call (module vargs : ptr) (x : union_t) : Prop :=
  exists k, x = u_call module vargs k.

Definition is_rec (vargs : ptr) (x : union_t) : Prop :=
  exists k, x = u_rec vargs k.

(** The cached argument count of a payload. *)
Definition n_vargs_of (x : union_t) : Z :=
  match x with
  | u_call _ _ k => k
  | u_rec _ k => k
  | _ => 0
  end.

(** ** Example inputs *)

Module Examples.

(** Modelled from the spec: the register masks of a probe at the start of
    its compilation, both the full register set (they are set outside
    [ast.c]). *)
Definition full_regs : Z :=
  Z.lor (Z.shiftl 1 6) (Z.lor (Z.shiftl 1 7) (Z.shiftl 1 8)).

(** A probe without predicate and statements, ready for compilation. *)
Definition new_probe : M heap ptr :=
  pspec <- strdup "kprobe:SyS_open" ;;
  probe <- node_probe_new 0 pspec NULL NULL ;;
  pd <- load_node probe ;;
  update_dyn (dyn pd)
    (fun d => set_probe_dyn_regs full_regs (set_probe_stat_regs full_regs d)) ;;;
  ret probe.

Definition probe_heap : heap := snd (new_probe heap_empty).

Definition the_probe : ptr :=
  match fst (new_probe heap_empty) with
  | Ok p => p
  | _ => NULL
  end.

(** The nodes of [if (a > 1) { x = 2; } else { x = 3; }], in the order of
    their construction. *)
Record if_nodes : Set := mkIfNodes {
  n_a : ptr; n_1 : ptr; n_gt : ptr;
  n_x2 : ptr; n_2 : ptr; n_then : ptr;
  n_x3 : ptr; n_3 : ptr; n_else : ptr;
  n_if : ptr
}.

(** [if (a > 1) { x = 2; } else { x = 3; }] built by the constructors,
    leaves first; [gt] is the operator [>]. *)
Definition new_if (gt : op_t) : M heap if_nodes :=
  sa <- strdup "a" ;;
  a <- node_var_new sa ;;
  one <- node_int_new 1 ;;
  cond <- node_binop_new a gt one ;;
  sx <- strdup "x" ;;
  x <- node_var_new sx ;;
  two <- node_int_new 2 ;;
  then_ <- node_assign_new x two ;;
  sx' <- strdup "x" ;;
  x' <- node_var_new sx' ;;
  three <- node_int_new 3 ;;
  els <- node_assign_new x' three ;;
  n <- node_if_new 1 cond then_ els ;;
  ret (mkIfNodes a one cond x two then_ x' three els n).

Definition if_heap (gt : op_t) : heap := snd (new_if gt heap_empty).

Definition the_if (gt : op_t) : if_nodes :=
  match fst (new_if gt heap_empty) with
  | Ok ns => ns
  | _ => mkIfNodes NULL NULL NULL NULL NULL NULL NULL NULL NULL NULL
  end.

(** The operator [>] of the example; the constructors and the walker
    store an operator and never look at it. *)
Definition gt_op : op_t := 1.

(** A counting callback: [ctx] points to an [int] that it increments. *)
Definition count_cb : callback Z :=
  fun n w => (Ok 0, (fst w, wrap_int (snd w + 1))).

(** A callback that gives up, with status [s], on the nodes of kind [t]. *)
Definition stop_at (t : type_t) (s : Z) : callback unit :=
  fun n =>
    nd <- lift (load_node n) ;;
    if decide (type nd = t) then ret s else ret 0.

(** The nodes of the invocations of a log, in order. *)
Definition visited (log : list event) : list ptr :=
  List.map (fun e => snd (fst e)) log.

(** [x = 2;] as the body of a probe of a script; the variable has its
    annotation from the symbol table, which owns it. *)
Record script_nodes : Set := mkScriptNodes {
  s_x : ptr; s_2 : ptr; s_assign : ptr; s_probe : ptr; s_script : ptr;
  s_name : ptr; s_shared : ptr
}.

Definition new_script : M heap script_nodes :=
  sx <- strdup "x" ;;
  x <- node_var_new sx ;;
  shared <- alloc_dyn dyn_zero ;;
  update_node x (set_dyn shared) ;;;
  two <- node_int_new 2 ;;
  stmt <- node_assign_new x two ;;
  pspec <- strdup "kprobe:SyS_open" ;;
  probe <- node_probe_new 1 pspec NULL stmt ;;
  script <- node_script_new 1 probe ;;
  ret (mkScriptNodes x two stmt probe script sx shared).

Definition script_heap : heap := snd (new_script heap_empty).

Definition the_script : script_nodes :=
  match fst (new_script heap_empty) with
  | Ok ns => ns
  | _ => mkScriptNodes NULL NULL NULL NULL NULL NULL NULL
  end.

(** [@m = 2;] as the body of a probe of a script: the same with a map, of
    the default key, in the place of the variable. *)
Definition new_map_script : M heap script_nodes :=
  sm <- strdup "m" ;;
  m <- node_map_new 1 sm NULL ;;
  shared <- alloc_dyn dyn_zero ;;
  update_node m (set_dyn shared) ;;;
  two <- node_int_new 2 ;;
  stmt <- node_assign_new m two ;;
  pspec <- strdup "kprobe:SyS_open" ;;
  probe <- node_probe_new 1 pspec NULL stmt ;;
  script <- node_script_new 1 probe ;;
  ret (mkScriptNodes m two stmt probe script sm shared).

Definition map_script_heap : heap := snd (new_map_script heap_empty).

Definition the_map_script : script_nodes :=
  match fst (new_map_script heap_empty) with
  | Ok ns => ns
  | _ => mkScriptNodes NULL NULL NULL NULL NULL NULL NULL
  end.

(** A node of kind [TYPE_NONE]. *)
Definition none_heap : heap := snd (node_new TYPE_NONE heap_empty).

Definition n_none : ptr :=
  match fst (node_new TYPE_NONE heap_empty) with
  | Ok p => p
  | _ => NULL
  end.

(** Two sibling arguments, [1, 2]. *)
Definition new_args : M heap ptr :=
  one <- node_int_new 1 ;;
  two <- node_int_new 2 ;;
  update_node one (set_next two) ;;;
  ret one.

Definition args_heap : heap := snd (new_args heap_empty).

Definition the_args : ptr :=
  match fst (new_args heap_empty) with
  | Ok p => p
  | _ => NULL
  end.

(** The node at [a] in [h]; a zeroed node when there is none. *)
Definition node_at (h : heap) (a : addr) : node_t :=
  default (mkNode TYPE_NONE NULL NULL NULL NULL u_none) (nodes h !! a).

End Examples.

(** ** Further notions *)

(** The registers of the file that are free in the annotation [d], in
    ascending order. *)
Definition free_regs (d : dyn_t) : list Z :=
  List.filter (reg_avail d) (seqZ BPF_REG_6 (BPF_REG_9 - BPF_REG_6)).

(** The mask a request of class [dynamic] takes its register from, and the
    mask of the other class. *)
Definition pool_of (dynamic : Z) : regs_field :=
  if dynamic =? 0 then F_stat_regs else F_dyn_regs.

Definition compl_of (dynamic : Z) : regs_field :=
  if dynamic =? 0 then F_dyn_regs else F_stat_regs.

(** *** Walks: what the walker itself does *)

(** Every run of [m] takes a state to a state related to it by [R]. *)
Definition keeps {St A} (R : St -> St -> Prop) (m : M St A) : Prop :=
  forall w r w', m w = (r, w') -> R w w'.

(** The status [r] of a walk that appended [tr] to the log is 0, or -1, or
    the status of the last invocation of [tr]. *)
Definition sourced (r : res Z) (tr : list event) : Prop :=
  forall s, r = Ok s -> s <> 0 ->
            s = -1 \/ exists tr1 e, tr = tr1 ++ [e] /\ ev_status e = s.

Definition sourced_run {C} (m : M (heap * (C * list event)) Z) : Prop :=
  forall w r w', m w = (r, w') ->
                 exists tr, log_of w' = log_of w ++ tr /\ sourced r tr.

(** The nodes on which the callback [k] was invoked, in order. *)
Definition nodes_of (k : phase) (tr : list event) : list ptr :=
  List.map (fun e => snd (fst e))
           (List.filter (fun e => match fst (fst e), k with
                                  | Pre, Pre | Post, Post => true
                                  | _, _ => false
                                  end) tr).

(** A computation that, when it ends with status 0, has invoked [post] on
    the nodes on which it has invoked [pre]; and one that has, in that case,
    invoked [post] on those nodes and on [n]. *)
Definition paired {C} (m : M (heap * (C * list event)) Z) : Prop :=
  forall w r w', m w = (r, w') ->
                 exists tr, log_of w' = log_of w ++ tr
                            /\ (r = Ok 0 ->
                                nodes_of Pre tr ≡ₚ nodes_of Post tr).

Definition closing {C} (n : ptr) (m : M (heap * (C * list event)) Z)
  : Prop :=
  forall w r w', m w = (r, w') ->
                 exists tr, log_of w' = log_of w ++ tr
                            /\ (r = Ok 0 ->
                                n :: nodes_of Pre tr ≡ₚ nodes_of Post tr).

(** *** Constructors: what they leave in the store *)

(** The store [h'] is the store [h] with the parent link of the nodes
    [kids] set to [n]; the node at [n] itself is not described. *)
Definition stamped (n : addr) (kids : list addr) (h h' : heap) : Prop :=
  forall a, a <> n ->
            nodes h' !! a
            = if decide (a ∈ kids)
              then set_parent (Some n) <$> nodes h !! a
              else nodes h !! a.

(** The payload of the new node after the loop of a constructor over the
    sibling chain [l]: [stepf c nx x] is the payload that the round on the
    element [c], whose [next] link is [nx], makes of the payload [x]. *)
Fixpoint payload_after (stepf : addr -> ptr -> union_t -> option union_t)
         (h : heap) (l : list addr) (x : union_t) : option union_t :=
  match l with
  | [] => Some x
  | a :: l' =>
      nd ← nodes h !! a;
      x' ← stepf a (next nd) x;
      payload_after stepf h l' x'
  end.

(** *** Further example inputs *)

Module MoreExamples.

(** The annotation of the probe [probe] in [h]; zeroed when there is
    none. *)
Definition dyn_of (h : heap) (probe : ptr) : dyn_t :=
  default dyn_zero (probe_dyn h probe).

(** The probe of the examples after a request for a static register. *)
Definition probe_heap1 : heap :=
  snd (node_probe_reg_get Examples.the_probe 0 Examples.probe_heap).

(** A condition, at address 1, the chain of two statements [2; 3] and the
    chain of one statement [4], literals all, not yet under a parent. *)
Definition new_parts : M heap (ptr * ptr * ptr) :=
  c <- node_int_new 0 ;;
  s1 <- node_int_new 1 ;;
  s2 <- node_int_new 2 ;;
  update_node s1 (set_next s2) ;;;
  e <- node_int_new 3 ;;
  ret (c, s1, e).

Definition parts_heap : heap := snd (new_parts heap_empty).

(** A receiver, at address 1, and a call [f()] of the module [mod], at
    address 2. *)
Definition new_receiver_call : M heap (ptr * ptr) :=
  m <- node_int_new 1 ;;
  md <- strdup "mod" ;;
  f <- strdup "f" ;;
  c <- node_call_new 0 md f NULL ;;
  ret (m, c).

Definition receiver_call_heap : heap := snd (new_receiver_call heap_empty).

End MoreExamples.

(** * Properties *)

(** ** The monad *)

Lemma bind_ok {St A B} (m : M St A) (f : A -> M St B) s a s' :
  m s = (Ok a, s') -> bind m f s = f a s'.
Proof. intros H. unfold bind. now rewrite H. Qed.

(** ** The register allocator *)

Section RegisterBits.

Lemma land_bit_of (a r : Z) :
  0 <= r -> (Z.land a (Z.shiftl 1 r) =? 0) = negb (Z.testbit a r).
Proof.
  intros Hr. rewrite Z.shiftl_1_l.
  destruct (Z.testbit a r) eqn:Hb; simpl.
  - apply Z.eqb_neq. intros H0.
    assert (Hc : Z.testbit (Z.land a (2 ^ r)) r = true).
    { rewrite Z.land_spec, Hb, Z.pow2_bits_true by lia. reflexivity. }
    rewrite H0, Z.bits_0 in Hc. discriminate.
  - apply Z.eqb_eq. apply Z.bits_inj'. intros i Hi.
    rewrite Z.land_spec, Z.bits_0.
    destruct (Z.eq_dec i r) as [->|Hne].
    + now rewrite Hb.
    + rewrite (Z.pow2_bits_false r i) by lia. apply andb_false_r.
Qed.

Lemma reg_free_spec (pool compl reg : Z) :
  0 <= reg ->
  reg_free pool compl reg = Z.testbit pool reg && Z.testbit compl reg.
Proof.
  intros Hr. unfold reg_free.
  rewrite land_bit_of, negb_involutive, Z.land_spec by lia. reflexivity.
Qed.

Lemma clear_bit_spec (pool reg i : Z) :
  0 <= i ->
  Z.testbit (Z.land pool (Z.lnot (Z.shiftl 1 reg))) i
  = Z.testbit pool i && negb (Z.testbit (Z.shiftl 1 reg) i).
Proof.
  intros Hi. now rewrite Z.land_spec, Z.lnot_spec by lia.
Qed.

Lemma clear_bit_same (pool reg : Z) :
  0 <= reg ->
  Z.testbit (Z.land pool (Z.lnot (Z.shiftl 1 reg))) reg = false.
Proof.
  intros Hr. rewrite clear_bit_spec, Z.shiftl_1_l, Z.pow2_bits_true by lia.
  apply andb_false_r.
Qed.

Lemma clear_bit_mono (pool reg i : Z) :
  0 <= i ->
  Z.testbit pool i = false ->
  Z.testbit (Z.land pool (Z.lnot (Z.shiftl 1 reg))) i = false.
Proof.
  intros Hi Hb. now rewrite clear_bit_spec, Hb by lia.
Qed.

Lemma reg_scan_some n reg pool compl r :
  0 <= reg ->
  reg_scan n reg pool compl = Some r ->
  reg <= r < reg + Z.of_nat n
  /\ Z.testbit pool r = true /\ Z.testbit compl r = true.
Proof.
  revert reg. induction n as [|n IH]; intros reg Hreg; simpl; [discriminate|].
  destruct (reg_free pool compl reg) eqn:Hf.
  - intros [= <-]. rewrite reg_free_spec in Hf by lia.
    apply andb_true_iff in Hf. split; [lia | exact Hf].
  - intros H. apply IH in H; [|lia]. destruct H as [? ?]. split; [lia|done].
Qed.

Lemma reg_scan_none n reg pool compl :
  0 <= reg ->
  reg_scan n reg pool compl = None ->
  forall r, reg <= r < reg + Z.of_nat n ->
            Z.testbit pool r && Z.testbit compl r = false.
Proof.
  revert reg. induction n as [|n IH]; intros reg Hreg; simpl.
  - intros _ r Hr. lia.
  - destruct (reg_free pool compl reg) eqn:Hf; [discriminate|].
    intros H r Hr. destruct (Z.eq_dec r reg) as [->|Hne].
    + now rewrite <- reg_free_spec by lia.
    + apply (IH (reg + 1)); [lia | done | lia].
Qed.

End RegisterBits.

(** One call, seen on the annotation: either the sentinel, with the
    annotation as it was and no register of the file free, or a register
    of the file that was free and is not any more. *)
Lemma reg_get_step_spec d dynamic :
  let '(r, d') := reg_get_step d dynamic in
  (r = -1 /\ d' = d
   /\ forall x, BPF_REG_6 <= x < BPF_REG_9 -> reg_avail d x = false)
  \/ (BPF_REG_6 <= r < BPF_REG_9
      /\ reg_avail d r = true /\ reg_avail d' r = false).
Proof.
  unfold reg_get_step.
  destruct (reg_scan _ _ _ _) as [reg|] eqn:Hs.
  - right. apply reg_scan_some in Hs; [|unfold BPF_REG_6; lia].
    destruct Hs as (Hr & Hp & Hc). unfold BPF_REG_6, BPF_REG_9 in *.
    split; [lia|]. unfold reg_avail.
    destruct (dynamic =? 0); simpl in *.
    + rewrite Hp, Hc. split; [done|]. rewrite clear_bit_same by lia.
      apply andb_false_r.
    + rewrite Hp, Hc. split; [done|]. now rewrite clear_bit_same by lia.
  - left. split; [done|]. split; [done|]. intros x Hx.
    pose proof (reg_scan_none _ BPF_REG_6 _ _ ltac:(unfold BPF_REG_6; lia) Hs x)
      as Hn.
    unfold BPF_REG_6, BPF_REG_9 in *. unfold reg_avail.
    destruct (dynamic =? 0); simpl in Hn.
    + rewrite andb_comm. apply Hn. lia.
    + apply Hn. lia.
Qed.

(** No call makes a register free again. *)
Lemma reg_get_step_mono d dynamic x :
  0 <= x -> reg_avail d x = false ->
  reg_avail (snd (reg_get_step d dynamic)) x = false.
Proof.
  intros Hx Ha. unfold reg_get_step.
  destruct (reg_scan _ _ _ _) as [reg|]; simpl; [|done].
  unfold reg_avail in *. apply andb_false_iff in Ha.
  destruct (dynamic =? 0); simpl; apply andb_false_iff.
  - destruct Ha as [Ha|Ha]; [now left|right]. now apply clear_bit_mono.
  - destruct Ha as [Ha|Ha]; [left|now right]. now apply clear_bit_mono.
Qed.

Lemma probe_valid_dyn h probe :
  probe_valid h probe = true -> exists d, probe_dyn h probe = Some d.
Proof.
  unfold probe_valid, probe_dyn. destruct probe as [a|]; [|discriminate].
  simpl. destruct (nodes h !! a) as [nd|]; [|discriminate]. simpl.
  destruct (dyn nd) as [da|]; [|discriminate]. simpl.
  intros H. apply bool_decide_eq_true in H. destruct H as [d Hd]. eauto.
Qed.

Lemma probe_dyn_inv h probe d :
  probe_dyn h probe = Some d ->
  exists a nd da, probe = Some a /\ nodes h !! a = Some nd
                  /\ dyn nd = Some da /\ dyns h !! da = Some d.
Proof.
  unfold probe_dyn. destruct probe as [a|]; [|discriminate]. simpl.
  destruct (nodes h !! a) as [nd|] eqn:Hn; [|discriminate]. simpl.
  destruct (dyn nd) as [da|] eqn:Hd; [|discriminate]. simpl.
  intros H. eauto 10.
Qed.

(** One call on the store is [reg_get_step] on the annotation of the
    probe; a call that returns the sentinel leaves the store as it is. *)
Lemma node_probe_reg_get_run h probe d dynamic :
  probe_dyn h probe = Some d ->
  exists h',
    node_probe_reg_get probe dynamic h = (Ok (fst (reg_get_step d dynamic)), h')
    /\ probe_dyn h' probe = Some (snd (reg_get_step d dynamic))
    /\ (fst (reg_get_step d dynamic) = -1 -> h' = h).
Proof.
  intros Hd. destruct (probe_dyn_inv _ _ _ Hd) as (a & nd & da & -> & Hn & Hda & Hdd).
  unfold node_probe_reg_get, reg_get_step, bind, load_node, load_dyn, update_dyn.
  rewrite Hn, Hda. unfold bind, load_dyn. rewrite Hdd.
  destruct (reg_scan _ _ _ _) as [reg|] eqn:Hs; simpl.
  - unfold bind, load_dyn. rewrite Hdd. simpl. eexists. split; [reflexivity|].
    split.
    + unfold probe_dyn. simpl. rewrite Hn. simpl. rewrite Hda. simpl.
      apply lookup_insert_eq.
    + intros ->. apply reg_scan_some in Hs; unfold BPF_REG_6 in *; lia.
  - exists h. split; [reflexivity|]. split; [exact Hd | done].
Qed.

(** A sequence of calls on one probe. *)
Lemma reg_get_calls h probe d cls :
  probe_dyn h probe = Some d ->
  exists rs h' d',
    calls (node_probe_reg_get probe) cls h = (Ok rs, h')
    /\ probe_dyn h' probe = Some d'
    /\ length rs = length cls
    /\ (forall x, 0 <= x -> reg_avail d x = false ->
                  reg_avail d' x = false /\ x ∉ rs)
    /\ (forall r, r ∈ rs -> r <> -1 ->
                  BPF_REG_6 <= r < BPF_REG_9 /\ reg_avail d' r = false)
    /\ (forall i j r, rs !! i = Some r -> rs !! j = Some r -> r <> -1 -> i = j).
Proof.
  revert h d. induction cls as [|c cls IH]; intros h d Hd.
  - exists [], h, d. split; [reflexivity|]. split; [done|]. split; [done|].
    split; [|split].
    + intros x _ Hx. split; [done|]. apply not_elem_of_nil.
    + intros r Hr. now apply elem_of_nil in Hr.
    + intros i j r Hi. discriminate.
  - destruct (node_probe_reg_get_run h probe d c Hd) as (h1 & Hrun & Hd1 & _).
    pose proof (reg_get_step_spec d c) as Hspec.
    pose proof (reg_get_step_mono d c) as Hmono.
    destruct (reg_get_step d c) as [r0 d1]. simpl in *.
    destruct (IH h1 d1 Hd1) as (rs & h' & d' & Hcalls & Hd' & Hlen & Hun & Hret & Hdis).
    exists (r0 :: rs), h', d'. split.
    { simpl. rewrite (bind_ok _ _ _ _ _ Hrun). rewrite (bind_ok _ _ _ _ _ Hcalls).
      reflexivity. }
    split; [done|]. split; [simpl; congruence|].
    assert (Hr0 : r0 <> -1 ->
                  BPF_REG_6 <= r0 < BPF_REG_9 /\ reg_avail d r0 = true
                  /\ reg_avail d1 r0 = false).
    { intros Hne. destruct Hspec as [(? & _)|?]; [congruence|done]. }
    split; [|split].
    + intros x Hx Ha. destruct (Hun x Hx (Hmono x Hx Ha)) as [Ha' Hnin].
      split; [done|]. apply not_elem_of_cons. split; [|done].
      intros ->. destruct Hspec as [(-> & _)|(_ & Hav & _)]; [lia|congruence].
    + intros r Hr Hne. apply elem_of_cons in Hr. destruct Hr as [->|Hr].
      * destruct (Hr0 Hne) as (Hrange & _ & Ha1). split; [done|].
        apply Hun; [unfold BPF_REG_6 in *; lia | done].
      * now apply Hret.
    + intros i j r Hi Hj Hne. destruct i as [|i], j as [|j]; simpl in *.
      * done.
      * injection Hi as ->. destruct (Hr0 Hne) as (Hrange & _ & Ha1).
        exfalso. apply (Hun r); [unfold BPF_REG_6 in *; lia | done |].
        eapply list_elem_of_lookup_2; eauto.
      * injection Hj as ->. destruct (Hr0 Hne) as (Hrange & _ & Ha1).
        exfalso. apply (Hun r); [unfold BPF_REG_6 in *; lia | done |].
        eapply list_elem_of_lookup_2; eauto.
      * f_equal. eauto.
Qed.

(** C1: on a probe whose annotation is allocated, every sequence of register
    requests, static and dynamic in any order, runs to its end, and in the
    registers it returns none occurs twice (the sentinel [-1] apart); in
    particular no register is returned both to a static and to a dynamic
    request. *)
Theorem reg_get_exclusive (h : heap) (probe : ptr) (cls : list Z) :
  probe_valid h probe = true ->
  exists rs h',
    calls (node_probe_reg_get probe) cls h = (Ok rs, h')
    /\ length rs = length cls
    /\ (forall i j r,
           rs !! i = Some r -> rs !! j = Some r -> r <> -1 -> i = j)
    /\ (forall i j ci cj r,
           cls !! i = Some ci -> cls !! j = Some cj ->
           is_dynamic ci <> is_dynamic cj ->
           rs !! i = Some r -> rs !! j = Some r -> r = -1).
Proof.
  intros Hv. destruct (probe_valid_dyn _ _ Hv) as [d Hd].
  destruct (reg_get_calls h probe d cls Hd)
    as (rs & h' & d' & Hcalls & _ & Hlen & _ & _ & Hdis).
  exists rs, h'. split; [done|]. split; [done|]. split; [done|].
  intros i j ci cj r Hci Hcj Hne Hi Hj.
  destruct (Z.eq_dec r (-1)) as [|Hr]; [done|].
  pose proof (Hdis i j r Hi Hj Hr) as ->. congruence.
Qed.

(** C5: once the three registers of the file have been returned on a probe,
    every further request on it, for either class, returns the sentinel
    [-1] (and leaves the store as it is). *)
Theorem reg_get_exhausted (h : heap) (probe : ptr) (cls : list Z)
        (rs : list Z) (h1 : heap) :
  probe_valid h probe = true ->
  calls (node_probe_reg_get probe) cls h = (Ok rs, h1) ->
  6 ∈ rs -> 7 ∈ rs -> 8 ∈ rs ->
  forall more : list Z,
    calls (node_probe_reg_get probe) more h1
    = (Ok (replicate (length more) (-1)), h1).
Proof.
  intros Hv Hcalls H6 H7 H8. destruct (probe_valid_dyn _ _ Hv) as [d Hd].
  destruct (reg_get_calls h probe d cls Hd)
    as (rs' & h' & d' & Hcalls' & Hd' & _ & _ & Hret & _).
  rewrite Hcalls in Hcalls'. injection Hcalls' as <- <-.
  assert (Hnone : forall x, BPF_REG_6 <= x < BPF_REG_9 -> reg_avail d' x = false).
  { intros x Hx. unfold BPF_REG_6, BPF_REG_9 in Hx.
    assert (Hc : x = 6 \/ x = 7 \/ x = 8) by lia.
    destruct Hc as [Hc|[Hc|Hc]]; subst x; now apply Hret. }
  intros more. induction more as [|c more IH]; [reflexivity|].
  destruct (node_probe_reg_get_run h1 probe d' c Hd') as (h2 & Hrun & _ & Hsame).
  pose proof (reg_get_step_spec d' c) as Hspec.
  destruct (reg_get_step d' c) as [r d2]. simpl in *.
  destruct Hspec as [(-> & _)|(Hr & Hav & _)].
  - rewrite (Hsame eq_refl) in Hrun.
    rewrite (bind_ok _ _ _ _ _ Hrun). rewrite (bind_ok _ _ _ _ _ IH).
    reflexivity.
  - rewrite Hnone in Hav by done. discriminate.
Qed.

(** ** The stack allocator *)

Lemma wrap_ssize_id z : in_ssize z -> wrap_ssize z = z.
Proof.
  unfold in_ssize, SSIZE_MIN, SSIZE_MAX, wrap_ssize, wrap_signed.
  intros Hz. change (2 ^ (64 - 1)) with 9223372036854775808 in *.
  change (2 ^ 63) with 9223372036854775808 in *.
  change (2 ^ 64) with 18446744073709551616.
  rewrite Z.mod_small; lia.
Qed.

(** One call on the store: the stack pointer of the annotation becomes the
    64-bit difference, which is the result; nothing else changes in the
    annotation. *)
Lemma node_probe_stack_get_run h probe d size :
  probe_dyn h probe = Some d ->
  exists h',
    node_probe_stack_get probe size h
    = (Ok (wrap_ssize (probe_sp d - size)), h')
    /\ probe_dyn h' probe
       = Some (set_probe_sp (wrap_ssize (probe_sp d - size)) d).
Proof.
  intros Hd. destruct (probe_dyn_inv _ _ _ Hd) as (a & nd & da & -> & Hn & Hda & Hdd).
  unfold node_probe_stack_get, bind, load_node, update_dyn.
  rewrite Hn, Hda. unfold bind, load_dyn. rewrite Hdd. simpl.
  rewrite lookup_insert_eq. eexists. split; [reflexivity|].
  unfold probe_dyn. simpl. rewrite Hn. simpl. rewrite Hda. simpl.
  apply lookup_insert_eq.
Qed.

(** C10: a stack request has no failure result and checks nothing: on a
    probe whose annotation is allocated it returns, for every stack pointer
    and every size, the 64-bit difference of the two, which is the new stack
    pointer; this is the difference itself whenever that is an [ssize_t],
    and a request of size 0 returns the stack pointer as it was. *)
Theorem stack_get_total (h : heap) (probe : ptr) (d : dyn_t) (size : Z) :
  probe_dyn h probe = Some d ->
  in_ssize (probe_sp d) ->
  in_size size ->
  exists r h',
    node_probe_stack_get probe size h = (Ok r, h')
    /\ r = wrap_ssize (probe_sp d - size)
    /\ probe_dyn h' probe = Some (set_probe_sp r d)
    /\ (SSIZE_MIN <= probe_sp d - size -> r = probe_sp d - size)
    /\ (size = 0 -> r = probe_sp d).
Proof.
  intros Hd Hsp Hsize.
  destruct (node_probe_stack_get_run h probe d size Hd) as (h' & Hrun & Hd').
  exists (wrap_ssize (probe_sp d - size)), h'.
  split; [done|]. split; [done|]. split; [done|].
  unfold in_ssize, in_size in *. split.
  - intros Hlo. apply wrap_ssize_id. unfold in_ssize. lia.
  - intros ->. rewrite Z.sub_0_r. now apply wrap_ssize_id.
Qed.

(** A sequence of requests none of which leaves the range of [ssize_t]. *)
Lemma stack_get_calls h probe d sizes :
  probe_dyn h probe = Some d ->
  Forall in_ssize (stack_offsets (probe_sp d) sizes) ->
  exists h',
    calls (node_probe_stack_get probe) sizes h
    = (Ok (stack_offsets (probe_sp d) sizes), h').
Proof.
  revert h d. induction sizes as [|s sizes IH]; intros h d Hd Hr; simpl.
  - now exists h.
  - simpl in Hr. apply Forall_cons in Hr. destruct Hr as [Hs Hr].
    destruct (node_probe_stack_get_run h probe d s Hd) as (h1 & Hrun & Hd1).
    rewrite (wrap_ssize_id _ Hs) in Hrun, Hd1.
    destruct (IH h1 _ Hd1 Hr) as (h' & Hcalls). simpl in Hcalls.
    exists h'. rewrite (bind_ok _ _ _ _ _ Hrun), (bind_ok _ _ _ _ _ Hcalls).
    reflexivity.
Qed.

Lemma stack_offsets_length sp sizes :
  length (stack_offsets sp sizes) = length sizes.
Proof. revert sp. induction sizes; intros; simpl; congruence. Qed.

Lemma stack_offsets_first sp sizes o s :
  stack_offsets sp sizes !! 0%nat = Some o -> sizes !! 0%nat = Some s ->
  sp - o = s.
Proof. destruct sizes; simpl; [discriminate|]. intros [= <-] [= <-]. lia. Qed.

Lemma stack_offsets_gap sp sizes i o o' s :
  stack_offsets sp sizes !! i = Some o ->
  stack_offsets sp sizes !! S i = Some o' ->
  sizes !! S i = Some s ->
  o - o' = s.
Proof.
  revert sp sizes. induction i as [|i IH]; intros sp sizes.
  - destruct sizes as [|s0 sizes]; simpl; [discriminate|].
    intros [= <-]. apply stack_offsets_first.
  - destruct sizes as [|s0 sizes]; simpl; [discriminate|]. apply IH.
Qed.

Lemma stack_offsets_below sp sizes j o :
  Forall (fun s => 0 < s) sizes ->
  stack_offsets sp sizes !! j = Some o -> o < sp.
Proof.
  revert sp j. induction sizes as [|s sizes IH]; intros sp j Hs; [discriminate|].
  apply Forall_cons in Hs. destruct Hs as [Hs0 Hs].
  destruct j as [|j]; simpl.
  - intros [= <-]. lia.
  - intros Ho. apply IH in Ho; [lia | done].
Qed.

Lemma stack_offsets_strict sp sizes i j o o' :
  Forall (fun s => 0 < s) sizes ->
  (i < j)%nat ->
  stack_offsets sp sizes !! i = Some o ->
  stack_offsets sp sizes !! j = Some o' ->
  o' < o.
Proof.
  revert sp i j. induction sizes as [|s sizes IH]; intros sp i j Hs Hij;
    [discriminate|].
  pose proof Hs as Hall. apply Forall_cons in Hs. destruct Hs as [Hs0 Hs].
  destruct j as [|j]; [lia|]. destruct i as [|i]; simpl.
  - intros [= <-] Ho'. now apply stack_offsets_below in Ho'.
  - apply IH; [done | lia].
Qed.

(** C3 (amended): on a probe whose annotation is allocated, a sequence of
    stack requests of sizes [s1 .. sk] none of which leaves the range of
    [ssize_t] returns the offsets [sp - s1], [sp - s1 - s2], ...: each call
    subtracts its size from the current stack pointer and returns the new
    one.  The gap between two consecutive offsets is the size of the later
    of the two requests; the offsets never increase, and they decrease
    strictly when every size is positive. *)
Theorem stack_get_offsets (h : heap) (probe : ptr) (d : dyn_t)
        (sizes : list Z) :
  probe_dyn h probe = Some d ->
  Forall in_size sizes ->
  Forall in_ssize (stack_offsets (probe_sp d) sizes) ->
  exists offs h',
    calls (node_probe_stack_get probe) sizes h = (Ok offs, h')
    /\ offs = stack_offsets (probe_sp d) sizes
    /\ length offs = length sizes
    /\ (forall o s, offs !! 0%nat = Some o -> sizes !! 0%nat = Some s ->
                    probe_sp d - o = s)
    /\ (forall i o o' s,
           offs !! i = Some o -> offs !! S i = Some o' ->
           sizes !! S i = Some s -> o - o' = s /\ o' <= o)
    /\ (Forall (fun s => 0 < s) sizes ->
        forall i j o o',
          (i < j)%nat -> offs !! i = Some o -> offs !! j = Some o' -> o' < o).
Proof.
  intros Hd Hsz Hr.
  destruct (stack_get_calls h probe d sizes Hd Hr) as (h' & Hcalls).
  exists (stack_offsets (probe_sp d) sizes), h'.
  split; [done|]. split; [done|]. split; [apply stack_offsets_length|].
  split; [|split].
  - intros o s. apply stack_offsets_first.
  - intros i o o' s Ho Ho' Hs.
    pose proof (stack_offsets_gap _ _ _ _ _ _ Ho Ho' Hs) as Hgap.
    split; [done|].
    assert (0 <= s); [|lia].
    rewrite Forall_forall in Hsz.
    assert (Hin : s ∈ sizes) by (eapply list_elem_of_lookup_2; eauto).
    apply Hsz in Hin. unfold in_size in Hin. lia.
  - intros Hpos i j o o' Hij. now apply stack_offsets_strict.
Qed.

(** ** The walker: abort propagation *)

Section Abort.

Context {C : Type}.

Lemma aborting_ok0 tr : aborting (Ok 0) tr -> Forall (fun e => ev_status e = 0) tr.
Proof.
  intros [H|(tr1 & e & _ & _ & Hne & Heq)]; [done|].
  injection Heq as Heq. congruence.
Qed.

Lemma aborting_app r tr1 tr2 :
  Forall (fun e => ev_status e = 0) tr1 -> aborting r tr2 ->
  aborting r (tr1 ++ tr2).
Proof.
  intros H1 [H2|(tr & e & -> & Hz & Hne & Hr)].
  - left. now apply Forall_app.
  - right. exists (tr1 ++ tr), e. rewrite app_assoc.
    split; [done|]. split; [now apply Forall_app | done].
Qed.

Lemma sound_ret z : sound (C:=C) (ret z).
Proof.
  intros w r w' [= <- <-]. exists []. rewrite app_nil_r.
  split; [done|]. now left.
Qed.

Lemma sound_fault : sound (C:=C) fault.
Proof.
  intros w r w' [= <- <-]. exists []. rewrite app_nil_r.
  split; [done|]. now left.
Qed.

Lemma sound_timeout : sound (C:=C) timeout.
Proof.
  intros w r w' [= <- <-]. exists []. rewrite app_nil_r.
  split; [done|]. now left.
Qed.

Lemma quiet_ret {A} (a : A) : quiet (C:=C) (ret a).
Proof. now intros w r w' [= <- <-]. Qed.

Lemma quiet_fault {A} : quiet (C:=C) (@fault (heap * (C * list event)) A).
Proof. now intros w r w' [= <- <-]. Qed.

Lemma quiet_lift {A} (m : M heap A) : quiet (C:=C) (lift m).
Proof.
  intros w r w'. unfold lift. destruct (m w.1) as [r1 h1].
  now intros [= <- <-].
Qed.

Lemma quiet_bind {A B} (m : M (heap * (C * list event)) A)
      (f : A -> M (heap * (C * list event)) B) :
  quiet m -> (forall a, quiet (f a)) -> quiet (bind m f).
Proof.
  intros Hm Hf w r w'. unfold bind.
  destruct (m w) as [[a| |] w1] eqn:E.
  - intros H. apply Hf in H. apply Hm in E. congruence.
  - intros [= <- <-]. now apply Hm in E.
  - intros [= <- <-]. now apply Hm in E.
Qed.

Lemma sound_bind_quiet {A} (m : M (heap * (C * list event)) A)
      (f : A -> M (heap * (C * list event)) Z) :
  quiet m -> (forall a, sound (f a)) -> sound (bind m f).
Proof.
  intros Hm Hf w r w'. unfold bind.
  destruct (m w) as [[a| |] w1] eqn:E; apply Hm in E.
  - intros H. apply Hf in H. now rewrite E in H.
  - intros [= <- <-]. exists []. rewrite app_nil_r. split; [done|]. now left.
  - intros [= <- <-]. exists []. rewrite app_nil_r. split; [done|]. now left.
Qed.

Lemma sound_or_return (m k : M (heap * (C * list event)) Z) :
  sound m -> sound k -> sound (or_return m k).
Proof.
  intros Hm Hk w r w'. unfold or_return, bind.
  destruct (m w) as [[err| |] w1] eqn:E; apply Hm in E;
    destruct E as (tr1 & Hlog1 & Hab1).
  - destruct (err =? 0) eqn:Herr.
    + apply Z.eqb_eq in Herr. subst err. apply aborting_ok0 in Hab1.
      intros H. apply Hk in H. destruct H as (tr2 & Hlog2 & Hab2).
      exists (tr1 ++ tr2). rewrite Hlog2, Hlog1, app_assoc.
      split; [done|]. now apply aborting_app.
    + intros [= <- <-]. now exists tr1.
  - intros [= <- <-]. now exists tr1.
  - intros [= <- <-]. now exists tr1.
Qed.

Lemma sound_observe k (f : callback C) n : sound (observe k f n).
Proof.
  intros w r w'. unfold observe.
  destruct (f n (w.1, (w.2).1)) as [[s| |] w1].
  - intros [= <- <-]. exists [(k, n, s)]. split; [done|].
    destruct (Z.eq_dec s 0) as [->|Hs].
    + left. now repeat constructor.
    + right. exists [], (k, n, s). now repeat split.
  - intros [= <- <-]. exists []. unfold log_of. simpl. rewrite app_nil_r.
    split; [done|]. now left.
  - intros [= <- <-]. exists []. unfold log_of. simpl. rewrite app_nil_r.
    split; [done|]. now left.
Qed.

Lemma sound_call_cb k (f : option (callback C)) n :
  sound (call_cb (observe k <$> f) n).
Proof. destruct f; simpl; [apply sound_observe | apply sound_ret]. Qed.

Ltac quiet_tac :=
  repeat first
    [ apply quiet_ret | apply quiet_fault | apply quiet_lift
    | apply quiet_bind; [|intros ?]
    | match goal with |- quiet (match ?x with _ => _ end) => destruct x end ].

Ltac sound_tac IHw IHl :=
  repeat first
    [ apply IHw | apply IHl
    | apply sound_ret | apply sound_fault | apply sound_timeout
    | apply sound_call_cb
    | apply sound_or_return
    | apply sound_bind_quiet; [quiet_tac | intros ?]
    | match goal with |- sound (match ?x with _ => _ end) => destruct x end
    | match goal with
      | |- sound ((match ?x with _ => _ end) _) => destruct x
      end ].

Lemma walk_sound (pre post : option (callback C)) fuel :
  (forall n, sound (node_walk fuel n (observe Pre <$> pre) (observe Post <$> post)))
  /\ (forall e, sound (_node_walk_list fuel e (observe Pre <$> pre)
                                       (observe Post <$> post))).
Proof.
  induction fuel as [|fuel [IHw IHl]].
  - split; intros n; simpl; [apply sound_timeout|].
    destruct n; [apply sound_timeout | apply sound_ret].
  - split; intros n.
    + cbn [node_walk]. sound_tac IHw IHl.
    + cbn [_node_walk_list]. sound_tac IHw IHl.
Qed.

(** Observation does not change a walk. *)
Lemma sim_ret {A} (a : A) : sim (C:=C) (ret a) (ret a).
Proof. now intros w r w' [= <- <-]. Qed.

Lemma sim_fault {A} : sim (C:=C) (A:=A) fault fault.
Proof. now intros w r w' [= <- <-]. Qed.

Lemma sim_timeout {A} : sim (C:=C) (A:=A) timeout timeout.
Proof. now intros w r w' [= <- <-]. Qed.

Lemma sim_lift {A} (m : M heap A) : sim (C:=C) (lift m) (lift m).
Proof.
  intros w r w'. unfold lift, erase. simpl. destruct (m w.1) as [r1 h1].
  now intros [= <- <-].
Qed.

Lemma sim_bind {A B} (m' : M (heap * (C * list event)) A) m
      (f' : A -> M (heap * (C * list event)) B) f :
  sim m' m -> (forall a, sim (f' a) (f a)) -> sim (bind m' f') (bind m f).
Proof.
  intros Hm Hf w r w'. unfold bind.
  destruct (m' w) as [[a| |] w1] eqn:E; apply Hm in E; rewrite E.
  - apply Hf.
  - now intros [= <- <-].
  - now intros [= <- <-].
Qed.

Lemma sim_or_return (m' k' : M (heap * (C * list event)) Z) m k :
  sim m' m -> sim k' k -> sim (or_return m' k') (or_return m k).
Proof.
  intros Hm Hk. unfold or_return. apply sim_bind; [done|].
  intros err. destruct (err =? 0); [done | apply sim_ret].
Qed.

Lemma sim_observe k (f : callback C) n : sim (observe k f n) (f n).
Proof.
  intros w r w'. unfold observe, erase.
  destruct (f n (w.1, (w.2).1)) as [[s| |] [h1 c1]];
    now intros [= <- <-].
Qed.

Lemma sim_call_cb k (f : option (callback C)) n :
  sim (call_cb (observe k <$> f) n) (call_cb f n).
Proof. destruct f; simpl; [apply sim_observe | apply sim_ret]. Qed.

Ltac sim_tac IHw IHl :=
  repeat first
    [ apply IHw | apply IHl
    | apply sim_ret | apply sim_fault | apply sim_timeout | apply sim_lift
    | apply sim_call_cb
    | apply sim_or_return
    | apply sim_bind; [|intros ?]
    | match goal with |- sim (match ?x with _ => _ end) _ => destruct x end
    | match goal with
      | |- sim ((match ?x with _ => _ end) _) _ => destruct x
      end ].

Lemma walk_sim (pre post : option (callback C)) fuel :
  (forall n, sim (node_walk fuel n (observe Pre <$> pre) (observe Post <$> post))
                 (node_walk fuel n pre post))
  /\ (forall e, sim (_node_walk_list fuel e (observe Pre <$> pre)
                                     (observe Post <$> post))
                    (_node_walk_list fuel e pre post)).
Proof.
  induction fuel as [|fuel [IHw IHl]].
  - split; intros n; simpl; [apply sim_timeout|].
    destruct n; [apply sim_timeout | apply sim_ret].
  - split; intros n.
    + cbn [node_walk]. sim_tac IHw IHl.
    + cbn [_node_walk_list]. sim_tac IHw IHl.
Qed.

End Abort.

(** Observing the callbacks does not change what a walk does to the store
    and to the context, nor its result. *)
Lemma observe_transparent {C} (pre post : option (callback C)) fuel n w r w' :
  node_walk fuel n (observe Pre <$> pre) (observe Post <$> post) w = (r, w') ->
  node_walk fuel n pre post (erase w) = (r, erase w').
Proof. apply walk_sim. Qed.

(** When the [pre] callback returns a status other than 0 on the node a
    walk starts from, the walk ends there, with that status and in the
    state [pre] left: no field of the node is read, no child is walked and
    [post] is not called. *)
Lemma walk_pre_abort {C} (f : callback C) post fuel n w s w1 :
  f n w = (Ok s, w1) -> s <> 0 ->
  node_walk (S fuel) n (Some f) post w = (Ok s, w1).
Proof.
  intros Hf Hs. cbn [node_walk]. unfold or_return, call_cb, bind. rewrite Hf.
  apply Z.eqb_neq in Hs. now rewrite Hs.
Qed.

(** The element of a sibling list whose walk returns a status other than 0
    ends the walk of the list, with that status. *)
Lemma walk_list_abort {C} (pre post : option (callback C)) fuel a nd w s w1 :
  nodes (fst w) !! a = Some nd ->
  node_walk fuel (Some a) pre post w = (Ok s, w1) -> s <> 0 ->
  _node_walk_list (S fuel) (Some a) pre post w = (Ok s, w1).
Proof.
  intros Hn Hw Hs. cbn [_node_walk_list]. unfold bind, lift, load_node.
  rewrite Hn. unfold or_return, bind. destruct w as [h c]. simpl in *.
  rewrite Hw. apply Z.eqb_neq in Hs. now rewrite Hs.
Qed.

(** *** Fuel *)

Section Fuel.

Context {C : Type}.

Lemma extends_refl {A} (m : M (heap * C) A) : extends m m.
Proof. now intros w r w' H _. Qed.

Lemma extends_timeout {A} (m : M (heap * C) A) : extends timeout m.
Proof. intros w r w' [= <- <-] H. done. Qed.

Lemma extends_bind {A B} (m1 m2 : M (heap * C) A)
      (f1 f2 : A -> M (heap * C) B) :
  extends m1 m2 -> (forall a, extends (f1 a) (f2 a)) ->
  extends (bind m1 f1) (bind m2 f2).
Proof.
  intros Hm Hf w r w'. unfold bind.
  destruct (m1 w) as [[a| |] w1] eqn:E.
  - rewrite (Hm _ _ _ E) by done. apply Hf.
  - intros [= <- <-] _. now rewrite (Hm _ _ _ E).
  - intros [= <- <-] Hr. done.
Qed.

Lemma extends_or_return (m1 m2 k1 k2 : M (heap * C) Z) :
  extends m1 m2 -> extends k1 k2 ->
  extends (or_return m1 k1) (or_return m2 k2).
Proof.
  intros Hm Hk. unfold or_return. apply extends_bind; [done|].
  intros err. destruct (err =? 0); [done | apply extends_refl].
Qed.

Ltac extends_tac IHw IHl :=
  repeat first
    [ apply IHw | apply IHl
    | apply extends_timeout
    | apply extends_or_return
    | apply extends_bind; [|intros ?]
    | match goal with
      | |- extends (match ?x with _ => _ end) _ => destruct x
      end
    | match goal with
      | |- extends ((match ?x with _ => _ end) _) _ => destruct x
      end
    | apply extends_refl ].

Lemma walk_fuel_S (pre post : option (callback C)) fuel :
  (forall n, extends (node_walk fuel n pre post)
                     (node_walk (S fuel) n pre post))
  /\ (forall e, extends (_node_walk_list fuel e pre post)
                        (_node_walk_list (S fuel) e pre post)).
Proof.
  induction fuel as [|fuel [IHw IHl]].
  - split; intros n; [apply extends_timeout|].
    destruct n; [apply extends_timeout | apply extends_refl].
  - split; intros n.
    + cbn [node_walk]. extends_tac IHw IHl.
    + cbn [_node_walk_list]. extends_tac IHw IHl.
Qed.

(** A walk that ends without running out of fuel ends in the same way with
    any larger amount of fuel. *)
Lemma walk_fuel_le (pre post : option (callback C)) fuel fuel' n w r w' :
  (fuel <= fuel')%nat ->
  node_walk fuel n pre post w = (r, w') -> r <> Timeout ->
  node_walk fuel' n pre post w = (r, w').
Proof.
  induction 1 as [|fuel' Hle IH]; [done|].
  intros Hw Hr. apply walk_fuel_S; [|done]. now apply IH.
Qed.

End Fuel.

(** The log of an observed walk only grows. *)
Lemma walk_log_extends {C} (pre post : option (callback C)) fuel n w r w' :
  node_walk fuel n (observe Pre <$> pre) (observe Post <$> post) w = (r, w') ->
  exists tr, log_of w' = log_of w ++ tr.
Proof.
  intros Hw. apply walk_sound in Hw. destruct Hw as (tr & Hlog & _). eauto.
Qed.

(** C2: in every walk, with any callbacks, an invocation of a callback
    that returns a status other than 0 is the last thing the walk does: no
    callback is invoked after it (so neither the children of that node nor
    its [post] callback nor any later node of the traversal is visited), the
    walk returns, and it returns that status. *)
Theorem walk_abort {C} (pre post : option (callback C)) (fuel : nat)
        (n : ptr) (w w' : heap * (C * list event)) (r : res Z)
        (tr1 tr2 : list event) (e : event) :
  node_walk fuel n (observe Pre <$> pre) (observe Post <$> post) w = (r, w') ->
  log_of w' = log_of w ++ tr1 ++ e :: tr2 ->
  ev_status e <> 0 ->
  tr2 = [] /\ r = Ok (ev_status e).
Proof.
  intros Hw Hlog' Hne. apply walk_sound in Hw. destruct Hw as (tr & Hlog & Hab).
  rewrite Hlog in Hlog'. apply app_inv_head in Hlog'. subst tr.
  destruct Hab as [Hz|(tr0 & e0 & Heq & Hz & Hne0 & ->)].
  - rewrite Forall_app, Forall_cons in Hz. tauto.
  - destruct tr2 as [|x tr2 _] using rev_ind.
    + apply app_inj_tail in Heq. destruct Heq as [_ ->]. done.
    + exfalso. change (e :: tr2 ++ [x]) with ((e :: tr2) ++ [x]) in Heq.
      rewrite app_assoc in Heq. apply app_inj_tail in Heq.
      destruct Heq as [<- _]. rewrite Forall_app, Forall_cons in Hz. tauto.
Qed.

(** C9: a walk that reaches a node of kind [TYPE_NONE] returns -1 there:
    when the [pre] callback, if there is one, has returned 0 on the node,
    the walk ends with -1 in the state [pre] left, whatever [post] is: no
    child is walked and [post] is not called. *)
Theorem walk_type_none {C} (pre post : option (callback C)) (fuel : nat)
        (a : addr) (nd : node_t) (w w1 : heap * C) :
  call_cb pre (Some a) w = (Ok 0, w1) ->
  nodes (fst w1) !! a = Some nd ->
  type nd = TYPE_NONE ->
  node_walk (S fuel) (Some a) pre post w = (Ok (-1), w1).
Proof.
  intros Hpre Hn Ht. cbn [node_walk]. unfold or_return, bind at 1.
  rewrite Hpre. simpl. unfold bind, lift, load_node. rewrite Hn, Ht.
  now destruct w1.
Qed.

(** ** Constructors: the cached argument count *)

Lemma wrap_int_id z : in_int z -> wrap_int z = z.
Proof.
  unfold in_int, INT_MIN, INT_MAX, wrap_int, wrap_signed.
  intros Hz. change (2 ^ (32 - 1)) with 2147483648 in *.
  change (2 ^ 31) with 2147483648 in *.
  change (2 ^ 32) with 4294967296.
  rewrite Z.mod_small; lia.
Qed.

Lemma load_node_run h a nd :
  nodes h !! a = Some nd -> load_node (Some a) h = (Ok nd, h).
Proof. intros H. unfold load_node. now rewrite H. Qed.

Lemma update_node_run h a nd f :
  nodes h !! a = Some nd ->
  update_node (Some a) f h = (Ok tt, with_nodes h (<[a := f nd]> (nodes h))).
Proof. intros H. unfold update_node, bind, load_node. now rewrite H. Qed.

Lemma update_u_run h a nd g x :
  nodes h !! a = Some nd -> g (u nd) = Some x ->
  update_u (Some a) g h
  = (Ok tt, with_nodes h (<[a := set_u x nd]> (nodes h))).
Proof.
  intros H Hg. unfold update_u, bind at 1. rewrite (load_node_run _ _ _ H), Hg.
  now apply update_node_run.
Qed.

Lemma keeps_links_refl h : keeps_links h h.
Proof. intros a nd H. eauto. Qed.

Lemma keeps_links_trans h1 h2 h3 :
  keeps_links h1 h2 -> keeps_links h2 h3 -> keeps_links h1 h3.
Proof.
  intros H12 H23 a nd H. destruct (H12 _ _ H) as (nd2 & H2 & E2).
  destruct (H23 _ _ H2) as (nd3 & H3 & E3). exists nd3. split; congruence.
Qed.

Lemma keeps_links_insert h h' a nd nd' :
  nodes h !! a = Some nd -> next nd' = next nd ->
  nodes h' = <[a := nd']> (nodes h) ->
  keeps_links h h'.
Proof.
  intros H E Hn b ndb Hb. rewrite Hn. destruct (decide (a = b)) as [<-|Hne].
  - rewrite lookup_insert_eq. exists nd'. split; congruence.
  - rewrite lookup_insert_ne by done. eauto.
Qed.

Lemma keeps_links_fresh h h' a nd :
  nodes h !! a = None ->
  nodes h' = <[a := nd]> (nodes h) ->
  keeps_links h h'.
Proof.
  intros H Hn b ndb Hb. rewrite Hn. rewrite lookup_insert_ne by congruence. eauto.
Qed.

Lemma siblings_keeps h h' p l :
  keeps_links h h' -> siblings h p l -> siblings h' p l.
Proof.
  intros Hk. revert p. induction l as [|a l IH]; intros p; simpl; [done|].
  intros (-> & nd & Hn & Hs). split; [done|].
  destruct (Hk _ _ Hn) as (nd' & Hn' & E). exists nd'. split; [done|].
  rewrite E. now apply IH.
Qed.

(** The loop of [node_call_new] and of [node_rec_new]: it stamps the parent
    of every element and adds one to the count of [n] for each; [fam] is
    the payload of [n] up to its count, and [g] the increment. *)
Lemma node_foreach_count (fam : union_t -> Prop)
      (g : union_t -> option union_t) :
  (forall x, fam x ->
             exists x', g x = Some x' /\ fam x'
                        /\ n_vargs_of x' = wrap_int (n_vargs_of x + 1)) ->
  forall l fuel h c n nd,
    siblings h c l ->
    (length l <= fuel)%nat ->
    nodes h !! n = Some nd ->
    fam (u nd) ->
    0 <= n_vargs_of (u nd) ->
    n_vargs_of (u nd) + Z.of_nat (length l) <= INT_MAX ->
    exists h' nd',
      node_foreach fuel c
        (fun c => update_node c (set_parent (Some n)) ;;; update_u (Some n) g) h
      = (Ok tt, h')
      /\ keeps_links h h'
      /\ nodes h' !! n = Some nd'
      /\ fam (u nd')
      /\ type nd' = type nd
      /\ n_vargs_of (u nd') = n_vargs_of (u nd) + Z.of_nat (length l).
Proof.
  intros Hg. induction l as [|a l IH]; intros fuel h c n nd Hs Hfuel Hn Hfam H0 Hmax.
  - simpl in Hs. subst c. exists h, nd. destruct fuel; simpl;
      (split; [reflexivity|]); (split; [apply keeps_links_refl|]);
      (split; [done|]); (split; [done|]); (split; [done|]); lia.
  - simpl in Hs. destruct Hs as (-> & cd & Hc & Hs).
    destruct fuel as [|fuel]; [simpl in Hfuel; lia|].
    set (h1 := with_nodes h (<[a := set_parent (Some n) cd]> (nodes h))).
    assert (Hk1 : keeps_links h h1)
      by now apply (keeps_links_insert h h1 a cd (set_parent (Some n) cd)).
    assert (Hn1 : exists nd1, nodes h1 !! n = Some nd1 /\ u nd1 = u nd
                              /\ type nd1 = type nd).
    { unfold h1. simpl. destruct (decide (a = n)) as [->|Hne].
      - rewrite lookup_insert_eq. exists (set_parent (Some n) cd).
        split; [done|]. simpl. split; congruence.
      - rewrite lookup_insert_ne by done. eauto. }
    destruct Hn1 as (nd1 & Hn1 & Hu1 & Ht1).
    destruct (Hg (u nd1)) as (x' & Hgx & Hfam' & Hcnt); [now rewrite Hu1|].
    set (h2 := with_nodes h1 (<[n := set_u x' nd1]> (nodes h1))).
    assert (Hk2 : keeps_links h1 h2)
      by now apply (keeps_links_insert h1 h2 n nd1 (set_u x' nd1)).
    assert (Hk : keeps_links h h2) by now apply (keeps_links_trans h h1 h2).
    destruct (Hk _ _ Hc) as (cd2 & Hc2 & Hnext).
    assert (Hn2 : nodes h2 !! n = Some (set_u x' nd1)).
    { unfold h2. simpl. apply lookup_insert_eq. }
    assert (Hcnt' : n_vargs_of x' = n_vargs_of (u nd) + 1).
    { rewrite Hcnt, Hu1. apply wrap_int_id. unfold in_int, INT_MIN, INT_MAX in *.
      simpl length in Hmax. lia. }
    destruct (IH fuel h2 (next cd) n (set_u x' nd1)) as (h' & nd' & Hrun & Hk' & Hn' & Hf' & Ht' & Hc').
    { now apply (siblings_keeps h h2). }
    { simpl in Hfuel. lia. }
    { done. }
    { done. }
    { simpl. lia. }
    { simpl. simpl length in Hmax. lia. }
    exists h', nd'. split.
    { cbn [node_foreach]. unfold bind at 1. unfold bind at 1.
      rewrite (update_node_run _ _ _ _ Hc). fold h1.
      rewrite (update_u_run _ _ _ _ _ Hn1 Hgx). fold h2.
      unfold bind at 1. rewrite (load_node_run _ _ _ Hc2), Hnext. exact Hrun. }
    split; [now apply (keeps_links_trans h h2 h')|].
    split; [done|]. split; [done|]. split; [simpl in Ht'; congruence|].
    rewrite Hc'. simpl. simpl length. lia.
Qed.

(** [node_new]: a node of the kind asked for at an address that was free. *)
Lemma node_new_run t h :
  exists a d h',
    node_new t h = (Ok (Some a), h')
    /\ nodes h !! a = None
    /\ nodes h' = <[a := mkNode t NULL NULL d NULL (u_zero t)]> (nodes h).
Proof.
  unfold node_new, bind at 1, alloc_node.
  set (a := fresh (dom (nodes h))).
  assert (Ha : nodes h !! a = None).
  { apply not_elem_of_dom. apply is_fresh. }
  destruct (decide (t <> TYPE_MAP /\ t <> TYPE_VAR)).
  - exists a. eexists. eexists. unfold bind, alloc_dyn, update_node, bind, load_node.
    simpl. rewrite lookup_insert_eq. simpl. split; [reflexivity|].
    split; [done|]. simpl. now rewrite insert_insert_eq.
  - exists a, NULL. eexists. unfold bind. simpl. split; [reflexivity|].
    split; [done|]. reflexivity.
Qed.

(** C7: built from a sibling chain of [length l] argument nodes,
    [length l] at most [INT_MAX], a call node and a record node carry
    [length l] as their count [n_vargs], and the chain is the argument list
    of the node, as long as it was; with no argument the count is 0. *)
Theorem n_vargs_is_length (h : heap) (fuel : nat) (module func vargs : ptr)
        (l : list addr) :
  siblings h vargs l ->
  (length l <= fuel)%nat ->
  Z.of_nat (length l) <= INT_MAX ->
  (exists n h' nd,
      node_call_new fuel module func vargs h = (Ok (Some n), h')
      /\ nodes h' !! n = Some nd
      /\ type nd = TYPE_CALL
      /\ u nd = u_call module vargs (Z.of_nat (length l))
      /\ siblings h' vargs l)
  /\ (exists n h' nd,
         node_rec_new fuel vargs h = (Ok (Some n), h')
         /\ nodes h' !! n = Some nd
         /\ type nd = TYPE_REC
         /\ u nd = u_rec vargs (Z.of_nat (length l))
         /\ siblings h' vargs l).
Proof.
  intros Hs Hfuel Hmax. split.
  - destruct (node_new_run TYPE_CALL h) as (a & d & h1 & Hnew & Hfree & Hn1).
    assert (H1 : nodes h1 !! a
                 = Some (mkNode TYPE_CALL NULL NULL d NULL (u_call NULL NULL 0))).
    { rewrite Hn1. apply lookup_insert_eq. }
    set (h2 := with_nodes h1
                 (<[a := set_string func
                           (mkNode TYPE_CALL NULL NULL d NULL (u_call NULL NULL 0))]>
                    (nodes h1))).
    assert (H2 : nodes h2 !! a
                 = Some (mkNode TYPE_CALL NULL NULL d func (u_call NULL NULL 0))).
    { unfold h2. simpl. apply lookup_insert_eq. }
    set (h3 := with_nodes h2
                 (<[a := set_u (u_call module vargs 0)
                           (mkNode TYPE_CALL NULL NULL d func (u_call NULL NULL 0))]>
                    (nodes h2))).
    assert (Hk3 : keeps_links h h3).
    { apply (keeps_links_trans h h1); [eapply keeps_links_fresh; eauto|].
      apply (keeps_links_trans h1 h2).
      - eapply keeps_links_insert; [exact H1 | | reflexivity]. reflexivity.
      - eapply keeps_links_insert; [exact H2 | | reflexivity]. reflexivity. }
    destruct (node_foreach_count (is_call module vargs)
                (fun x => match x with
                          | u_call m v k => Some (u_call m v (wrap_int (k + 1)))
                          | _ => None
                          end)) with (l := l) (fuel := fuel) (h := h3)
                (c := vargs) (n := a)
                (nd := mkNode TYPE_CALL NULL NULL d func (u_call module vargs 0))
      as (h' & nd' & Hrun & Hk' & Hn' & Hfam & Ht & Hcnt).
    { intros x [k ->]. eexists. split; [reflexivity|].
      split; [now exists (wrap_int (k + 1))|]. reflexivity. }
    { now apply (siblings_keeps h h3). }
    { done. }
    { unfold h3. simpl. apply lookup_insert_eq. }
    { now exists 0. }
    { simpl. lia. }
    { simpl. lia. }
    exists a, h', nd'. split.
    { unfold node_call_new. unfold bind at 1. rewrite Hnew.
      unfold bind at 1. rewrite (update_node_run _ _ _ _ H1). fold h2.
      unfold bind at 1. erewrite update_u_run; [| exact H2 | reflexivity].
      fold h3. unfold bind at 1. now rewrite Hrun. }
    split; [done|]. split; [done|]. split.
    { destruct Hfam as [k Hk]. rewrite Hk in Hcnt |- *. simpl in Hcnt. now subst k. }
    apply (siblings_keeps h3 h'); [done|]. now apply (siblings_keeps h h3).
  - destruct (node_new_run TYPE_REC h) as (a & d & h1 & Hnew & Hfree & Hn1).
    assert (H1 : nodes h1 !! a = Some (mkNode TYPE_REC NULL NULL d NULL (u_rec NULL 0))).
    { rewrite Hn1. apply lookup_insert_eq. }
    set (h2 := with_nodes h1 (<[a := set_u (u_rec vargs 0)
                                     (mkNode TYPE_REC NULL NULL d NULL (u_rec NULL 0))]>
                                (nodes h1))).
    assert (Hk2 : keeps_links h h2).
    { apply (keeps_links_trans h h1); [eapply keeps_links_fresh; eauto|].
      eapply keeps_links_insert; [exact H1 | | reflexivity]. reflexivity. }
    destruct (node_foreach_count (is_rec vargs)
                (fun x => match x with
                          | u_rec v k => Some (u_rec v (wrap_int (k + 1)))
                          | _ => None
                          end)) with (l := l) (fuel := fuel) (h := h2)
                (c := vargs) (n := a)
                (nd := mkNode TYPE_REC NULL NULL d NULL (u_rec vargs 0))
      as (h' & nd' & Hrun & Hk' & Hn' & Hfam & Ht & Hcnt).
    { intros x [k ->]. eexists. split; [reflexivity|]. split; [now exists (wrap_int (k + 1))|].
      reflexivity. }
    { now apply (siblings_keeps h h2). }
    { done. }
    { unfold h2. simpl. apply lookup_insert_eq. }
    { now exists 0. }
    { simpl. lia. }
    { simpl. lia. }
    exists a, h', nd'. split.
    { unfold node_rec_new. unfold bind at 1. rewrite Hnew.
      unfold bind at 1. erewrite update_u_run; [| exact H1 | reflexivity].
      fold h2. unfold bind at 1. now rewrite Hrun. }
    split; [done|]. split; [done|]. split.
    { destruct Hfam as [k Hk]. rewrite Hk in Hcnt |- *. simpl in Hcnt. now subst k. }
    apply (siblings_keeps h2 h'); [done|]. now apply (siblings_keeps h h2).
Qed.

(** ** Ancestor queries: the enclosing statement *)

Lemma ancestor_step h k n nd p :
  nodes h !! n = Some nd -> parent nd = Some p ->
  ancestor h (S k) n = ancestor h k p.
Proof. intros Hn Hp. simpl. rewrite Hn. simpl. now rewrite Hp. Qed.

Lemma ancestor_S_inv h k n s :
  ancestor h (S k) n = Some s ->
  exists nd p, nodes h !! n = Some nd /\ parent nd = Some p
               /\ ancestor h k p = Some s.
Proof.
  simpl. destruct (nodes h !! n) as [nd|]; [|discriminate]. simpl.
  destruct (parent nd) as [p|] eqn:Hp; [|discriminate]. simpl. eauto.
Qed.

Lemma node_get_stmt_climb h k :
  forall n s sd fuel,
    ancestor h k n = Some s ->
    nodes h !! s = Some sd ->
    (forall j a, (1 <= j <= k)%nat -> ancestor h j n = Some a ->
                 node_type h a <> Some TYPE_PROBE) ->
    (k <= fuel)%nat ->
    node_get_stmt fuel (Some n) h
    = match parent sd with
      | Some p =>
          match nodes h !! p with
          | Some pd =>
              if decide (type pd = TYPE_PROBE) then (Ok (Some s), h)
              else match (fuel - k)%nat with
                   | O => (Timeout, h)
                   | S f => node_get_stmt f (Some p) h
                   end
          | None => (Fault, h)
          end
      | None => (Fault, h)
      end.
Proof.
  induction k as [|k IH]; intros n s sd fuel Ha Hs Hnp Hfuel.
  - injection Ha as ->. rewrite Nat.sub_0_r.
    destruct fuel; simpl; unfold bind, load_node; rewrite Hs;
      destruct (parent sd) as [p|]; try done;
      destruct (nodes h !! p) as [pd|]; try done;
      destruct (decide (type pd = TYPE_PROBE)); done.
  - destruct (ancestor_S_inv _ _ _ _ Ha) as (nd & p & Hn & Hp & Ha').
    assert (Hpd : exists pd, nodes h !! p = Some pd).
    { destruct k; simpl in Ha'.
      - injection Ha' as ->. eauto.
      - destruct (nodes h !! p); [eauto | discriminate]. }
    destruct Hpd as [pd Hpd].
    assert (Hne : type pd <> TYPE_PROBE).
    { intros E. apply (Hnp 1%nat p); [lia | |].
      - rewrite (ancestor_step h 0 n nd p Hn Hp). reflexivity.
      - unfold node_type. rewrite Hpd. simpl. now rewrite E. }
    destruct fuel as [|fuel]; [lia|].
    cbn [node_get_stmt]. unfold bind at 1. rewrite (load_node_run _ _ _ Hn).
    unfold bind at 1. rewrite Hp, (load_node_run _ _ _ Hpd).
    destruct (decide (type pd = TYPE_PROBE)); [done|].
    rewrite (IH p s sd fuel Ha' Hs); [reflexivity| |lia].
    intros j a Hj Haj. apply (Hnp (S j) a); [lia|].
    now rewrite (ancestor_step h j n nd p Hn Hp).
Qed.

(** [node_get_parent_of_type] returns the nearest node of the kind asked
    for on the chain of parents, the node itself included. *)
Lemma node_get_parent_of_type_climb h t k :
  forall n p fuel,
    ancestor h k n = Some p ->
    node_type h p = Some t ->
    (forall j a, (j < k)%nat -> ancestor h j n = Some a ->
                 node_type h a <> Some t) ->
    (k <= fuel)%nat ->
    node_get_parent_of_type fuel t (Some n) h = (Ok (Some p), h).
Proof.
  induction k as [|k IH]; intros n p fuel Ha Hp Hnt Hfuel.
  - injection Ha as ->. unfold node_type in Hp.
    destruct (nodes h !! p) as [pd|] eqn:Hpd; [|discriminate].
    injection Hp as Hp.
    destruct fuel; simpl; unfold bind; rewrite (load_node_run _ _ _ Hpd);
      now destruct (decide (type pd = t)).
  - destruct (ancestor_S_inv _ _ _ _ Ha) as (nd & q & Hn & Hq & Ha').
    assert (Hne : type nd <> t).
    { intros E. apply (Hnt 0%nat n); [lia | reflexivity |].
      unfold node_type. rewrite Hn. simpl. now rewrite E. }
    destruct fuel as [|fuel]; [lia|].
    cbn [node_get_parent_of_type]. unfold bind.
    rewrite (load_node_run _ _ _ Hn).
    destruct (decide (type nd = t)); [done|]. rewrite Hq.
    apply IH; [done | done | | lia].
    intros j a Hj Haj. apply (Hnt (S j) a); [lia|].
    now rewrite (ancestor_step h j n nd q Hn Hq).
Qed.

(** The probe above the statement [node_get_stmt] returns is the probe
    [node_get_probe] returns on the same node, when the node is not itself
    a probe. *)
Lemma node_get_stmt_probe h n s sd p k fuel :
  ancestor h k n = Some s ->
  nodes h !! s = Some sd ->
  parent sd = Some p ->
  node_type h p = Some TYPE_PROBE ->
  (forall j a, (j <= k)%nat -> ancestor h j n = Some a ->
               node_type h a <> Some TYPE_PROBE) ->
  (S k <= fuel)%nat ->
  node_get_stmt fuel (Some n) h = (Ok (Some s), h)
  /\ node_get_probe fuel (Some n) h = (Ok (Some p), h).
Proof.
  intros Ha Hs Hpar Hp Hnp Hfuel. split.
  - rewrite (node_get_stmt_climb h k n s sd fuel Ha Hs); [| |lia].
    + rewrite Hpar. unfold node_type in Hp.
      destruct (nodes h !! p) as [pd|]; [|discriminate]. simpl in Hp.
      injection Hp as Hp. now destruct (decide (type pd = TYPE_PROBE)).
    + intros j a Hj. apply Hnp. lia.
  - apply (node_get_parent_of_type_climb h TYPE_PROBE (S k)); [|done| |done].
    + clear Hnp Hfuel. revert n Ha. induction k as [|k IH]; intros n Ha.
      * injection Ha as ->. simpl. rewrite Hs. simpl. now rewrite Hpar.
      * destruct (ancestor_S_inv _ _ _ _ Ha) as (nd & q & Hn & Hq & Ha').
        rewrite (ancestor_step h (S k) n nd q Hn Hq). now apply IH.
    + intros j a Hj. apply Hnp. lia.
Qed.

(** C8: let [s] be the node reached from [n] by [k] parent links, no node
    passed on the way up to and including [s] being a probe ([n] itself
    apart).  If the parent of [s] is a probe, that is, if [n] lies in the
    subtree of that probe, [node_get_stmt n] returns [s], the ancestor of
    [n], or [n] itself, whose own parent is the probe.  If [s] has no
    parent, that is, if [n] is not inside a probe, the function
    dereferences NULL. *)
Theorem node_get_stmt_spec (h : heap) (n s : addr) (sd : node_t)
        (k fuel : nat) :
  ancestor h k n = Some s ->
  nodes h !! s = Some sd ->
  (forall j a, (1 <= j <= k)%nat -> ancestor h j n = Some a ->
               node_type h a <> Some TYPE_PROBE) ->
  (k <= fuel)%nat ->
  (forall p, parent sd = Some p -> node_type h p = Some TYPE_PROBE ->
             node_get_stmt fuel (Some n) h = (Ok (Some s), h))
  /\ (parent sd = NULL -> node_get_stmt fuel (Some n) h = (Fault, h)).
Proof.
  intros Ha Hs Hnp Hfuel.
  rewrite (node_get_stmt_climb h k n s sd fuel Ha Hs Hnp Hfuel). split.
  - intros p -> Hp. unfold node_type in Hp.
    destruct (nodes h !! p) as [pd|]; [|discriminate]. simpl in Hp.
    injection Hp as Hp. now destruct (decide (type pd = TYPE_PROBE)).
  - now intros ->.
Qed.

(** ** The properties at the example inputs *)

Import Examples.

(** Four requests on a fresh probe: the three registers, then the
    sentinel. *)
Example reg_get_run :
  fst (calls (node_probe_reg_get the_probe) [1; 0; 1; 0] probe_heap)
  = Ok [6; 7; 8; -1].
Proof. vm_compute. reflexivity. Qed.

Lemma reg_get_exclusive_witness :
  exists rs h',
    calls (node_probe_reg_get the_probe) [1; 0; 1; 0] probe_heap = (Ok rs, h')
    /\ length rs = length [1; 0; 1; 0]
    /\ (forall i j r,
           rs !! i = Some r -> rs !! j = Some r -> r <> -1 -> i = j)
    /\ (forall i j ci cj r,
           [1; 0; 1; 0] !! i = Some ci -> [1; 0; 1; 0] !! j = Some cj ->
           is_dynamic ci <> is_dynamic cj ->
           rs !! i = Some r -> rs !! j = Some r -> r = -1).
Proof.
  apply (reg_get_exclusive probe_heap the_probe [1; 0; 1; 0]).
  vm_compute. reflexivity.
Defined.

Lemma reg_get_exhausted_witness :
  calls (node_probe_reg_get the_probe) [1; 0]
        (snd (calls (node_probe_reg_get the_probe) [0; 1; 1] probe_heap))
  = (Ok (replicate (length [1; 0]) (-1)),
     snd (calls (node_probe_reg_get the_probe) [0; 1; 1] probe_heap)).
Proof.
  apply (reg_get_exhausted probe_heap the_probe [0; 1; 1] [6; 7; 8]).
  - vm_compute. reflexivity.
  - vm_compute. reflexivity.
  - set_solver.
  - set_solver.
  - set_solver.
Defined.

(** C3 as stated fails: a request of size 0 returns the offset of the
    request before it, so the offsets do not decrease strictly (and the gap
    is not the size 8 requested before); a request of more than [2 ^ 63]
    bytes returns an offset above the one before it. *)
Lemma stack_get_not_decreasing :
  (exists o1 o2 h',
      calls (node_probe_stack_get the_probe) [8; 0] probe_heap
      = (Ok [o1; o2], h')
      /\ ~ o2 < o1 /\ o1 - o2 <> 8)
  /\ (exists o1 o2 h',
         calls (node_probe_stack_get the_probe) [8; 2 ^ 64 - 8] probe_heap
         = (Ok [o1; o2], h')
         /\ ~ o2 < o1).
Proof.
  split.
  - exists (-8), (-8). eexists. split; [vm_compute; reflexivity|]. lia.
  - exists (-8), 0. eexists. split; [vm_compute; reflexivity|]. lia.
Qed.

Lemma stack_get_offsets_witness :
  exists offs h',
    calls (node_probe_stack_get the_probe) [8; 16; 4] probe_heap = (Ok offs, h')
    /\ offs = [-8; -24; -28]
    /\ length offs = 3%nat
    /\ (forall o s, offs !! 0%nat = Some o -> [8; 16; 4] !! 0%nat = Some s ->
                    0 - o = s)
    /\ (forall i o o' s,
           offs !! i = Some o -> offs !! S i = Some o' ->
           [8; 16; 4] !! S i = Some s -> o - o' = s /\ o' <= o)
    /\ (Forall (fun s => 0 < s) [8; 16; 4] ->
        forall i j o o',
          (i < j)%nat -> offs !! i = Some o -> offs !! j = Some o' -> o' < o).
Proof.
  apply (stack_get_offsets probe_heap the_probe
           (mkDyn TYPE_NONE 0 LOC_NOWHERE 0 0 full_regs full_regs 0 NULL)
           [8; 16; 4]).
  - vm_compute. reflexivity.
  - repeat constructor; vm_compute; discriminate.
  - repeat constructor; vm_compute; discriminate.
Defined.

Lemma stack_get_total_witness :
  exists r h',
    node_probe_stack_get the_probe 0 probe_heap = (Ok r, h')
    /\ r = wrap_ssize (0 - 0)
    /\ probe_dyn h' the_probe
       = Some (set_probe_sp r
                 (mkDyn TYPE_NONE 0 LOC_NOWHERE 0 0 full_regs full_regs 0 NULL))
    /\ (SSIZE_MIN <= 0 - 0 -> r = 0 - 0)
    /\ (0 = 0 -> r = 0).
Proof.
  apply (stack_get_total probe_heap the_probe
           (mkDyn TYPE_NONE 0 LOC_NOWHERE 0 0 full_regs full_regs 0 NULL) 0).
  - vm_compute. reflexivity.
  - vm_compute. split; discriminate.
  - vm_compute. split; discriminate.
Defined.

(** A walk of the [if] statement whose [pre] callback gives up with status
    7 on the first integer literal: the literal [1] of the condition is the
    last node visited, and 7 is the result. *)
Lemma walk_abort_witness :
  [] = ([] : list event)
  /\ fst (node_walk 20 (n_if (the_if gt_op))
            (observe Pre <$> Some (stop_at TYPE_INT 7))
            (observe Post <$> Some (stop_at TYPE_STR 5))
            (if_heap gt_op, (tt, [])))
     = Ok (ev_status (Pre, n_1 (the_if gt_op), 7)).
Proof.
  apply (walk_abort (Some (stop_at TYPE_INT 7)) (Some (stop_at TYPE_STR 5)) 20
           (n_if (the_if gt_op)) (if_heap gt_op, (tt, []))
           (snd (node_walk 20 (n_if (the_if gt_op))
                   (observe Pre <$> Some (stop_at TYPE_INT 7))
                   (observe Post <$> Some (stop_at TYPE_STR 5))
                   (if_heap gt_op, (tt, []))))
           _
           [(Pre, n_if (the_if gt_op), 0); (Pre, n_gt (the_if gt_op), 0);
            (Pre, n_a (the_if gt_op), 0); (Post, n_a (the_if gt_op), 0)]
           []
           (Pre, n_1 (the_if gt_op), 7)).
  - apply surjective_pairing.
  - vm_compute. reflexivity.
  - vm_compute. discriminate.
Defined.

(** A walk of a node of kind [TYPE_NONE] with a counting [pre] callback
    and a [post] callback that would stop the walk with status 5. *)
Lemma walk_type_none_witness :
  node_walk 1 (Some 1%positive) (Some count_cb)
            (Some (fun n w => (Ok 5, w))) (none_heap, 0)
  = (Ok (-1), (none_heap, 1)).
Proof.
  apply (walk_type_none (Some count_cb) (Some (fun n w => (Ok 5, w))) 0
           1%positive (mkNode TYPE_NONE NULL NULL (Some 1%positive) NULL u_none)
           (none_heap, 0) (none_heap, 1)).
  - vm_compute. reflexivity.
  - vm_compute. reflexivity.
  - reflexivity.
Defined.

(** C4 as stated fails: the walk of the tree of the example visits ten
    nodes, not eight. *)
Lemma if_walk_not_eight :
  exists count h',
    new_if gt_op heap_empty = (Ok (the_if gt_op), if_heap gt_op)
    /\ node_walk 20 (n_if (the_if gt_op)) (Some count_cb) None
                 (if_heap gt_op, 0)
       = (Ok 0, (h', count))
    /\ count <> 8.
Proof.
  exists 10. eexists. split; [vm_compute; reflexivity|].
  split; [vm_compute; reflexivity|]. lia.
Qed.

(** An assignment cannot be built without its left-hand side, which is a
    node of its own: [node_assign_new] writes to the parent link of
    [lval]. *)
Lemma node_assign_new_null_lval (expr : ptr) (h : heap) :
  fst (node_assign_new NULL expr h) = Fault.
Proof.
  destruct (node_new_run TYPE_ASSIGN h) as (a & d & h1 & Hnew & _ & Hn1).
  assert (H1 : nodes h1 !! a
               = Some (mkNode TYPE_ASSIGN NULL NULL d NULL (u_assign NULL NULL))).
  { rewrite Hn1. apply lookup_insert_eq. }
  unfold node_assign_new. unfold bind at 1. rewrite Hnew.
  unfold bind at 1. unfold strdup at 1.
  unfold bind at 1. erewrite update_node_run; [|exact H1].
  unfold bind at 1. erewrite update_u_run;
    [| simpl; apply lookup_insert_eq | reflexivity].
  reflexivity.
Qed.

(** C4 (amended): the tree of [if (a > 1) { x = 2; } else { x = 3; }] built
    by the constructors has ten nodes, an assignment being three nodes (the
    assignment, the variable assigned to and the literal).  A walk with a
    counting [pre] callback counts 10 and visits, in this order: the [if],
    the condition ([>], [a], [1]), the assignment of the then branch, its
    variable and its literal, the assignment of the else branch, its
    variable and its literal. *)
Theorem if_walk_ten (gt : op_t) (fuel : nat) :
  (4 <= fuel)%nat ->
  let ns := the_if gt in
  new_if gt heap_empty = (Ok ns, if_heap gt)
  /\ node_walk fuel (n_if ns) (Some count_cb) None (if_heap gt, 0)
     = (Ok 0, (if_heap gt, 10))
  /\ (exists log,
         node_walk fuel (n_if ns) (observe Pre <$> Some count_cb) None
                   (if_heap gt, (0, []))
         = (Ok 0, (if_heap gt, (10, log)))
         /\ visited log
            = [n_if ns; n_gt ns; n_a ns; n_1 ns;
               n_then ns; n_x2 ns; n_2 ns;
               n_else ns; n_x3 ns; n_3 ns]
         /\ Forall (fun e => fst (fst e) = Pre) log)
  /\ List.map (fun p => a ← p; node_type (if_heap gt) a)
              [n_if ns; n_gt ns; n_a ns; n_1 ns;
               n_then ns; n_x2 ns; n_2 ns;
               n_else ns; n_x3 ns; n_3 ns]
     = [Some TYPE_IF; Some TYPE_BINOP; Some TYPE_VAR; Some TYPE_INT;
        Some TYPE_ASSIGN; Some TYPE_VAR; Some TYPE_INT;
        Some TYPE_ASSIGN; Some TYPE_VAR; Some TYPE_INT].
Proof.
  intros Hfuel ns.
  split; [vm_compute; reflexivity|].
  split.
  { apply (walk_fuel_le _ _ 4 fuel); [done | vm_compute; reflexivity | done]. }
  split; [|vm_compute; reflexivity].
  eexists. split.
  { apply (walk_fuel_le _ _ 4 fuel); [done | vm_compute; reflexivity | done]. }
  split; [vm_compute; reflexivity|]. repeat constructor.
Qed.

Lemma if_walk_ten_witness :
  node_walk 4 (n_if (the_if gt_op)) (Some count_cb) None (if_heap gt_op, 0)
  = (Ok 0, (if_heap gt_op, 10)).
Proof.
  destruct (if_walk_ten gt_op 4 ltac:(lia)) as (_ & H & _). exact H.
Defined.

(** C6 fails on [x = 2;] in a probe of a script: after [node_free] every
    node is freed, every annotation owned by a node is freed and the
    annotation of the symbol table is not, the strings of the probe and of
    the assignment are freed, but the name of the variable, which
    [node_var_new] took, is still allocated. *)
Theorem node_free_leaks_var_name (fuel : nat) :
  (6 <= fuel)%nat ->
  exists shared name,
    new_script heap_empty = (Ok the_script, script_heap)
    /\ s_shared the_script = Some shared
    /\ s_name the_script = Some name
    /\ strs script_heap !! name = Some "x"%string
    /\ node_free fuel (s_script the_script) (script_heap, tt)
       = (Ok tt, (mkHeap ∅ {[shared := dyn_zero]} {[name := "x"%string]}, tt)).
Proof.
  intros Hfuel. exists 1%positive, 1%positive.
  split; [vm_compute; reflexivity|].
  split; [vm_compute; reflexivity|].
  split; [vm_compute; reflexivity|].
  split; [vm_compute; reflexivity|].
  unfold node_free, bind.
  rewrite (walk_fuel_le None (Some _node_free) 6 fuel (s_script the_script)
             (script_heap, tt) (Ok 0)
             (mkHeap ∅ {[1%positive := dyn_zero]} {[1%positive := "x"%string]}, tt));
    [reflexivity | done | vm_compute; reflexivity | done].
Qed.

Lemma node_free_leaks_var_name_witness :
  exists shared name,
    new_script heap_empty = (Ok the_script, script_heap)
    /\ s_shared the_script = Some shared
    /\ s_name the_script = Some name
    /\ strs script_heap !! name = Some "x"%string
    /\ node_free 6 (s_script the_script) (script_heap, tt)
       = (Ok tt, (mkHeap ∅ {[shared := dyn_zero]} {[name := "x"%string]}, tt)).
Proof. apply (node_free_leaks_var_name 6). lia. Defined.

(** The same script with a map in the place of the variable: the name of
    the map, which [node_map_new] took, is freed with the other strings. *)
Example node_free_frees_map_name :
  exists shared name,
    new_map_script heap_empty = (Ok the_map_script, map_script_heap)
    /\ s_shared the_map_script = Some shared
    /\ s_name the_map_script = Some name
    /\ strs map_script_heap !! name = Some "m"%string
    /\ node_free 20 (s_script the_map_script) (map_script_heap, tt)
       = (Ok tt, (mkHeap ∅ {[shared := dyn_zero]} ∅, tt)).
Proof.
  exists 3%positive, 1%positive.
  split; [vm_compute; reflexivity|].
  split; [vm_compute; reflexivity|].
  split; [vm_compute; reflexivity|].
  split; [vm_compute; reflexivity|].
  vm_compute. reflexivity.
Qed.

(** A call and a record built from the two sibling arguments [1, 2]. *)
Lemma n_vargs_is_length_witness :
  (exists n h' nd,
      node_call_new 2 NULL NULL the_args args_heap = (Ok (Some n), h')
      /\ nodes h' !! n = Some nd
      /\ type nd = TYPE_CALL
      /\ u nd = u_call NULL the_args (Z.of_nat (length [1; 2]%positive))
      /\ siblings h' the_args [1; 2]%positive)
  /\ (exists n h' nd,
         node_rec_new 2 the_args args_heap = (Ok (Some n), h')
         /\ nodes h' !! n = Some nd
         /\ type nd = TYPE_REC
         /\ u nd = u_rec the_args (Z.of_nat (length [1; 2]%positive))
         /\ siblings h' the_args [1; 2]%positive).
Proof.
  apply (n_vargs_is_length args_heap 2 NULL NULL the_args [1; 2]%positive).
  - simpl. split; [reflexivity|].
    exists (node_at args_heap 1). split; [vm_compute; reflexivity|].
    split; [vm_compute; reflexivity|].
    exists (node_at args_heap 2). split; [vm_compute; reflexivity|].
    vm_compute. reflexivity.
  - simpl. lia.
  - vm_compute. discriminate.
Defined.

(** In the script [x = 2;]: the statement of the literal [2] is the
    assignment, whose parent is the probe; the probe itself is not inside
    a probe, and the query on it dereferences the NULL parent of the
    script. *)
Lemma node_get_stmt_spec_witness :
  node_get_stmt 1 (s_2 the_script) script_heap
  = (Ok (s_assign the_script), script_heap)
  /\ node_get_stmt 1 (s_probe the_script) script_heap = (Fault, script_heap).
Proof.
  split.
  - apply (proj1 (node_get_stmt_spec script_heap 2 3 (node_at script_heap 3) 1 1
                    ltac:(vm_compute; reflexivity)
                    ltac:(vm_compute; reflexivity)
                    ltac:(intros j a Hj; assert (j = 1%nat) as -> by lia;
                          vm_compute; intros [= <-]; discriminate)
                    ltac:(lia))
             4%positive).
    + vm_compute. reflexivity.
    + vm_compute. reflexivity.
  - apply (proj2 (node_get_stmt_spec script_heap 4 5 (node_at script_heap 5) 1 1
                    ltac:(vm_compute; reflexivity)
                    ltac:(vm_compute; reflexivity)
                    ltac:(intros j a Hj; assert (j = 1%nat) as -> by lia;
                          vm_compute; intros [= <-]; discriminate)
                    ltac:(lia))).
    vm_compute. reflexivity.
Defined.

(** * Further properties *)

(** ** The register allocator: order, failure, effect *)

Lemma reg_scan_first n reg pool compl r :
  0 <= reg ->
  reg_scan n reg pool compl = Some r ->
  forall x, reg <= x < r -> Z.testbit pool x && Z.testbit compl x = false.
Proof.
  revert reg. induction n as [|n IH]; intros reg Hreg; simpl; [discriminate|].
  destruct (reg_free pool compl reg) eqn:Hf.
  - intros [= <-] x Hx. lia.
  - intros H x Hx. destruct (Z.eq_dec x reg) as [->|Hne].
    + now rewrite <- reg_free_spec by lia.
    + apply (IH (reg + 1)); [lia | done | lia].
Qed.

Lemma regs_avail_pool d dynamic x :
  Z.testbit (regs_load (pool_of dynamic) d) x
  && Z.testbit (regs_load (compl_of dynamic) d) x
  = reg_avail d x.
Proof.
  unfold pool_of, compl_of, reg_avail. destruct (dynamic =? 0); simpl;
    [apply andb_comm | reflexivity].
Qed.

(** The result of a call seen on the annotation: the lowest register of the
    file that is free, or the sentinel when none is. *)
Lemma reg_get_step_lowest d dynamic :
  let r := fst (reg_get_step d dynamic) in
  (r = -1 /\ forall x, BPF_REG_6 <= x < BPF_REG_9 -> reg_avail d x = false)
  \/ (BPF_REG_6 <= r < BPF_REG_9 /\ reg_avail d r = true
      /\ forall x, BPF_REG_6 <= x < r -> reg_avail d x = false).
Proof.
  unfold reg_get_step. fold (pool_of dynamic) (compl_of dynamic).
  destruct (reg_scan _ _ _ _) as [reg|] eqn:Hs; simpl.
  - right. pose proof (reg_scan_first _ BPF_REG_6 _ _ _ ltac:(unfold BPF_REG_6; lia) Hs)
      as Hfirst.
    apply reg_scan_some in Hs; [|unfold BPF_REG_6; lia].
    destruct Hs as (Hr & Hp & Hc). unfold BPF_REG_6, BPF_REG_9 in *.
    split; [lia|]. split.
    + now rewrite <- (regs_avail_pool d dynamic), Hp, Hc.
    + intros x Hx. rewrite <- (regs_avail_pool d dynamic). now apply Hfirst.
  - left. split; [done|]. intros x Hx.
    rewrite <- (regs_avail_pool d dynamic).
    apply (reg_scan_none _ BPF_REG_6 _ _ ltac:(unfold BPF_REG_6; lia) Hs).
    unfold BPF_REG_6, BPF_REG_9 in *. lia.
Qed.

(** X1: a register request fails exactly when no register of the file is
    free in both masks: on a probe whose annotation is allocated the call
    returns, and it returns the sentinel [-1] if and only if every register
    from [BPF_REG_6] up to [BPF_REG_9] is taken. *)
Theorem reg_get_fails_iff_exhausted (h : heap) (probe : ptr) (d : dyn_t)
        (dynamic : Z) :
  probe_dyn h probe = Some d ->
  exists r h',
    node_probe_reg_get probe dynamic h = (Ok r, h')
    /\ (r = -1 <->
        forall x, BPF_REG_6 <= x < BPF_REG_9 -> reg_avail d x = false).
Proof.
  intros Hd.
  destruct (node_probe_reg_get_run h probe d dynamic Hd) as (h' & Hrun & _).
  exists (fst (reg_get_step d dynamic)), h'. split; [done|].
  destruct (reg_get_step_lowest d dynamic) as [(Hr & Hnone)|(Hr & Hav & _)].
  - tauto.
  - split.
    + intros E. unfold BPF_REG_6 in Hr. lia.
    + intros Hnone. rewrite Hnone in Hav by done. discriminate.
Qed.

(** X2: a register request that succeeds returns the lowest-numbered
    register that is free in both masks, whatever the class asked for. *)
Theorem reg_get_lowest_free (h h' : heap) (probe : ptr) (d : dyn_t)
        (dynamic r : Z) :
  probe_dyn h probe = Some d ->
  node_probe_reg_get probe dynamic h = (Ok r, h') ->
  r <> -1 ->
  BPF_REG_6 <= r < BPF_REG_9
  /\ reg_avail d r = true
  /\ forall x, BPF_REG_6 <= x < r -> reg_avail d x = false.
Proof.
  intros Hd Hcall Hne.
  destruct (node_probe_reg_get_run h probe d dynamic Hd) as (h1 & Hrun & _).
  rewrite Hrun in Hcall. injection Hcall as <- <-.
  destruct (reg_get_step_lowest d dynamic) as [(Hr & _)|H]; [done | exact H].
Qed.

Lemma heap_with_dyns_id h da d :
  dyns h !! da = Some d -> with_dyns h (<[da := d]> (dyns h)) = h.
Proof. intros H. rewrite insert_id by done. now destruct h. Qed.

(** The store after a register request and after a stack request. *)
Lemma node_probe_reg_get_exact h a nd da d dynamic :
  nodes h !! a = Some nd -> dyn nd = Some da -> dyns h !! da = Some d ->
  node_probe_reg_get (Some a) dynamic h
  = (Ok (fst (reg_get_step d dynamic)),
     with_dyns h (<[da := snd (reg_get_step d dynamic)]> (dyns h))).
Proof.
  intros Hn Hda Hdd.
  unfold node_probe_reg_get, reg_get_step, bind, load_node, load_dyn, update_dyn.
  rewrite Hn, Hda. unfold bind, load_dyn. rewrite Hdd.
  destruct (reg_scan _ _ _ _) as [reg|] eqn:Hs; simpl.
  - unfold bind, load_dyn. rewrite Hdd. reflexivity.
  - now rewrite heap_with_dyns_id.
Qed.

Lemma node_probe_stack_get_exact h a nd da d size :
  nodes h !! a = Some nd -> dyn nd = Some da -> dyns h !! da = Some d ->
  node_probe_stack_get (Some a) size h
  = (Ok (wrap_ssize (probe_sp d - size)),
     with_dyns h
       (<[da := set_probe_sp (wrap_ssize (probe_sp d - size)) d]> (dyns h))).
Proof.
  intros Hn Hda Hdd.
  unfold node_probe_stack_get, bind, load_node, update_dyn.
  rewrite Hn, Hda. unfold bind, load_dyn. rewrite Hdd. simpl.
  now rewrite lookup_insert_eq.
Qed.

Lemma bit_of_shiftl_1 r i :
  0 <= r -> Z.testbit (Z.shiftl 1 r) i = (i =? r).
Proof.
  intros Hr. rewrite Z.shiftl_1_l, Z.pow2_bits_eqb by lia. apply Z.eqb_sym.
Qed.


Lemma reg_get_step_sp d dynamic v :
  reg_get_step (set_probe_sp v d) dynamic
  = (fst (reg_get_step d dynamic),
     set_probe_sp v (snd (reg_get_step d dynamic))).
Proof.
  unfold reg_get_step. destruct d as [t sz l rg ad dr sr sp pv].
  destruct (dynamic =? 0);
    cbn [regs_load set_probe_sp probe_dyn_regs probe_stat_regs];
    destruct (reg_scan _ _ _ _); reflexivity.
Qed.

Lemma reg_get_step_keeps_sp d dynamic :
  probe_sp (snd (reg_get_step d dynamic)) = probe_sp d.
Proof.
  unfold reg_get_step.
  destruct (reg_scan _ _ _ _); [|reflexivity].
  now destruct (dynamic =? 0).
Qed.

(** X4: the two allocators of a probe do not interfere: a register request
    followed by a stack request returns the same register and the same
    offset, and leaves the same store, as the stack request followed by
    the register request. *)
Theorem reg_stack_commute (h : heap) (probe : ptr) (dynamic size : Z) :
  probe_valid h probe = true ->
  (r <- node_probe_reg_get probe dynamic ;;
   o <- node_probe_stack_get probe size ;;
   ret (r, o)) h
  = (o <- node_probe_stack_get probe size ;;
     r <- node_probe_reg_get probe dynamic ;;
     ret (r, o)) h.
Proof.
  intros Hv. destruct (probe_valid_dyn _ _ Hv) as [d Hd].
  destruct (probe_dyn_inv _ _ _ Hd) as (a & nd & da & -> & Hn & Hda & Hdd).
  set (r0 := fst (reg_get_step d dynamic)).
  set (o0 := wrap_ssize (probe_sp d - size)).
  set (hf := with_dyns h
               (<[da := set_probe_sp o0 (snd (reg_get_step d dynamic))]> (dyns h))).
  transitivity (Ok (r0, o0), hf).
  - unfold bind at 1.
    rewrite (node_probe_reg_get_exact h a nd da d dynamic Hn Hda Hdd).
    unfold bind at 1.
    erewrite node_probe_stack_get_exact;
      [| exact Hn | exact Hda | simpl; apply lookup_insert_eq].
    unfold ret, hf, o0, r0. simpl.
    now rewrite reg_get_step_keeps_sp, insert_insert_eq.
  - symmetry. unfold bind at 1.
    rewrite (node_probe_stack_get_exact h a nd da d size Hn Hda Hdd).
    unfold bind at 1.
    erewrite node_probe_reg_get_exact;
      [| exact Hn | exact Hda | simpl; apply lookup_insert_eq].
    unfold ret, hf, o0, r0. simpl.
    now rewrite reg_get_step_sp, insert_insert_eq.
Qed.

(** X5: the regions handed out by a sequence of stack requests do not
    overlap: when no offset leaves the range of [ssize_t], the region of a
    later request, [o' .. o' + s'), ends at or below the offset of every
    earlier request, and every region ends at or below the stack pointer
    the sequence started from. *)
Theorem stack_regions_disjoint (h h' : heap) (probe : ptr) (d : dyn_t)
        (sizes offs : list Z) :
  probe_dyn h probe = Some d ->
  Forall in_size sizes ->
  Forall in_ssize (stack_offsets (probe_sp d) sizes) ->
  calls (node_probe_stack_get probe) sizes h = (Ok offs, h') ->
  (forall j o' s', offs !! j = Some o' -> sizes !! j = Some s' ->
                   o' + s' <= probe_sp d)
  /\ (forall i j o o' s',
         (i < j)%nat ->
         offs !! i = Some o -> offs !! j = Some o' -> sizes !! j = Some s' ->
         o' + s' <= o).
Proof.
  intros Hd Hsz Hr Hcalls.
  destruct (stack_get_calls h probe d sizes Hd Hr) as (h1 & Hcalls1).
  rewrite Hcalls1 in Hcalls. injection Hcalls as <- <-.
  clear Hcalls1 Hr Hd h h1. generalize (probe_sp d) as sp. clear d.
  assert (Hend : forall sizes, Forall in_size sizes ->
            forall sp j o' s', stack_offsets sp sizes !! j = Some o' ->
                               sizes !! j = Some s' -> o' + s' <= sp).
  { clear. induction sizes as [|s sizes IH]; intros Hsz sp j o' s';
      [discriminate|].
    apply Forall_cons in Hsz. destruct Hsz as [Hs Hsz]. unfold in_size in Hs.
    destruct j as [|j]; simpl.
    - intros [= <-] [= <-]. lia.
    - intros Ho Hs'. pose proof (IH Hsz _ _ _ _ Ho Hs'). lia. }
  intros sp. split; [now apply Hend|].
  revert sp. induction sizes as [|s sizes IH]; intros sp i j o o' s' Hij;
    [discriminate|].
  pose proof Hsz as Hall. apply Forall_cons in Hsz. destruct Hsz as [Hs Hsz].
  destruct j as [|j]; [lia|]. destruct i as [|i]; simpl.
  - intros [= <-] Ho' Hs'. now apply (Hend sizes Hsz (sp - s) j).
  - apply IH; [done | lia].
Qed.

Lemma reg_avail_after d dynamic y :
  fst (reg_get_step d dynamic) <> -1 -> 0 <= y ->
  reg_avail (snd (reg_get_step d dynamic)) y
  = reg_avail d y && negb (y =? fst (reg_get_step d dynamic)).
Proof.
  unfold reg_get_step.
  destruct (reg_scan _ _ _ _) as [reg|] eqn:Hs; simpl; [|done].
  intros _ Hy. apply reg_scan_some in Hs; [|unfold BPF_REG_6; lia].
  destruct Hs as (Hrange & _). unfold BPF_REG_6 in Hrange.
  unfold reg_avail. destruct (dynamic =? 0); simpl;
    rewrite clear_bit_spec, bit_of_shiftl_1 by lia;
    destruct (Z.testbit (probe_dyn_regs d) y),
             (Z.testbit (probe_stat_regs d) y), (y =? reg); reflexivity.
Qed.

(** One call takes the first of the free registers. *)
Lemma reg_get_step_free_regs d dynamic :
  match free_regs d with
  | [] => reg_get_step d dynamic = (-1, d)
  | r :: rest =>
      fst (reg_get_step d dynamic) = r
      /\ free_regs (snd (reg_get_step d dynamic)) = rest
  end.
Proof.
  pose proof (reg_get_step_lowest d dynamic) as Hlow.
  pose proof (reg_get_step_spec d dynamic) as Hspec.
  pose proof (reg_avail_after d dynamic) as Hafter.
  unfold free_regs.
  change (seqZ BPF_REG_6 (BPF_REG_9 - BPF_REG_6)) with [6; 7; 8].
  destruct (reg_get_step d dynamic) as [r d']. simpl in *.
  unfold BPF_REG_6, BPF_REG_9 in *.
  destruct Hlow as [(-> & Hnone)|(Hr & Hav & Hlow)].
  - rewrite !Hnone by lia. destruct Hspec as [(_ & -> & _)|(? & _)]; [done|lia].
  - assert (Hne : r <> -1) by lia.
    rewrite (Hafter 6), (Hafter 7), (Hafter 8) by (done || lia).
    assert (Hc : r = 6 \/ r = 7 \/ r = 8) by lia.
    destruct Hc as [Hc|[Hc|Hc]]; subst r; simpl.
    + rewrite Hav. simpl. split; [done|].
      now rewrite !andb_true_r.
    + rewrite (Hlow 6) by lia. rewrite Hav. simpl. split; [done|].
      now rewrite !andb_true_r.
    + rewrite (Hlow 6), (Hlow 7) by lia. rewrite Hav. simpl. now split.
Qed.

(** X6: a sequence of register requests hands out the free registers of
    the file in ascending order, whatever the classes asked for, and
    returns the sentinel from then on: the two classes draw on one file of
    at most three registers. *)
Theorem reg_get_sequence (h : heap) (probe : ptr) (d : dyn_t)
        (cls : list Z) :
  probe_dyn h probe = Some d ->
  exists h',
    calls (node_probe_reg_get probe) cls h
    = (Ok (take (length cls) (free_regs d)
           ++ replicate (length cls - length (free_regs d)) (-1)), h').
Proof.
  revert h d. induction cls as [|c cls IH]; intros h d Hd.
  - exists h. reflexivity.
  - destruct (node_probe_reg_get_run h probe d c Hd) as (h1 & Hrun & Hd1 & _).
    destruct (IH h1 _ Hd1) as (h' & Hcalls). exists h'.
    cbn [calls]. rewrite (bind_ok _ _ _ _ _ Hrun), (bind_ok _ _ _ _ _ Hcalls).
    unfold ret. f_equal. f_equal.
    pose proof (reg_get_step_free_regs d c) as Hfree.
    destruct (free_regs d) as [|r rest] eqn:Hfr.
    + rewrite Hfree. simpl. rewrite Hfr, take_nil. simpl.
      now rewrite Nat.sub_0_r.
    + destruct Hfree as [-> ->]. reflexivity.
Qed.

(** ** Ancestor queries: what they return *)

Lemma node_get_parent_of_type_root h t k :
  forall n r rd fuel,
    ancestor h k n = Some r ->
    nodes h !! r = Some rd ->
    parent rd = NULL ->
    (forall j a, (j <= k)%nat -> ancestor h j n = Some a ->
                 node_type h a <> Some t) ->
    (S k <= fuel)%nat ->
    node_get_parent_of_type fuel t (Some n) h = (Ok NULL, h).
Proof.
  induction k as [|k IH]; intros n r rd fuel Ha Hr Hroot Hnt Hfuel.
  - injection Ha as ->.
    assert (Hne : type rd <> t).
    { intros E. apply (Hnt 0%nat r); [lia | reflexivity |].
      unfold node_type. rewrite Hr. simpl. now rewrite E. }
    destruct fuel as [|fuel]; [lia|].
    cbn [node_get_parent_of_type]. unfold bind.
    rewrite (load_node_run _ _ _ Hr).
    destruct (decide (type rd = t)); [done|]. rewrite Hroot.
    now destruct fuel.
  - destruct (ancestor_S_inv _ _ _ _ Ha) as (nd & q & Hn & Hq & Ha').
    assert (Hne : type nd <> t).
    { intros E. apply (Hnt 0%nat n); [lia | reflexivity |].
      unfold node_type. rewrite Hn. simpl. now rewrite E. }
    destruct fuel as [|fuel]; [lia|].
    cbn [node_get_parent_of_type]. unfold bind.
    rewrite (load_node_run _ _ _ Hn).
    destruct (decide (type nd = t)); [done|]. rewrite Hq.
    apply (IH q r rd); [done | done | done | | lia].
    intros j a Hj Haj. apply (Hnt (S j) a); [lia|].
    now rewrite (ancestor_step h j n nd q Hn Hq).
Qed.

(** X7: [node_get_parent_of_type] returns the nearest node of the kind
    asked for on the chain of parents that starts at the node itself: if
    the node [k] parent links above [n] has kind [t] and none below it
    has, that node is the result; the store is not changed. *)
Theorem node_get_parent_of_type_nearest (h : heap) (t : type_t)
        (n p : addr) (k fuel : nat) :
  ancestor h k n = Some p ->
  node_type h p = Some t ->
  (forall j a, (j < k)%nat -> ancestor h j n = Some a ->
               node_type h a <> Some t) ->
  (k <= fuel)%nat ->
  node_get_parent_of_type fuel t (Some n) h = (Ok (Some p), h).
Proof. apply node_get_parent_of_type_climb. Qed.

(** X8: when the chain of parents of [n] ends at a root without passing a
    node of the kind asked for, [node_get_parent_of_type] returns NULL; it
    does not fault at the root, unlike [node_get_stmt]. *)
Theorem node_get_parent_of_type_none (h : heap) (t : type_t)
        (n r : addr) (rd : node_t) (k fuel : nat) :
  ancestor h k n = Some r ->
  nodes h !! r = Some rd ->
  parent rd = NULL ->
  (forall j a, (j <= k)%nat -> ancestor h j n = Some a ->
               node_type h a <> Some t) ->
  (S k <= fuel)%nat ->
  node_get_parent_of_type fuel t (Some n) h = (Ok NULL, h).
Proof. apply node_get_parent_of_type_root. Qed.

(** X9: whatever the store, a node that [node_get_parent_of_type] returns
    has the kind asked for, is reached from the argument by parent links,
    and is the nearest such node; a call that returns leaves the store as
    it was. *)
Theorem node_get_parent_of_type_sound (fuel : nat) (h h' : heap)
        (t : type_t) (n : ptr) (p : addr) :
  node_get_parent_of_type fuel t n h = (Ok (Some p), h') ->
  h' = h
  /\ node_type h p = Some t
  /\ exists a k,
      n = Some a /\ ancestor h k a = Some p
      /\ forall j q, (j < k)%nat -> ancestor h j a = Some q ->
                     node_type h q <> Some t.
Proof.
  revert n. induction fuel as [|fuel IH]; intros n.
  - destruct n as [a|]; simpl; [|discriminate]. unfold bind, load_node.
    destruct (nodes h !! a) as [nd|] eqn:Hn; [|discriminate].
    destruct (decide (type nd = t)) as [E|E]; [|discriminate].
    intros [= -> <-]. split; [done|]. split.
    { unfold node_type. rewrite Hn. simpl. now rewrite E. }
    exists p, 0%nat. split; [done|]. split; [done|]. intros j q Hj. lia.
  - destruct n as [a|]; cbn [node_get_parent_of_type]; [|discriminate].
    unfold bind at 1, load_node.
    destruct (nodes h !! a) as [nd|] eqn:Hn; [|discriminate].
    destruct (decide (type nd = t)) as [E|E].
    + intros [= -> <-]. split; [done|]. split.
      { unfold node_type. rewrite Hn. simpl. now rewrite E. }
      exists p, 0%nat. split; [done|]. split; [done|]. intros j q Hj. lia.
    + intros H. apply IH in H. destruct H as (-> & Ht & b & k & Hb & Hk & Hnear).
      split; [done|]. split; [done|].
      exists a, (S k). split; [done|]. split.
      { now rewrite (ancestor_step h k a nd b Hn Hb). }
      intros j q Hj Hq. destruct j as [|j].
      * injection Hq as <-. unfold node_type. rewrite Hn. simpl. congruence.
      * rewrite (ancestor_step h j a nd b Hn Hb) in Hq.
        apply (Hnear j q); [lia | done].
Qed.

(** X10: on a node other than NULL, [node_get_stmt] never returns NULL:
    whatever the store, a call that returns hands back a node that is
    reached from the argument by parent links and whose own parent is a
    probe, and leaves the store as it was. *)
Theorem node_get_stmt_sound (fuel : nat) (h h' : heap) (a : addr)
        (r : ptr) :
  node_get_stmt fuel (Some a) h = (Ok r, h') ->
  h' = h
  /\ exists s sd p k,
      r = Some s /\ ancestor h k a = Some s
      /\ nodes h !! s = Some sd /\ parent sd = Some p
      /\ node_type h p = Some TYPE_PROBE.
Proof.
  revert a. induction fuel as [|fuel IH]; intros a.
  - simpl. unfold bind, load_node.
    destruct (nodes h !! a) as [nd|] eqn:Hn; [|discriminate].
    destruct (parent nd) as [p|] eqn:Hp; [|discriminate].
    destruct (nodes h !! p) as [pd|] eqn:Hpd; [|discriminate].
    destruct (decide (type pd = TYPE_PROBE)) as [E|E]; [|discriminate].
    intros [= <- <-]. split; [done|].
    exists a, nd, p, 0%nat. repeat split; try done.
    unfold node_type. rewrite Hpd. simpl. now rewrite E.
  - cbn [node_get_stmt]. unfold bind, load_node.
    destruct (nodes h !! a) as [nd|] eqn:Hn; [|discriminate].
    destruct (parent nd) as [p|] eqn:Hp; [|discriminate].
    destruct (nodes h !! p) as [pd|] eqn:Hpd; [|discriminate].
    destruct (decide (type pd = TYPE_PROBE)) as [E|E].
    + intros [= <- <-]. split; [done|].
      exists a, nd, p, 0%nat. repeat split; try done.
      unfold node_type. rewrite Hpd. simpl. now rewrite E.
    + intros H. apply IH in H.
      destruct H as (-> & s & sd & q & k & -> & Hk & Hs & Hq & Ht).
      split; [done|]. exists s, sd, q, (S k). repeat split; try done.
      now rewrite (ancestor_step h k a nd p Hn Hp).
Qed.

(** X11: [node_get_pvdr] reads the provider from the annotation of the
    nearest probe on the chain of parents of [n], [n] included, and returns
    NULL, without touching any annotation, when the chain ends at a root
    that is not a probe. *)
Theorem node_get_pvdr_spec (h : heap) (n s : addr) (sd : node_t)
        (k fuel : nat) :
  ancestor h k n = Some s ->
  nodes h !! s = Some sd ->
  (forall j a, (j < k)%nat -> ancestor h j n = Some a ->
               node_type h a <> Some TYPE_PROBE) ->
  (S k <= fuel)%nat ->
  (type sd = TYPE_PROBE ->
   forall da d, dyn sd = Some da -> dyns h !! da = Some d ->
                node_get_pvdr fuel (Some n) h = (Ok (probe_pvdr d), h))
  /\ (type sd <> TYPE_PROBE -> parent sd = NULL ->
      node_get_pvdr fuel (Some n) h = (Ok NULL, h)).
Proof.
  intros Ha Hs Hnp Hfuel. split.
  - intros Ht da d Hda Hd. unfold node_get_pvdr, node_get_probe, bind.
    rewrite (node_get_parent_of_type_climb h TYPE_PROBE k n s fuel);
      [| done | unfold node_type; rewrite Hs; simpl; now rewrite Ht
       | done | lia].
    rewrite (load_node_run _ _ _ Hs). unfold load_dyn. now rewrite Hda, Hd.
  - intros Ht Hroot. unfold node_get_pvdr, node_get_probe, bind.
    rewrite (node_get_parent_of_type_root h TYPE_PROBE k n s sd fuel);
      [reflexivity | done | done | done | | done].
    intros j a Hj Haj. destruct (decide (j = k)) as [->|Hne].
    + rewrite Ha in Haj. injection Haj as <-. unfold node_type.
      rewrite Hs. simpl. congruence.
    + apply (Hnp j a); [lia | done].
Qed.

(** X27: the two queries agree: when [node_get_stmt] returns a statement
    for a node that is not itself a probe, [node_get_probe] on the same
    node returns the parent of that statement. *)
Theorem node_get_probe_of_stmt (fuel : nat) (h h' : heap) (a s : addr)
        (nd : node_t) :
  nodes h !! a = Some nd ->
  type nd <> TYPE_PROBE ->
  node_get_stmt fuel (Some a) h = (Ok (Some s), h') ->
  exists sd p,
    nodes h !! s = Some sd /\ parent sd = Some p
    /\ node_get_probe (S fuel) (Some a) h = (Ok (Some p), h).
Proof.
  revert a nd. induction fuel as [|fuel IH]; intros a nd Hn Hnp.
  - simpl. unfold bind. rewrite (load_node_run _ _ _ Hn). unfold load_node.
    destruct (parent nd) as [p|] eqn:Hp; [|discriminate].
    destruct (nodes h !! p) as [pd|] eqn:Hpd; [|discriminate].
    destruct (decide (type pd = TYPE_PROBE)) as [E|E]; [|discriminate].
    intros [= <- <-]. exists nd, p. split; [done|]. split; [done|].
    unfold node_get_probe. cbn [node_get_parent_of_type]. unfold bind.
    rewrite (load_node_run _ _ _ Hn).
    destruct (decide (type nd = TYPE_PROBE)); [done|]. rewrite Hp.
    rewrite (load_node_run _ _ _ Hpd).
    now destruct (decide (type pd = TYPE_PROBE)).
  - cbn [node_get_stmt]. unfold bind at 1. rewrite (load_node_run _ _ _ Hn).
    unfold bind at 1. unfold load_node at 1.
    destruct (parent nd) as [p|] eqn:Hp; [|discriminate].
    destruct (nodes h !! p) as [pd|] eqn:Hpd; [|discriminate].
    destruct (decide (type pd = TYPE_PROBE)) as [E|E].
    + intros [= <- <-]. exists nd, p. split; [done|]. split; [done|].
      unfold node_get_probe. cbn [node_get_parent_of_type]. unfold bind.
      rewrite (load_node_run _ _ _ Hn).
      destruct (decide (type nd = TYPE_PROBE)); [done|]. rewrite Hp.
      rewrite (load_node_run _ _ _ Hpd).
      now destruct (decide (type pd = TYPE_PROBE)).
    + intros H. destruct (IH p pd Hpd E H) as (sd & q & Hs & Hq & Hrun).
      exists sd, q. split; [done|]. split; [done|].
      unfold node_get_probe in *.
      change (node_get_parent_of_type (S (S fuel)) TYPE_PROBE (Some a) h)
        with ((x <- load_node (Some a) ;;
               if decide (type x = TYPE_PROBE) then ret (Some a)
               else node_get_parent_of_type (S fuel) TYPE_PROBE (parent x)) h).
      unfold bind at 1. rewrite (load_node_run _ _ _ Hn).
      destruct (decide (type nd = TYPE_PROBE)); [done|]. now rewrite Hp.
Qed.

(** ** The walker: what it does on its own *)

Section WalkKeeps.

Context {C : Type} (R : heap * C -> heap * C -> Prop).
Context (R_refl : forall w, R w w).
Context (R_trans : forall w1 w2 w3, R w1 w2 -> R w2 w3 -> R w1 w3).

Lemma keeps_ret {A} (a : A) : keeps R (ret a).
Proof. intros w r w' [= <- <-]. apply R_refl. Qed.

Lemma keeps_fault {A} : keeps R (A:=A) fault.
Proof. intros w r w' [= <- <-]. apply R_refl. Qed.

Lemma keeps_timeout {A} : keeps R (A:=A) timeout.
Proof. intros w r w' [= <- <-]. apply R_refl. Qed.

Lemma keeps_load n : keeps R (lift (load_node n)).
Proof.
  intros [h c] r w'. unfold lift, load_node. simpl.
  destruct n as [a|]; [destruct (nodes h !! a)|];
    intros [= <- <-]; apply R_refl.
Qed.

Lemma keeps_bind {A B} (m : M (heap * C) A) (f : A -> M (heap * C) B) :
  keeps R m -> (forall a, keeps R (f a)) -> keeps R (bind m f).
Proof.
  intros Hm Hf w r w'. unfold bind.
  destruct (m w) as [[a| |] w1] eqn:E; apply Hm in E.
  - intros H. apply Hf in H. now apply (R_trans w w1 w').
  - now intros [= <- <-].
  - now intros [= <- <-].
Qed.

Lemma keeps_or_return (m k : M (heap * C) Z) :
  keeps R m -> keeps R k -> keeps R (or_return m k).
Proof.
  intros Hm Hk. unfold or_return. apply keeps_bind; [done|].
  intros err. destruct (err =? 0); [done | apply keeps_ret].
Qed.

Lemma keeps_call_cb (f : option (callback C)) n :
  (forall g, f = Some g -> forall n, keeps R (g n)) ->
  keeps R (call_cb f n).
Proof. intros Hf. destruct f as [g|]; simpl; [now apply Hf | apply keeps_ret]. Qed.

Ltac keeps_tac IHw IHl :=
  repeat first
    [ apply IHw | apply IHl
    | apply keeps_ret | apply keeps_fault | apply keeps_timeout
    | apply keeps_load
    | apply keeps_call_cb; assumption
    | apply keeps_or_return
    | apply keeps_bind; [|intros ?]
    | match goal with
      | |- keeps _ (match ?x with _ => _ end) => destruct x
      end
    | match goal with
      | |- keeps _ ((match ?x with _ => _ end) _) => destruct x
      end ].

Lemma walk_keeps_both (pre post : option (callback C)) fuel :
  (forall g, pre = Some g -> forall n, keeps R (g n)) ->
  (forall g, post = Some g -> forall n, keeps R (g n)) ->
  (forall n, keeps R (node_walk fuel n pre post))
  /\ (forall e, keeps R (_node_walk_list fuel e pre post)).
Proof.
  intros Hpre Hpost. induction fuel as [|fuel [IHw IHl]].
  - split; intros n; simpl; [apply keeps_timeout|].
    destruct n; [apply keeps_timeout | apply keeps_ret].
  - split; intros n.
    + cbn [node_walk]. keeps_tac IHw IHl.
    + cbn [_node_walk_list]. keeps_tac IHw IHl.
Qed.

End WalkKeeps.

(** X12: the walker changes the store and the context only through the
    callbacks: a relation between states that is reflexive and transitive,
    and that every invocation of the callbacks supplied respects, holds
    between the state a walk starts in and the state it ends in, however it
    ends. *)
Theorem walk_keeps {C} (R : heap * C -> heap * C -> Prop)
        (pre post : option (callback C)) (fuel : nat) (n : ptr)
        (w w' : heap * C) (r : res Z) :
  (forall w, R w w) ->
  (forall w1 w2 w3, R w1 w2 -> R w2 w3 -> R w1 w3) ->
  (forall g, pre = Some g -> forall n, keeps R (g n)) ->
  (forall g, post = Some g -> forall n, keeps R (g n)) ->
  node_walk fuel n pre post w = (r, w') ->
  R w w'.
Proof.
  intros Hrefl Htrans Hpre Hpost.
  apply (walk_keeps_both R Hrefl Htrans pre post fuel Hpre Hpost).
Qed.

(** X13: a walk without callbacks reads only: it leaves the store and the
    context as they are, and when it returns its status is 0, or -1 at a
    node of kind [TYPE_NONE]. *)
Theorem walk_no_callbacks {C} (fuel : nat) (n : ptr) (w w' : heap * C)
        (r : res Z) :
  node_walk fuel n None None w = (r, w') ->
  w' = w /\ forall s, r = Ok s -> s = 0 \/ s = -1.
Proof.
  intros Hw. split.
  - symmetry.
    apply (proj1 (walk_keeps_both eq (fun _ => eq_refl)
                    (fun _ _ _ H1 H2 => eq_trans H1 H2) None None fuel
                    ltac:(discriminate) ltac:(discriminate)) n w r w' Hw).
  - revert n w w' r Hw.
    assert (H : (forall n (w w' : heap * C) r,
                    node_walk fuel n None None w = (r, w') ->
                    forall s, r = Ok s -> s = 0 \/ s = -1)
                /\ (forall e (w w' : heap * C) r,
                       _node_walk_list fuel e None None w = (r, w') ->
                       forall s, r = Ok s -> s = 0 \/ s = -1)); [|apply H].
    induction fuel as [|fuel [IHw IHl]].
    + split; intros n w w' r; simpl; [intros [= <- <-] s; discriminate|].
      destruct n; intros [= <- <-] s; [discriminate|]. intros [= <-]. now left.
    + assert (Hor : forall (m k : M (heap * C) Z),
                 (forall w w' r, m w = (r, w') ->
                                 forall s, r = Ok s -> s = 0 \/ s = -1) ->
                 (forall w w' r, k w = (r, w') ->
                                 forall s, r = Ok s -> s = 0 \/ s = -1) ->
                 forall w w' r, or_return m k w = (r, w') ->
                                forall s, r = Ok s -> s = 0 \/ s = -1).
      { intros m k Hm Hk w w' r. unfold or_return, bind.
        destruct (m w) as [[err| |] w1] eqn:E.
        - destruct (err =? 0) eqn:Herr; [apply Hk|].
          intros [= <- <-] s [= <-]. now apply (Hm _ _ _ E).
        - intros [= <- <-] s. discriminate.
        - intros [= <- <-] s. discriminate. }
      assert (Hbind : forall A (m : M (heap * C) A) (f : A -> M (heap * C) Z),
                 (forall a w w' r, f a w = (r, w') ->
                                   forall s, r = Ok s -> s = 0 \/ s = -1) ->
                 forall w w' r, bind m f w = (r, w') ->
                                forall s, r = Ok s -> s = 0 \/ s = -1).
      { intros A m f Hf w w' r. unfold bind.
        destruct (m w) as [[a| |] w1]; [apply Hf| |];
          intros [= <- <-] s; discriminate. }
      assert (Hret0 : forall (w w' : heap * C) r, ret 0 w = (r, w') ->
                        forall s, r = Ok s -> s = 0 \/ s = -1).
      { intros w w' r [= <- <-] s [= <-]. now left. }
      assert (Hret1 : forall (w w' : heap * C) r, ret (-1) w = (r, w') ->
                        forall s, r = Ok s -> s = 0 \/ s = -1).
      { intros w w' r [= <- <-] s [= <-]. now right. }
      assert (Hfault : forall (w w' : heap * C) r, fault w = (r, w') ->
                        forall s, r = Ok s -> s = 0 \/ s = -1).
      { intros w w' r [= <- <-] s. discriminate. }
      assert (Htime : forall (w w' : heap * C) r, timeout w = (r, w') ->
                        forall s, r = Ok s -> s = 0 \/ s = -1).
      { intros w w' r [= <- <-] s. discriminate. }
      split; intros n.
      * cbn [node_walk call_cb].
        repeat first
          [ apply IHw | apply IHl | apply Hret0 | apply Hret1 | apply Hfault
          | apply Htime | apply Hor | apply Hbind; intros ?
          | match goal with
            | |- forall w w' r, (match ?x with _ => _ end) w = _ -> _ =>
                destruct x
            | |- forall w w' r, ((match ?x with _ => _ end) _) w = _ -> _ =>
                destruct x
            end ].
      * cbn [_node_walk_list].
        repeat first
          [ apply IHw | apply IHl | apply Hret0 | apply Hret1 | apply Hfault
          | apply Htime | apply Hor | apply Hbind; intros ?
          | match goal with
            | |- forall w w' r, (match ?x with _ => _ end) w = _ -> _ =>
                destruct x
            end ].
Qed.

(** ** The walker: where a status comes from, and pairing of callbacks *)

Section WalkLog.

Context {C : Type}.

Lemma sourced_ret0 : sourced_run (C:=C) (ret 0).
Proof.
  intros w r w' [= <- <-]. exists []. rewrite app_nil_r. split; [done|].
  intros s [= <-] Hs. done.
Qed.

Lemma sourced_ret_m1 : sourced_run (C:=C) (ret (-1)).
Proof.
  intros w r w' [= <- <-]. exists []. rewrite app_nil_r. split; [done|].
  intros s [= <-] Hs. now left.
Qed.

Lemma sourced_fault : sourced_run (C:=C) fault.
Proof.
  intros w r w' [= <- <-]. exists []. rewrite app_nil_r. split; [done|].
  intros s. discriminate.
Qed.

Lemma sourced_timeout : sourced_run (C:=C) timeout.
Proof.
  intros w r w' [= <- <-]. exists []. rewrite app_nil_r. split; [done|].
  intros s. discriminate.
Qed.

Lemma sourced_bind_quiet {A} (m : M (heap * (C * list event)) A)
      (f : A -> M (heap * (C * list event)) Z) :
  quiet m -> (forall a, sourced_run (f a)) -> sourced_run (bind m f).
Proof.
  intros Hm Hf w r w'. unfold bind.
  destruct (m w) as [[a| |] w1] eqn:E; apply Hm in E.
  - intros H. apply Hf in H. now rewrite E in H.
  - intros [= <- <-]. exists []. rewrite app_nil_r. split; [done|].
    intros s. discriminate.
  - intros [= <- <-]. exists []. rewrite app_nil_r. split; [done|].
    intros s. discriminate.
Qed.

Lemma sourced_or_return (m k : M (heap * (C * list event)) Z) :
  sourced_run m -> sourced_run k -> sourced_run (or_return m k).
Proof.
  intros Hm Hk w r w'. unfold or_return, bind.
  destruct (m w) as [[err| |] w1] eqn:E; apply Hm in E;
    destruct E as (tr1 & Hlog1 & Hs1).
  - destruct (err =? 0) eqn:Herr.
    + intros H. apply Hk in H. destruct H as (tr2 & Hlog2 & Hs2).
      exists (tr1 ++ tr2). rewrite Hlog2, Hlog1, app_assoc. split; [done|].
      intros s Hr Hne. destruct (Hs2 s Hr Hne) as [->|(tr & e & -> & He)].
      * now left.
      * right. exists (tr1 ++ tr), e. now rewrite app_assoc.
    + intros [= <- <-]. now exists tr1.
  - intros [= <- <-]. now exists tr1.
  - intros [= <- <-]. now exists tr1.
Qed.

Lemma sourced_call_cb k (f : option (callback C)) n :
  sourced_run (call_cb (observe k <$> f) n).
Proof.
  destruct f as [f|]; simpl; [|apply sourced_ret0].
  intros w r w'. unfold observe.
  destruct (f n (w.1, (w.2).1)) as [[s| |] w1].
  - intros [= <- <-]. exists [(k, n, s)]. split; [done|].
    intros s' [= <-] Hs. right. now exists [], (k, n, s).
  - intros [= <- <-]. exists []. unfold log_of. simpl. rewrite app_nil_r.
    split; [done|]. intros s. discriminate.
  - intros [= <- <-]. exists []. unfold log_of. simpl. rewrite app_nil_r.
    split; [done|]. intros s. discriminate.
Qed.

Ltac quiet_tac' :=
  repeat first
    [ apply quiet_ret | apply quiet_fault | apply quiet_lift
    | apply quiet_bind; [|intros ?]
    | match goal with |- quiet (match ?x with _ => _ end) => destruct x end ].

Ltac sourced_tac IHw IHl :=
  repeat first
    [ apply IHw | apply IHl
    | apply sourced_ret0 | apply sourced_ret_m1
    | apply sourced_fault | apply sourced_timeout
    | apply sourced_call_cb
    | apply sourced_or_return
    | apply sourced_bind_quiet; [quiet_tac' | intros ?]
    | match goal with
      | |- sourced_run (match ?x with _ => _ end) => destruct x
      end
    | match goal with
      | |- sourced_run ((match ?x with _ => _ end) _) => destruct x
      end ].

Lemma walk_sourced (pre post : option (callback C)) fuel :
  (forall n, sourced_run (node_walk fuel n (observe Pre <$> pre)
                                    (observe Post <$> post)))
  /\ (forall e, sourced_run (_node_walk_list fuel e (observe Pre <$> pre)
                                             (observe Post <$> post))).
Proof.
  induction fuel as [|fuel [IHw IHl]].
  - split; intros n; simpl; [apply sourced_timeout|].
    destruct n; [apply sourced_timeout | apply sourced_ret0].
  - split; intros n.
    + cbn [node_walk]. sourced_tac IHw IHl.
    + cbn [_node_walk_list]. sourced_tac IHw IHl.
Qed.

End WalkLog.

(** X14: the walker makes up no status of its own but -1: a status other
    than 0 that a walk returns is the status the last callback invocation
    of the walk returned, or it is -1. *)
Theorem walk_status_source {C} (pre post : option (callback C))
        (fuel : nat) (n : ptr) (w w' : heap * (C * list event)) (s : Z) :
  node_walk fuel n (observe Pre <$> pre) (observe Post <$> post) w
  = (Ok s, w') ->
  s <> 0 ->
  s = -1
  \/ exists tr e, log_of w' = log_of w ++ tr ++ [e] /\ ev_status e = s.
Proof.
  intros Hw Hs. apply walk_sourced in Hw. destruct Hw as (tr & Hlog & Hsrc).
  destruct (Hsrc s eq_refl Hs) as [->|(tr1 & e & -> & He)]; [now left|].
  right. now exists tr1, e.
Qed.

Section WalkPaired.

Context {C : Type} (f g : callback C).

Lemma nodes_of_app k tr1 tr2 :
  nodes_of k (tr1 ++ tr2) = nodes_of k tr1 ++ nodes_of k tr2.
Proof. unfold nodes_of. now rewrite List.filter_app, List.map_app. Qed.

Lemma paired_ret0 : paired (C:=C) (ret 0).
Proof.
  intros w r w' [= <- <-]. exists []. rewrite app_nil_r. now split.
Qed.

Lemma paired_timeout : paired (C:=C) timeout.
Proof.
  intros w r w' [= <- <-]. exists []. rewrite app_nil_r. now split.
Qed.

Lemma paired_bind_quiet {A} (m : M (heap * (C * list event)) A)
      (k : A -> M (heap * (C * list event)) Z) :
  quiet m -> (forall a, paired (k a)) -> paired (bind m k).
Proof.
  intros Hm Hk w r w'. unfold bind.
  destruct (m w) as [[a| |] w1] eqn:E; apply Hm in E.
  - intros H. apply Hk in H. now rewrite E in H.
  - intros [= <- <-]. exists []. rewrite app_nil_r. now split.
  - intros [= <- <-]. exists []. rewrite app_nil_r. now split.
Qed.

Lemma paired_or_return (m k : M (heap * (C * list event)) Z) :
  paired m -> paired k -> paired (or_return m k).
Proof.
  intros Hm Hk w r w'. unfold or_return, bind.
  destruct (m w) as [[err| |] w1] eqn:E; apply Hm in E;
    destruct E as (tr1 & Hlog1 & Hp1).
  - destruct (err =? 0) eqn:Herr.
    + apply Z.eqb_eq in Herr. subst err.
      intros H. apply Hk in H. destruct H as (tr2 & Hlog2 & Hp2).
      exists (tr1 ++ tr2). rewrite Hlog2, Hlog1, app_assoc. split; [done|].
      intros Hr. rewrite !nodes_of_app.
      apply Permutation_app; [now apply Hp1 | now apply Hp2].
    + intros [= <- <-]. exists tr1. split; [done|].
      intros [= ->]. discriminate.
  - intros [= <- <-]. exists tr1. now split.
  - intros [= <- <-]. exists tr1. now split.
Qed.

Lemma closing_ret_m1 n : closing (C:=C) n (ret (-1)).
Proof.
  intros w r w' [= <- <-]. exists []. rewrite app_nil_r. now split.
Qed.

Lemma closing_fault n : closing (C:=C) n fault.
Proof.
  intros w r w' [= <- <-]. exists []. rewrite app_nil_r. now split.
Qed.

Lemma closing_finish n : closing n (call_cb (Some (observe Post g)) n).
Proof.
  intros w r w'. simpl. unfold observe.
  destruct (g n (w.1, (w.2).1)) as [[s| |] w1].
  - intros [= <- <-]. exists [(Post, n, s)]. split; [done|].
    intros _. reflexivity.
  - intros [= <- <-]. exists []. unfold log_of. simpl. rewrite app_nil_r.
    now split.
  - intros [= <- <-]. exists []. unfold log_of. simpl. rewrite app_nil_r.
    now split.
Qed.

Lemma closing_bind_quiet {A} n (m : M (heap * (C * list event)) A)
      (k : A -> M (heap * (C * list event)) Z) :
  quiet m -> (forall a, closing n (k a)) -> closing n (bind m k).
Proof.
  intros Hm Hk w r w'. unfold bind.
  destruct (m w) as [[a| |] w1] eqn:E; apply Hm in E.
  - intros H. apply Hk in H. now rewrite E in H.
  - intros [= <- <-]. exists []. rewrite app_nil_r. now split.
  - intros [= <- <-]. exists []. rewrite app_nil_r. now split.
Qed.

Lemma closing_or_return n (m k : M (heap * (C * list event)) Z) :
  paired m -> closing n k -> closing n (or_return m k).
Proof.
  intros Hm Hk w r w'. unfold or_return, bind.
  destruct (m w) as [[err| |] w1] eqn:E; apply Hm in E;
    destruct E as (tr1 & Hlog1 & Hp1).
  - destruct (err =? 0) eqn:Herr.
    + apply Z.eqb_eq in Herr. subst err.
      intros H. apply Hk in H. destruct H as (tr2 & Hlog2 & Hp2).
      exists (tr1 ++ tr2). rewrite Hlog2, Hlog1, app_assoc. split; [done|].
      intros Hr. rewrite !nodes_of_app.
      rewrite <- (Hp2 Hr), <- (Hp1 eq_refl).
      apply Permutation_middle.
    + intros [= <- <-]. exists tr1. split; [done|].
      intros [= ->]. discriminate.
  - intros [= <- <-]. exists tr1. now split.
  - intros [= <- <-]. exists tr1. now split.
Qed.

Lemma paired_open n (k : M (heap * (C * list event)) Z) :
  closing n k -> paired (or_return (call_cb (Some (observe Pre f)) n) k).
Proof.
  intros Hk w r w'. unfold or_return, bind. simpl. unfold observe.
  destruct (f n (w.1, (w.2).1)) as [[s| |] w1].
  - destruct (s =? 0) eqn:Hs.
    + intros H. apply Hk in H. destruct H as (tr2 & Hlog2 & Hp2).
      exists ((Pre, n, s) :: tr2). split.
      { rewrite Hlog2. unfold log_of. simpl. now rewrite <- app_assoc. }
      intros Hr. change ((Pre, n, s) :: tr2) with ([(Pre, n, s)] ++ tr2).
      rewrite !nodes_of_app. simpl. now apply Hp2.
    + intros [= <- <-]. exists [(Pre, n, s)]. split; [done|].
      intros [= ->]. discriminate.
  - intros [= <- <-]. exists []. unfold log_of. simpl. rewrite app_nil_r.
    now split.
  - intros [= <- <-]. exists []. unfold log_of. simpl. rewrite app_nil_r.
    now split.
Qed.

Ltac quiet_tac'' :=
  repeat first
    [ apply quiet_ret | apply quiet_fault | apply quiet_lift
    | apply quiet_bind; [|intros ?]
    | match goal with |- quiet (match ?x with _ => _ end) => destruct x end ].

Ltac closing_tac IHw IHl :=
  repeat first
    [ apply IHw | apply IHl
    | apply closing_finish | apply closing_ret_m1 | apply closing_fault
    | apply closing_or_return
    | apply closing_bind_quiet; [quiet_tac'' | intros ?]
    | match goal with
      | |- closing _ (match ?x with _ => _ end) => destruct x
      end
    | match goal with
      | |- closing _ ((match ?x with _ => _ end) _) => destruct x
      end ].

Lemma walk_paired_both fuel :
  (forall n, paired (node_walk fuel n (Some (observe Pre f))
                               (Some (observe Post g))))
  /\ (forall e, paired (_node_walk_list fuel e (Some (observe Pre f))
                                        (Some (observe Post g)))).
Proof.
  induction fuel as [|fuel [IHw IHl]].
  - split; intros n; simpl; [apply paired_timeout|].
    destruct n; [apply paired_timeout | apply paired_ret0].
  - split; intros n.
    + cbn [node_walk]. apply paired_open. closing_tac IHw IHl.
    + cbn [_node_walk_list]. destruct n; [|apply paired_ret0].
      apply paired_bind_quiet; [apply quiet_lift | intros nd].
      apply paired_or_return; [apply IHw | apply IHl].
Qed.

End WalkPaired.

(** X15: in a walk with both callbacks that ends with status 0, [post] has
    been invoked on exactly the nodes on which [pre] has been invoked, and
    as often: the nodes of the [pre] invocations are a permutation of the
    nodes of the [post] invocations. *)
Theorem walk_pre_post_paired {C} (f g : callback C) (fuel : nat) (n : ptr)
        (w w' : heap * (C * list event)) :
  node_walk fuel n (Some (observe Pre f)) (Some (observe Post g)) w
  = (Ok 0, w') ->
  exists tr,
    log_of w' = log_of w ++ tr
    /\ nodes_of Pre tr ≡ₚ nodes_of Post tr.
Proof.
  intros Hw. apply (walk_paired_both f g) in Hw.
  destruct Hw as (tr & Hlog & Hp). exists tr. split; [done|]. now apply Hp.
Qed.

(** ** Constructors: parent links and what else changes *)

Lemma payload_after_keeps stepf h h' l x xf :
  keeps_links h h' ->
  payload_after stepf h l x = Some xf ->
  payload_after stepf h' l x = Some xf.
Proof.
  intros Hk. revert x. induction l as [|a l IH]; intros x; simpl; [done|].
  destruct (nodes h !! a) as [nd|] eqn:Hn; [|discriminate]. simpl.
  destruct (Hk _ _ Hn) as (nd' & Hn' & Hnx). rewrite Hn'. simpl. rewrite Hnx.
  destruct (stepf a (next nd) x) as [x'|]; [|discriminate]. simpl. apply IH.
Qed.

Lemma set_u_same nd : set_u (u nd) nd = nd.
Proof. now destruct nd. Qed.

Lemma heap_with_nodes_id h a nd :
  nodes h !! a = Some nd -> with_nodes h (<[a := nd]> (nodes h)) = h.
Proof. intros H. rewrite insert_id by done. now destruct h. Qed.

Section Foreach.

Variables (n : addr) (rest : ptr -> M heap unit)
          (stepf : addr -> ptr -> union_t -> option union_t).

Hypothesis rest_spec :
  forall h c cd nd x',
    nodes h !! c = Some cd -> nodes h !! n = Some nd ->
    stepf c (next cd) (u nd) = Some x' ->
    rest (Some c) h
    = (Ok tt, with_nodes h (<[n := set_u x' nd]> (nodes h))).

(** The loop of a constructor: every round stamps the parent of its
    element and then, with [rest], rewrites at most the payload of the new
    node [n]. *)
Lemma node_foreach_stamps l :
  forall fuel h p nd xf (body : ptr -> M heap unit),
    (forall c h, body c h
                 = (update_node c (set_parent (Some n)) ;;; rest c) h) ->
    siblings h p l ->
    n ∉ l ->
    (length l <= fuel)%nat ->
    nodes h !! n = Some nd ->
    payload_after stepf h l (u nd) = Some xf ->
    exists h',
      node_foreach fuel p body h = (Ok tt, h')
      /\ dyns h' = dyns h /\ strs h' = strs h
      /\ nodes h' !! n = Some (set_u xf nd)
      /\ stamped n l h h'.
Proof.
  induction l as [|a l IH]; intros fuel h p nd xf body Hbody Hs Hnin Hfuel Hn Hpay.
  - simpl in Hs. subst p. injection Hpay as <-. exists h.
    split; [now destruct fuel|]. split; [done|]. split; [done|].
    split; [now rewrite set_u_same|].
    intros b Hb. destruct (decide (b ∈ [])) as [Hin|_]; [|done].
    now apply elem_of_nil in Hin.
  - simpl in Hs. destruct Hs as (-> & cd & Hc & Hs).
    apply not_elem_of_cons in Hnin. destruct Hnin as [Hna Hnin].
    destruct fuel as [|fuel]; [simpl in Hfuel; lia|].
    simpl in Hpay. rewrite Hc in Hpay. simpl in Hpay.
    destruct (stepf a (next cd) (u nd)) as [x1|] eqn:Hstep; [|discriminate].
    simpl in Hpay.
    set (h1 := with_nodes h (<[a := set_parent (Some n) cd]> (nodes h))).
    assert (Hc1 : nodes h1 !! a = Some (set_parent (Some n) cd)).
    { unfold h1. simpl. apply lookup_insert_eq. }
    assert (Hn1 : nodes h1 !! n = Some nd).
    { unfold h1. simpl. now rewrite lookup_insert_ne. }
    set (h2 := with_nodes h1 (<[n := set_u x1 nd]> (nodes h1))).
    assert (Hrest : rest (Some a) h1 = (Ok tt, h2)).
    { apply (rest_spec h1 a (set_parent (Some n) cd) nd x1 Hc1 Hn1). exact Hstep. }
    assert (Hc2 : nodes h2 !! a = Some (set_parent (Some n) cd)).
    { unfold h2. simpl. now rewrite lookup_insert_ne. }
    assert (Hn2 : nodes h2 !! n = Some (set_u x1 nd)).
    { unfold h2. simpl. apply lookup_insert_eq. }
    assert (Hk : keeps_links h h2).
    { apply (keeps_links_trans h h1).
      - eapply keeps_links_insert; [exact Hc | | reflexivity]. reflexivity.
      - eapply keeps_links_insert; [exact Hn1 | | reflexivity]. reflexivity. }
    destruct (IH fuel h2 (next cd) (set_u x1 nd) xf body Hbody)
      as (h' & Hrun & Hdy & Hst & Hn' & Hstamp).
    { now apply (siblings_keeps h h2). }
    { done. }
    { simpl in Hfuel. lia. }
    { done. }
    { simpl. now apply (payload_after_keeps stepf h h2). }
    exists h'. split.
    { cbn [node_foreach]. unfold bind at 1. rewrite Hbody.
      unfold bind at 1. rewrite (update_node_run _ _ _ _ Hc). fold h1.
      rewrite Hrest. unfold bind at 1. now rewrite (load_node_run _ _ _ Hc2). }
    split; [done|]. split; [done|]. split; [done|].
    intros b Hb. rewrite (Hstamp b Hb).
    assert (Hb2 : nodes h2 !! b
                  = if decide (b = a) then Some (set_parent (Some n) cd)
                    else nodes h !! b).
    { unfold h2, h1. simpl. rewrite lookup_insert_ne by done.
      destruct (decide (b = a)) as [->|Hne];
        [apply lookup_insert_eq | now rewrite lookup_insert_ne]. }
    rewrite Hb2. destruct (decide (b = a)) as [->|Hne].
    + rewrite Hc.
      destruct (decide (a ∈ a :: l)) as [_|Hx];
        [|exfalso; apply Hx; apply list_elem_of_here].
      now destruct (decide (a ∈ l)).
    + destruct (decide (b ∈ l)) as [Hin|Hin];
        destruct (decide (b ∈ a :: l)) as [Hin'|Hin']; try done.
      * exfalso. apply Hin'. now apply list_elem_of_further.
      * exfalso. apply elem_of_cons in Hin'. tauto.
Qed.

End Foreach.

(** [node_new] in full: the node and, for the kinds other than map and
    var, its zeroed annotation, both at addresses that were free. *)
Lemma node_new_full t h :
  exists a h1 dp,
    node_new t h = (Ok (Some a), h1)
    /\ nodes h !! a = None
    /\ nodes h1 = <[a := mkNode t NULL NULL dp NULL (u_zero t)]> (nodes h)
    /\ strs h1 = strs h
    /\ ((t <> TYPE_MAP /\ t <> TYPE_VAR
         /\ exists da, dp = Some da /\ dyns h !! da = None
                       /\ dyns h1 = <[da := dyn_zero]> (dyns h))
        \/ ((t = TYPE_MAP \/ t = TYPE_VAR) /\ dp = NULL /\ dyns h1 = dyns h)).
Proof.
  unfold node_new, bind at 1, alloc_node.
  set (a := fresh (dom (nodes h))).
  assert (Ha : nodes h !! a = None).
  { apply not_elem_of_dom. apply is_fresh. }
  destruct (decide (t <> TYPE_MAP /\ t <> TYPE_VAR)) as [[H1 H2]|Hno].
  - set (da := fresh (dom (dyns h))).
    assert (Hda : dyns h !! da = None).
    { apply not_elem_of_dom. apply is_fresh. }
    exists a. eexists. exists (Some da).
    unfold bind, alloc_dyn, update_node, bind, load_node.
    simpl. rewrite lookup_insert_eq. simpl. split; [reflexivity|].
    split; [done|]. simpl. split; [now rewrite insert_insert_eq|].
    split; [done|]. left. split; [done|]. split; [done|]. now exists da.
  - exists a. eexists. exists NULL. unfold bind. simpl.
    split; [reflexivity|]. split; [done|]. split; [done|]. split; [done|].
    right. split; [|done].
    destruct (decide (t = TYPE_MAP)); [now left|].
    destruct (decide (t = TYPE_VAR)); [now right|]. tauto.
Qed.

Lemma siblings_alloc h p l a :
  siblings h p l -> a ∈ l -> is_Some (nodes h !! a).
Proof.
  revert p. induction l as [|b l IH]; intros p; simpl.
  - intros _ Ha. now apply elem_of_nil in Ha.
  - intros (-> & nd & Hn & Hs) Ha. apply elem_of_cons in Ha.
    destruct Ha as [->|Ha]; [eauto | now apply (IH (next nd))].
Qed.

Lemma siblings_fresh h p l n :
  siblings h p l -> nodes h !! n = None -> n ∉ l.
Proof.
  intros Hs Hn Hin. destruct (siblings_alloc h p l n Hs Hin) as [nd Hnd].
  congruence.
Qed.

Lemma payload_after_plain h p l x :
  siblings h p l ->
  payload_after (fun _ _ x => Some x) h l x = Some x.
Proof.
  revert p. induction l as [|a l IH]; intros p; simpl; [done|].
  intros (-> & nd & Hn & Hs). rewrite Hn. simpl. now apply (IH (next nd)).
Qed.

Lemma stamped_base n kids h0 h h' :
  (forall b, b <> n -> nodes h0 !! b = nodes h !! b) ->
  stamped n kids h0 h' -> stamped n kids h h'.
Proof. intros Hb Hs a Ha. rewrite (Hs a Ha). now rewrite (Hb a Ha). Qed.

Lemma stamped_nil n h h' :
  (forall b, b <> n -> nodes h' !! b = nodes h !! b) -> stamped n [] h h'.
Proof.
  intros Hb a Ha. rewrite (Hb a Ha).
  destruct (decide (a ∈ [])) as [Hin|_]; [|done]. now apply elem_of_nil in Hin.
Qed.

Lemma stamped_app n l1 l2 h1 h2 h3 :
  stamped n l1 h1 h2 -> stamped n l2 h2 h3 -> stamped n (l1 ++ l2) h1 h3.
Proof.
  intros H12 H23 a Ha. rewrite (H23 a Ha), (H12 a Ha).
  destruct (decide (a ∈ l1)) as [H1|H1], (decide (a ∈ l2)) as [H2|H2],
           (decide (a ∈ l1 ++ l2)) as [H|H];
    rewrite ?elem_of_app in H; try tauto.
  destruct (nodes h1 !! a) as [nd|]; reflexivity.
Qed.

Lemma stamped_one n a nd h h' :
  nodes h !! a = Some nd ->
  nodes h' = <[a := set_parent (Some n) nd]> (nodes h) ->
  stamped n [a] h h'.
Proof.
  intros Ha Hh b Hb. rewrite Hh.
  destruct (decide (b ∈ [a])) as [Hin|Hin].
  - apply list_elem_of_singleton in Hin. subst b.
    now rewrite lookup_insert_eq, Ha.
  - rewrite lookup_insert_ne; [done|]. intros ->. apply Hin.
    now apply list_elem_of_singleton.
Qed.

(** The loop that only stamps parents. *)
Lemma node_foreach_plain n l fuel h p nd :
  siblings h p l ->
  n ∉ l ->
  (length l <= fuel)%nat ->
  nodes h !! n = Some nd ->
  exists h',
    node_foreach fuel p (fun c => update_node c (set_parent (Some n))) h
    = (Ok tt, h')
    /\ dyns h' = dyns h /\ strs h' = strs h
    /\ nodes h' !! n = Some nd
    /\ stamped n l h h'.
Proof.
  intros Hs Hnin Hfuel Hn.
  destruct (node_foreach_stamps n (fun _ => ret tt) (fun _ _ x => Some x))
    with (l := l) (fuel := fuel) (h := h) (p := p) (nd := nd) (xf := u nd)
         (body := fun c => update_node c (set_parent (Some n)))
    as (h' & Hrun & Hd & Hst & Hn' & Hstamp); try done.
  - intros h0 c cd nd0 x' _ Hn0 [= <-]. unfold ret.
    now rewrite set_u_same, heap_with_nodes_id.
  - intros c h0. unfold bind.
    now destruct (update_node c (set_parent (Some n)) h0) as [[[]| |] ?].
  - now apply (payload_after_plain h p).
  - exists h'. rewrite set_u_same in Hn'. done.
Qed.

(** X16: [node_script_new] and [node_unroll_new] return a node at an
    address that was free, with a zeroed annotation of its own, holding
    the sibling chain it was given; the parent link of every node of the
    chain points to the new node, and no other node, no string and no
    other annotation is changed. *)
Theorem node_script_unroll_new_links (h : heap) (fuel : nat) (count : Z)
        (p : ptr) (l : list addr) :
  siblings h p l ->
  (length l <= fuel)%nat ->
  (exists n da h',
      node_script_new fuel p h = (Ok (Some n), h')
      /\ nodes h !! n = None /\ dyns h !! da = None
      /\ nodes h' !! n
         = Some (mkNode TYPE_SCRIPT NULL NULL (Some da) NULL (u_script p))
      /\ stamped n l h h'
      /\ siblings h' p l
      /\ dyns h' = <[da := dyn_zero]> (dyns h)
      /\ strs h' = strs h)
  /\ (exists n da h',
         node_unroll_new fuel count p h = (Ok (Some n), h')
         /\ nodes h !! n = None /\ dyns h !! da = None
         /\ nodes h' !! n
            = Some (mkNode TYPE_UNROLL NULL NULL (Some da) NULL
                           (u_unroll count p))
         /\ stamped n l h h'
         /\ siblings h' p l
         /\ dyns h' = <[da := dyn_zero]> (dyns h)
         /\ strs h' = strs h).
Proof.
  intros Hs Hfuel. split.
  - destruct (node_new_full TYPE_SCRIPT h)
      as (a & h1 & dp & Hnew & Hfree & Hn1 & Hs1 & Hdyn).
    destruct Hdyn as [(_ & _ & da & -> & Hda & Hd1)|([?|?] & _)];
      [|discriminate|discriminate].
    assert (H1 : nodes h1 !! a
                 = Some (mkNode TYPE_SCRIPT NULL NULL (Some da) NULL
                                (u_script NULL))).
    { rewrite Hn1. apply lookup_insert_eq. }
    set (nd2 := set_u (u_script p)
                  (mkNode TYPE_SCRIPT NULL NULL (Some da) NULL (u_script NULL))).
    set (h2 := with_nodes h1 (<[a := nd2]> (nodes h1))).
    assert (Hbase : forall b, b <> a -> nodes h2 !! b = nodes h !! b).
    { intros b Hb. unfold h2. simpl. rewrite Hn1.
      now rewrite !lookup_insert_ne by done. }
    assert (Hk2 : keeps_links h h2).
    { intros b nb Hb. exists nb. split; [|done].
      rewrite Hbase; [done|]. intros ->. congruence. }
    destruct (node_foreach_plain a l fuel h2 p nd2)
      as (h' & Hrun & Hd' & Hs' & Hn' & Hstamp).
    { now apply (siblings_keeps h h2). }
    { now apply (siblings_fresh h p). }
    { done. }
    { unfold h2. simpl. apply lookup_insert_eq. }
    exists a, da, h'. split.
    { unfold node_script_new. unfold bind at 1. rewrite Hnew.
      unfold bind at 1. erewrite update_u_run; [| exact H1 | reflexivity].
      fold nd2 h2. unfold bind at 1. now rewrite Hrun. }
    split; [done|]. split; [done|]. split; [done|].
    split; [now apply (stamped_base a l h2)|].
    split.
    { apply (siblings_keeps h2 h'); [|now apply (siblings_keeps h h2)].
      intros b nb Hb. destruct (decide (b = a)) as [->|Hne].
      - exists nd2. split; [done|]. unfold h2 in Hb. simpl in Hb.
        rewrite lookup_insert_eq in Hb. now injection Hb as <-.
      - rewrite (Hstamp b Hne), Hb. destruct (decide (b ∈ l)); eauto. }
    split; [now rewrite Hd'|]. now rewrite Hs'.
  - destruct (node_new_full TYPE_UNROLL h)
      as (a & h1 & dp & Hnew & Hfree & Hn1 & Hs1 & Hdyn).
    destruct Hdyn as [(_ & _ & da & -> & Hda & Hd1)|([?|?] & _)];
      [|discriminate|discriminate].
    assert (H1 : nodes h1 !! a
                 = Some (mkNode TYPE_UNROLL NULL NULL (Some da) NULL
                                (u_unroll 0 NULL))).
    { rewrite Hn1. apply lookup_insert_eq. }
    set (nd2 := set_u (u_unroll count p)
                  (mkNode TYPE_UNROLL NULL NULL (Some da) NULL (u_unroll 0 NULL))).
    set (h2 := with_nodes h1 (<[a := nd2]> (nodes h1))).
    assert (Hbase : forall b, b <> a -> nodes h2 !! b = nodes h !! b).
    { intros b Hb. unfold h2. simpl. rewrite Hn1.
      now rewrite !lookup_insert_ne by done. }
    assert (Hk2 : keeps_links h h2).
    { intros b nb Hb. exists nb. split; [|done].
      rewrite Hbase; [done|]. intros ->. congruence. }
    destruct (node_foreach_plain a l fuel h2 p nd2)
      as (h' & Hrun & Hd' & Hs' & Hn' & Hstamp).
    { now apply (siblings_keeps h h2). }
    { now apply (siblings_fresh h p). }
    { done. }
    { unfold h2. simpl. apply lookup_insert_eq. }
    exists a, da, h'. split.
    { unfold node_unroll_new. unfold bind at 1. rewrite Hnew.
      unfold bind at 1. erewrite update_u_run; [| exact H1 | reflexivity].
      fold nd2 h2. unfold bind at 1. now rewrite Hrun. }
    split; [done|]. split; [done|]. split; [done|].
    split; [now apply (stamped_base a l h2)|].
    split.
    { apply (siblings_keeps h2 h'); [|now apply (siblings_keeps h h2)].
      intros b nb Hb. destruct (decide (b = a)) as [->|Hne].
      - exists nd2. split; [done|]. unfold h2 in Hb. simpl in Hb.
        rewrite lookup_insert_eq in Hb. now injection Hb as <-.
      - rewrite (Hstamp b Hne), Hb. destruct (decide (b ∈ l)); eauto. }
    split; [now rewrite Hd'|]. now rewrite Hs'.
Qed.

Lemma stamped_keeps_links n l h h' nd nd' :
  nodes h !! n = Some nd -> nodes h' !! n = Some nd' ->
  next nd' = next nd ->
  stamped n l h h' -> keeps_links h h'.
Proof.
  intros Hn Hn' Hnx Hst b nb Hb. destruct (decide (b = n)) as [->|Hne].
  - exists nd'. split; [done|]. congruence.
  - rewrite (Hst b Hne), Hb. destruct (decide (b ∈ l)); eauto.
Qed.

(** X17: [node_probe_new] returns a node at an address that was free, with
    a zeroed annotation of its own, holding the pattern string, the
    predicate and the statement chain it was given; the parent links of the
    predicate, if there is one, and of every statement point to the new
    node, and nothing else is changed. *)
Theorem node_probe_new_links (h : heap) (fuel : nat)
        (pspec pred stmts : ptr) (l : list addr) :
  siblings h stmts l ->
  (length l <= fuel)%nat ->
  (forall pa, pred = Some pa -> is_Some (nodes h !! pa)) ->
  exists n da h',
    node_probe_new fuel pspec pred stmts h = (Ok (Some n), h')
    /\ nodes h !! n = None /\ dyns h !! da = None
    /\ nodes h' !! n
       = Some (mkNode TYPE_PROBE NULL NULL (Some da) pspec
                      (u_probe pred stmts))
    /\ stamped n (option_list pred ++ l) h h'
    /\ siblings h' stmts l
    /\ dyns h' = <[da := dyn_zero]> (dyns h)
    /\ strs h' = strs h.
Proof.
  intros Hs Hfuel Hpred.
  destruct (node_new_full TYPE_PROBE h)
    as (a & h1 & dp & Hnew & Hfree & Hn1 & Hs1 & Hdyn).
  destruct Hdyn as [(_ & _ & da & -> & Hda & Hd1)|([?|?] & _)];
    [|discriminate|discriminate].
  set (nd1 := mkNode TYPE_PROBE NULL NULL (Some da) NULL (u_probe NULL NULL)).
  assert (H1 : nodes h1 !! a = Some nd1).
  { rewrite Hn1. apply lookup_insert_eq. }
  set (h2 := with_nodes h1 (<[a := set_string pspec nd1]> (nodes h1))).
  assert (H2 : nodes h2 !! a = Some (set_string pspec nd1)).
  { unfold h2. simpl. apply lookup_insert_eq. }
  set (nd3 := set_u (u_probe pred stmts) (set_string pspec nd1)).
  set (h3 := with_nodes h2 (<[a := nd3]> (nodes h2))).
  assert (H3 : nodes h3 !! a = Some nd3).
  { unfold h3. simpl. apply lookup_insert_eq. }
  assert (Hbase : forall b, b <> a -> nodes h3 !! b = nodes h !! b).
  { intros b Hb. unfold h3, h2. simpl. rewrite Hn1.
    now rewrite !lookup_insert_ne by done. }
  assert (Hpre : exists h4,
             (match pred with
              | Some _ => update_node pred (set_parent (Some a))
              | None => ret tt
              end) h3 = (Ok tt, h4)
             /\ nodes h4 !! a = Some nd3
             /\ stamped a (option_list pred) h h4
             /\ dyns h4 = dyns h3 /\ strs h4 = strs h3).
  { destruct pred as [pa|]; simpl.
    - destruct (Hpred pa eq_refl) as [pd Hpd].
      assert (Hpa : pa <> a) by (intros ->; congruence).
      assert (Hpd3 : nodes h3 !! pa = Some pd) by now rewrite Hbase.
      eexists. split; [apply (update_node_run _ _ _ _ Hpd3)|]. simpl.
      split; [now rewrite lookup_insert_ne|].
      split; [|done].
      apply (stamped_base a [pa] h3); [done|].
      now apply (stamped_one a pa pd h3).
    - exists h3. split; [done|]. split; [done|].
      split; [|done]. now apply stamped_nil. }
  destruct Hpre as (h4 & Hrun4 & H4 & Hst4 & Hd4 & Hs4).
  assert (Hk4 : keeps_links h h4).
  { intros b nb Hb. assert (b <> a) by (intros ->; congruence).
    rewrite (Hst4 b) by done. rewrite Hb.
    destruct (decide (b ∈ option_list pred)); eauto. }
  destruct (node_foreach_plain a l fuel h4 stmts nd3)
    as (h' & Hrun & Hd' & Hs' & Hn' & Hstamp).
  { now apply (siblings_keeps h h4). }
  { now apply (siblings_fresh h stmts). }
  { done. }
  { done. }
  exists a, da, h'. split.
  { unfold node_probe_new. unfold bind at 1. rewrite Hnew.
    unfold bind at 1. rewrite (update_node_run _ _ _ _ H1). fold h2.
    unfold bind at 1. erewrite update_u_run; [| exact H2 | reflexivity].
    fold nd3 h3. unfold bind at 1. rewrite Hrun4.
    unfold bind at 1. now rewrite Hrun. }
  split; [done|]. split; [done|]. split; [done|].
  split; [now apply (stamped_app a _ _ h h4 h')|].
  split.
  { apply (siblings_keeps h4 h'); [|now apply (siblings_keeps h h4)].
    now apply (stamped_keeps_links a l h4 h' nd3 nd3). }
  split; [now rewrite Hd', Hd4|]. now rewrite Hs', Hs4.
Qed.

Lemma payload_after_call (g : union_t -> option union_t) m v h p l k :
  (forall k, g (u_call m v k) = Some (u_call m v (wrap_int (k + 1)))) ->
  siblings h p l ->
  0 <= k -> k + Z.of_nat (length l) <= INT_MAX ->
  payload_after (fun _ _ x => g x) h l (u_call m v k)
  = Some (u_call m v (k + Z.of_nat (length l))).
Proof.
  intros Hg. revert p k. induction l as [|a l IH]; intros p k; simpl.
  - intros _ _ _. now rewrite Z.add_0_r.
  - intros (-> & nd & Hn & Hs) Hk Hmax. rewrite Hn. simpl. rewrite Hg. simpl.
    rewrite wrap_int_id by (unfold in_int, INT_MIN, INT_MAX in *; lia).
    rewrite (IH (next nd)) by (done || lia). f_equal. f_equal. lia.
Qed.

Lemma payload_after_rec (g : union_t -> option union_t) v h p l k :
  (forall k, g (u_rec v k) = Some (u_rec v (wrap_int (k + 1)))) ->
  siblings h p l ->
  0 <= k -> k + Z.of_nat (length l) <= INT_MAX ->
  payload_after (fun _ _ x => g x) h l (u_rec v k)
  = Some (u_rec v (k + Z.of_nat (length l))).
Proof.
  intros Hg. revert p k. induction l as [|a l IH]; intros p k; simpl.
  - intros _ _ _. now rewrite Z.add_0_r.
  - intros (-> & nd & Hn & Hs) Hk Hmax. rewrite Hn. simpl. rewrite Hg. simpl.
    rewrite wrap_int_id by (unfold in_int, INT_MIN, INT_MAX in *; lia).
    rewrite (IH (next nd)) by (done || lia). f_equal. f_equal. lia.
Qed.

(** X18: [node_call_new] and [node_rec_new] set the parent link of every
    argument to the node they return and change nothing else in the store
    but the new node and its annotation: the strings passed in are stored,
    not copied. *)
Theorem node_call_rec_new_links (h : heap) (fuel : nat)
        (module func vargs : ptr) (l : list addr) :
  siblings h vargs l ->
  (length l <= fuel)%nat ->
  Z.of_nat (length l) <= INT_MAX ->
  (exists n da h',
      node_call_new fuel module func vargs h = (Ok (Some n), h')
      /\ nodes h !! n = None /\ dyns h !! da = None
      /\ nodes h' !! n
         = Some (mkNode TYPE_CALL NULL NULL (Some da) func
                        (u_call module vargs (Z.of_nat (length l))))
      /\ stamped n l h h'
      /\ dyns h' = <[da := dyn_zero]> (dyns h)
      /\ strs h' = strs h)
  /\ (exists n da h',
         node_rec_new fuel vargs h = (Ok (Some n), h')
         /\ nodes h !! n = None /\ dyns h !! da = None
         /\ nodes h' !! n
            = Some (mkNode TYPE_REC NULL NULL (Some da) NULL
                           (u_rec vargs (Z.of_nat (length l))))
         /\ stamped n l h h'
         /\ dyns h' = <[da := dyn_zero]> (dyns h)
         /\ strs h' = strs h).
Proof.
  intros Hs Hfuel Hmax. split.
  - destruct (node_new_full TYPE_CALL h)
      as (a & h1 & dp & Hnew & Hfree & Hn1 & Hs1 & Hdyn).
    destruct Hdyn as [(_ & _ & da & -> & Hda & Hd1)|([?|?] & _)];
      [|discriminate|discriminate].
    set (nd1 := mkNode TYPE_CALL NULL NULL (Some da) NULL (u_call NULL NULL 0)).
    assert (H1 : nodes h1 !! a = Some nd1).
    { rewrite Hn1. apply lookup_insert_eq. }
    set (h2 := with_nodes h1 (<[a := set_string func nd1]> (nodes h1))).
    assert (H2 : nodes h2 !! a = Some (set_string func nd1)).
    { unfold h2. simpl. apply lookup_insert_eq. }
    set (nd3 := set_u (u_call module vargs 0) (set_string func nd1)).
    set (h3 := with_nodes h2 (<[a := nd3]> (nodes h2))).
    assert (H3 : nodes h3 !! a = Some nd3).
    { unfold h3. simpl. apply lookup_insert_eq. }
    assert (Hbase : forall b, b <> a -> nodes h3 !! b = nodes h !! b).
    { intros b Hb. unfold h3, h2. simpl. rewrite Hn1.
      now rewrite !lookup_insert_ne by done. }
    assert (Hk3 : keeps_links h h3).
    { intros b nb Hb. exists nb. split; [|done].
      rewrite Hbase; [done|]. intros ->. congruence. }
    set (g := fun x => match x with
                       | u_call m v k => Some (u_call m v (wrap_int (k + 1)))
                       | _ => None
                       end).
    destruct (node_foreach_stamps a (fun _ => update_u (Some a) g)
                (fun _ _ x => g x))
      with (l := l) (fuel := fuel) (h := h3) (p := vargs) (nd := nd3)
           (xf := u_call module vargs (Z.of_nat (length l)))
           (body := fun c => update_node c (set_parent (Some a)) ;;;
                             update_u (Some a) g)
      as (h' & Hrun & Hd' & Hs' & Hn' & Hstamp).
    { intros h0 c cd nd0 x' _ Hn0 Hx. now apply update_u_run. }
    { reflexivity. }
    { now apply (siblings_keeps h h3). }
    { now apply (siblings_fresh h vargs). }
    { done. }
    { done. }
    { apply (payload_after_call g module vargs h3 vargs l 0);
        [done | now apply (siblings_keeps h h3) | lia | lia]. }
    exists a, da, h'. split.
    { unfold node_call_new. unfold bind at 1. rewrite Hnew.
      unfold bind at 1. rewrite (update_node_run _ _ _ _ H1). fold h2.
      unfold bind at 1. erewrite update_u_run; [| exact H2 | reflexivity].
      fold nd3 h3. unfold bind at 1. fold g. now rewrite Hrun. }
    split; [done|]. split; [done|]. split; [done|].
    split; [now apply (stamped_base a l h3)|].
    split; [now rewrite Hd'|]. now rewrite Hs'.
  - destruct (node_new_full TYPE_REC h)
      as (a & h1 & dp & Hnew & Hfree & Hn1 & Hs1 & Hdyn).
    destruct Hdyn as [(_ & _ & da & -> & Hda & Hd1)|([?|?] & _)];
      [|discriminate|discriminate].
    set (nd1 := mkNode TYPE_REC NULL NULL (Some da) NULL (u_rec NULL 0)).
    assert (H1 : nodes h1 !! a = Some nd1).
    { rewrite Hn1. apply lookup_insert_eq. }
    set (nd3 := set_u (u_rec vargs 0) nd1).
    set (h3 := with_nodes h1 (<[a := nd3]> (nodes h1))).
    assert (H3 : nodes h3 !! a = Some nd3).
    { unfold h3. simpl. apply lookup_insert_eq. }
    assert (Hbase : forall b, b <> a -> nodes h3 !! b = nodes h !! b).
    { intros b Hb. unfold h3. simpl. rewrite Hn1.
      now rewrite !lookup_insert_ne by done. }
    assert (Hk3 : keeps_links h h3).
    { intros b nb Hb. exists nb. split; [|done].
      rewrite Hbase; [done|]. intros ->. congruence. }
    set (g := fun x => match x with
                       | u_rec v k => Some (u_rec v (wrap_int (k + 1)))
                       | _ => None
                       end).
    destruct (node_foreach_stamps a (fun _ => update_u (Some a) g)
                (fun _ _ x => g x))
      with (l := l) (fuel := fuel) (h := h3) (p := vargs) (nd := nd3)
           (xf := u_rec vargs (Z.of_nat (length l)))
           (body := fun c => update_node c (set_parent (Some a)) ;;;
                             update_u (Some a) g)
      as (h' & Hrun & Hd' & Hs' & Hn' & Hstamp).
    { intros h0 c cd nd0 x' _ Hn0 Hx. now apply update_u_run. }
    { reflexivity. }
    { now apply (siblings_keeps h h3). }
    { now apply (siblings_fresh h vargs). }
    { done. }
    { done. }
    { apply (payload_after_rec g vargs h3 vargs l 0);
        [done | now apply (siblings_keeps h h3) | lia | lia]. }
    exists a, da, h'. split.
    { unfold node_rec_new. unfold bind at 1. rewrite Hnew.
      unfold bind at 1. erewrite update_u_run; [| exact H1 | reflexivity].
      fold nd3 h3. unfold bind at 1. fold g. now rewrite Hrun. }
    split; [done|]. split; [done|]. split; [done|].
    split; [now apply (stamped_base a l h3)|].
    split; [now rewrite Hd'|]. now rewrite Hs'.
Qed.

Lemma siblings_nil_inv h l : siblings h NULL l -> l = [].
Proof. destruct l as [|a l]; [done|]. simpl. intros [H _]. discriminate. Qed.

Lemma payload_after_iff h p l c t x0 e :
  siblings h p l ->
  payload_after
    (fun c nx x =>
       match nx with
       | None => match x with
                 | u_iff a b _ d => Some (u_iff a b (Some c) d)
                 | _ => None
                 end
       | Some _ => Some x
       end) h l (u_iff c t x0 e)
  = Some (u_iff c t (match l with [] => x0 | _ => last l end) e).
Proof.
  revert p x0. induction l as [|a l IH]; intros p x0; simpl; [done|].
  intros (-> & nd & Hn & Hs). rewrite Hn. simpl.
  destruct (next nd) as [b|] eqn:Hnx; simpl.
  - rewrite (IH (Some b) x0 Hs). destruct l as [|b' l]; [|done].
    simpl in Hs. discriminate.
  - apply siblings_nil_inv in Hs. now subst l.
Qed.

(** X19: [node_if_new] returns a node that holds the condition, the chain
    of the then branch and the chain of the else branch; its cached
    [then_last] is the last node of the then chain (NULL when that chain is
    empty); the parent links of the condition and of every node of the two
    chains point to the new node, and nothing else is changed. *)
Theorem node_if_new_links (h : heap) (fuel : nat) (ca : addr)
        (then_ els : ptr) (lt le : list addr) :
  is_Some (nodes h !! ca) ->
  siblings h then_ lt ->
  siblings h els le ->
  (length lt <= fuel)%nat ->
  (length le <= fuel)%nat ->
  exists n da h',
    node_if_new fuel (Some ca) then_ els h = (Ok (Some n), h')
    /\ nodes h !! n = None /\ dyns h !! da = None
    /\ nodes h' !! n
       = Some (mkNode TYPE_IF NULL NULL (Some da) NULL
                      (u_iff (Some ca) then_ (last lt) els))
    /\ stamped n (ca :: lt ++ le) h h'
    /\ siblings h' then_ lt /\ siblings h' els le
    /\ dyns h' = <[da := dyn_zero]> (dyns h)
    /\ strs h' = strs h.
Proof.
  intros [cd Hcd] Hst Hse Hft Hfe.
  destruct (node_new_full TYPE_IF h)
    as (a & h1 & dp & Hnew & Hfree & Hn1 & Hs1 & Hdyn).
  destruct Hdyn as [(_ & _ & da & -> & Hda & Hd1)|([?|?] & _)];
    [|discriminate|discriminate].
  set (nd1 := mkNode TYPE_IF NULL NULL (Some da) NULL
                     (u_iff NULL NULL NULL NULL)).
  assert (H1 : nodes h1 !! a = Some nd1).
  { rewrite Hn1. apply lookup_insert_eq. }
  set (nd2 := set_u (u_iff (Some ca) then_ NULL els) nd1).
  set (h2 := with_nodes h1 (<[a := nd2]> (nodes h1))).
  assert (H2 : nodes h2 !! a = Some nd2).
  { unfold h2. simpl. apply lookup_insert_eq. }
  assert (Hbase : forall b, b <> a -> nodes h2 !! b = nodes h !! b).
  { intros b Hb. unfold h2. simpl. rewrite Hn1.
    now rewrite !lookup_insert_ne by done. }
  assert (Hca : ca <> a) by (intros ->; congruence).
  assert (Hcd2 : nodes h2 !! ca = Some cd) by now rewrite Hbase.
  set (h3 := with_nodes h2 (<[ca := set_parent (Some a) cd]> (nodes h2))).
  assert (H3 : nodes h3 !! a = Some nd2).
  { unfold h3. simpl. now rewrite lookup_insert_ne. }
  assert (Hst3 : stamped a [ca] h h3).
  { apply (stamped_base a [ca] h2); [done|].
    now apply (stamped_one a ca cd h2). }
  assert (Hk3 : keeps_links h h3).
  { intros b nb Hb. assert (b <> a) by (intros ->; congruence).
    rewrite (Hst3 b) by done. rewrite Hb. destruct (decide (b ∈ [ca])); eauto. }
  set (stepf := fun (c : addr) (nx : ptr) (x : union_t) =>
                  match nx with
                  | None => match x with
                            | u_iff a b _ d => Some (u_iff a b (Some c) d)
                            | _ => None
                            end
                  | Some _ => Some x
                  end).
  set (rest := fun c : ptr =>
                 cd <- load_node c ;;
                 match next cd with
                 | None => update_u (Some a)
                             (fun x => match x with
                                       | u_iff a b _ d => Some (u_iff a b c d)
                                       | _ => None
                                       end)
                 | Some _ => ret tt
                 end).
  destruct (node_foreach_stamps a rest stepf)
    with (l := lt) (fuel := fuel) (h := h3) (p := then_) (nd := nd2)
         (xf := u_iff (Some ca) then_
                      (match lt with [] => NULL | _ => last lt end) els)
         (body := fun c => update_node c (set_parent (Some a)) ;;; rest c)
    as (h4 & Hrun4 & Hd4 & Hs4 & H4 & Hst4).
  { intros h0 c cd0 nd0 x' Hc0 Hn0 Hx. unfold rest, bind.
    rewrite (load_node_run _ _ _ Hc0). unfold stepf in Hx.
    destruct (next cd0).
    - injection Hx as <-. unfold ret.
      now rewrite set_u_same, heap_with_nodes_id.
    - now apply update_u_run. }
  { reflexivity. }
  { now apply (siblings_keeps h h3). }
  { now apply (siblings_fresh h then_). }
  { done. }
  { done. }
  { apply (payload_after_iff h3 then_). now apply (siblings_keeps h h3). }
  assert (Hlast : (match lt with [] => NULL | _ => last lt end) = last lt)
    by now destruct lt.
  rewrite Hlast in H4.
  set (nd4 := set_u (u_iff (Some ca) then_ (last lt) els) nd2) in *.
  assert (Hk4 : keeps_links h3 h4)
    by now apply (stamped_keeps_links a lt h3 h4 nd2 nd4).
  assert (Hels : exists h5,
             (match els with
              | Some _ => node_foreach fuel els
                            (fun c => update_node c (set_parent (Some a)))
              | None => ret tt
              end) h4 = (Ok tt, h5)
             /\ dyns h5 = dyns h4 /\ strs h5 = strs h4
             /\ nodes h5 !! a = Some nd4
             /\ stamped a le h4 h5).
  { destruct els as [ea|].
    - apply (node_foreach_plain a le fuel h4 (Some ea) nd4); try done.
      + apply (siblings_keeps h3 h4); [done|]. now apply (siblings_keeps h h3).
      + now apply (siblings_fresh h (Some ea)).
    - apply siblings_nil_inv in Hse. subst le. exists h4.
      split; [done|]. split; [done|]. split; [done|]. split; [done|].
      now apply stamped_nil. }
  destruct Hels as (h5 & Hrun5 & Hd5 & Hs5 & H5 & Hst5).
  assert (Hk5 : keeps_links h4 h5)
    by now apply (stamped_keeps_links a le h4 h5 nd4 nd4).
  exists a, da, h5. split.
  { unfold node_if_new. unfold bind at 1. rewrite Hnew.
    unfold bind at 1. erewrite update_u_run; [| exact H1 | reflexivity].
    fold nd2 h2. unfold bind at 1. rewrite (update_node_run _ _ _ _ Hcd2).
    fold h3. unfold bind at 1.
    match goal with
    | |- context [node_foreach fuel then_ ?b h3] =>
        change b with (fun c => update_node c (set_parent (Some a)) ;;; rest c)
    end.
    rewrite Hrun4.
    unfold bind at 1. now rewrite Hrun5. }
  split; [done|]. split; [done|]. split; [done|].
  split.
  { change (ca :: lt ++ le) with ([ca] ++ (lt ++ le)).
    apply (stamped_app a _ _ h h3 h5); [done|].
    now apply (stamped_app a _ _ h3 h4 h5). }
  assert (Hk : keeps_links h h5).
  { apply (keeps_links_trans h h3); [done|].
    now apply (keeps_links_trans h3 h4). }
  split; [now apply (siblings_keeps h h5)|].
  split; [now apply (siblings_keeps h h5)|].
  split; [now rewrite Hd5, Hd4|]. now rewrite Hs5, Hs4.
Qed.

(** The first steps of a constructor without string argument: the new
    node with its payload written. *)
Lemma node_new_with_u t x h :
  t <> TYPE_MAP -> t <> TYPE_VAR ->
  forall g : union_t -> option union_t,
    g (u_zero t) = Some x ->
    exists a da h2,
      (n <- node_new t ;; update_u n g ;;; ret n) h = (Ok (Some a), h2)
      /\ nodes h !! a = None /\ dyns h !! da = None
      /\ nodes h2 = <[a := mkNode t NULL NULL (Some da) NULL x]> (nodes h)
      /\ dyns h2 = <[da := dyn_zero]> (dyns h)
      /\ strs h2 = strs h.
Proof.
  intros Hm Hv g Hg.
  destruct (node_new_full t h)
    as (a & h1 & dp & Hnew & Hfree & Hn1 & Hs1 & Hdyn).
  destruct Hdyn as [(_ & _ & da & -> & Hda & Hd1)|([?|?] & _)]; [|done|done].
  assert (H1 : nodes h1 !! a
               = Some (mkNode t NULL NULL (Some da) NULL (u_zero t))).
  { rewrite Hn1. apply lookup_insert_eq. }
  exists a, da. eexists. unfold bind at 1. rewrite Hnew.
  unfold bind at 1. erewrite update_u_run; [| exact H1 | exact Hg].
  split; [reflexivity|]. simpl. split; [done|]. split; [done|].
  split; [now rewrite Hn1, insert_insert_eq|]. done.
Qed.

(** X20: [node_binop_new] and [node_not_new] return a node at an address
    that was free, holding the operator and the operands; the parent links
    of the operands point to the new node and nothing else is changed.  The
    operands must be nodes: the constructors write to them. *)
Theorem node_binop_not_new_links (h : heap) (op : op_t) (la ra : addr) :
  is_Some (nodes h !! la) ->
  is_Some (nodes h !! ra) ->
  (exists n da h',
      node_binop_new (Some la) op (Some ra) h = (Ok (Some n), h')
      /\ nodes h !! n = None /\ dyns h !! da = None
      /\ nodes h' !! n
         = Some (mkNode TYPE_BINOP NULL NULL (Some da) NULL
                        (u_binop op (Some la) (Some ra)))
      /\ stamped n [la; ra] h h'
      /\ dyns h' = <[da := dyn_zero]> (dyns h)
      /\ strs h' = strs h)
  /\ (exists n da h',
         node_not_new (Some la) h = (Ok (Some n), h')
         /\ nodes h !! n = None /\ dyns h !! da = None
         /\ nodes h' !! n
            = Some (mkNode TYPE_NOT NULL NULL (Some da) NULL
                           (u_not (Some la)))
         /\ stamped n [la] h h'
         /\ dyns h' = <[da := dyn_zero]> (dyns h)
         /\ strs h' = strs h).
Proof.
  intros [ld Hl] [rd Hr]. split.
  - destruct (node_new_with_u TYPE_BINOP (u_binop op (Some la) (Some ra)) h
                ltac:(done) ltac:(done)
                (fun x => match x with
                          | u_binop _ _ _ => Some (u_binop op (Some la) (Some ra))
                          | _ => None
                          end) eq_refl)
      as (a & da & h2 & Hrun2 & Hfree & Hda & Hn2 & Hd2 & Hs2).
    assert (Hla : la <> a) by (intros ->; congruence).
    assert (Hra : ra <> a) by (intros ->; congruence).
    assert (Hl2 : nodes h2 !! la = Some ld)
      by (rewrite Hn2; now rewrite lookup_insert_ne).
    set (h3 := with_nodes h2 (<[la := set_parent (Some a) ld]> (nodes h2))).
    assert (Hr3 : exists rd3, nodes h3 !! ra = Some rd3).
    { unfold h3. simpl. destruct (decide (la = ra)) as [->|Hne].
      - rewrite lookup_insert_eq. eauto.
      - rewrite lookup_insert_ne by done. rewrite Hn2.
        rewrite lookup_insert_ne by done. eauto. }
    destruct Hr3 as [rd3 Hr3].
    set (h4 := with_nodes h3 (<[ra := set_parent (Some a) rd3]> (nodes h3))).
    exists a, da, h4. split.
    { unfold node_binop_new. unfold bind in Hrun2 |- *.
      destruct (node_new TYPE_BINOP h) as [[n| |] h0]; try discriminate.
      destruct (update_u n _ h0) as [[[]| |] h0']; try discriminate.
      injection Hrun2 as -> ->.
      unfold update_node, bind. rewrite (load_node_run _ _ _ Hl2). fold h3.
      now rewrite (load_node_run _ _ _ Hr3). }
    split; [done|]. split; [done|]. split.
    { unfold h4, h3. simpl. rewrite !lookup_insert_ne by done.
      rewrite Hn2. apply lookup_insert_eq. }
    split.
    { change [la; ra] with ([la] ++ [ra]).
      apply (stamped_app a _ _ h h3 h4).
      - apply (stamped_base a [la] h2).
        + intros b Hb. rewrite Hn2. now rewrite lookup_insert_ne.
        + now apply (stamped_one a la ld h2).
      - now apply (stamped_one a ra rd3 h3). }
    done.
  - destruct (node_new_with_u TYPE_NOT (u_not (Some la)) h
                ltac:(done) ltac:(done)
                (fun x => match x with
                          | u_not _ => Some (u_not (Some la))
                          | _ => None
                          end) eq_refl)
      as (a & da & h2 & Hrun2 & Hfree & Hda & Hn2 & Hd2 & Hs2).
    assert (Hla : la <> a) by (intros ->; congruence).
    assert (Hl2 : nodes h2 !! la = Some ld)
      by (rewrite Hn2; now rewrite lookup_insert_ne).
    set (h3 := with_nodes h2 (<[la := set_parent (Some a) ld]> (nodes h2))).
    exists a, da, h3. split.
    { unfold node_not_new. unfold bind in Hrun2 |- *.
      destruct (node_new TYPE_NOT h) as [[n| |] h0]; try discriminate.
      destruct (update_u n _ h0) as [[[]| |] h0']; try discriminate.
      injection Hrun2 as -> ->.
      unfold update_node, bind. now rewrite (load_node_run _ _ _ Hl2). }
    split; [done|]. split; [done|]. split.
    { unfold h3. simpl. rewrite !lookup_insert_ne by done.
      rewrite Hn2. apply lookup_insert_eq. }
    split.
    { apply (stamped_base a [la] h2).
      + intros b Hb. rewrite Hn2. now rewrite lookup_insert_ne.
      + now apply (stamped_one a la ld h2). }
    done.
Qed.

(** X21: [node_assign_new] returns a node that holds the assigned node, the
    expression, which may be NULL, and a string ["="] of its own, newly
    allocated; the parent links of the assigned node and of the expression
    point to the new node and nothing else is changed.  The assigned node
    must not be NULL: the constructor writes to it. *)
Theorem node_assign_new_links (h : heap) (la : addr) (expr : ptr) :
  is_Some (nodes h !! la) ->
  (forall ea, expr = Some ea -> is_Some (nodes h !! ea)) ->
  (exists n da sa h',
      node_assign_new (Some la) expr h = (Ok (Some n), h')
      /\ nodes h !! n = None /\ dyns h !! da = None /\ strs h !! sa = None
      /\ nodes h' !! n
         = Some (mkNode TYPE_ASSIGN NULL NULL (Some da) (Some sa)
                        (u_assign (Some la) expr))
      /\ stamped n (la :: option_list expr) h h'
      /\ dyns h' = <[da := dyn_zero]> (dyns h)
      /\ strs h' = <[sa := "="%string]> (strs h))
  /\ fst (node_assign_new NULL expr h) = Fault.
Proof.
  intros [ld Hl] Hexpr. split; [|apply node_assign_new_null_lval].
  destruct (node_new_full TYPE_ASSIGN h)
    as (a & h1 & dp & Hnew & Hfree & Hn1 & Hs1 & Hdyn).
  destruct Hdyn as [(_ & _ & da & -> & Hda & Hd1)|([?|?] & _)];
    [|discriminate|discriminate].
  set (nd1 := mkNode TYPE_ASSIGN NULL NULL (Some da) NULL (u_assign NULL NULL)).
  assert (H1 : nodes h1 !! a = Some nd1).
  { rewrite Hn1. apply lookup_insert_eq. }
  set (sa := fresh (dom (strs h1))).
  assert (Hsa : strs h !! sa = None).
  { rewrite <- Hs1. apply not_elem_of_dom. apply is_fresh. }
  set (h1' := with_strs h1 (<[sa := "="%string]> (strs h1))).
  set (h2 := with_nodes h1' (<[a := set_string (Some sa) nd1]> (nodes h1'))).
  set (nd3 := set_u (u_assign (Some la) expr) (set_string (Some sa) nd1)).
  set (h3 := with_nodes h2 (<[a := nd3]> (nodes h2))).
  assert (Hbase : forall b, b <> a -> nodes h3 !! b = nodes h !! b).
  { intros b Hb. unfold h3, h2, h1'. simpl. rewrite Hn1.
    now rewrite !lookup_insert_ne by done. }
  assert (Hla : la <> a) by (intros ->; congruence).
  assert (Hl3 : nodes h3 !! la = Some ld) by now rewrite Hbase.
  set (h4 := with_nodes h3 (<[la := set_parent (Some a) ld]> (nodes h3))).
  assert (Hst4 : stamped a [la] h h4).
  { apply (stamped_base a [la] h3); [done|].
    now apply (stamped_one a la ld h3). }
  assert (Hpost : exists h5,
             (match expr with
              | Some _ => update_node expr (set_parent (Some a))
              | None => ret tt
              end) h4 = (Ok tt, h5)
             /\ nodes h5 !! a = Some nd3
             /\ stamped a (option_list expr) h4 h5
             /\ dyns h5 = dyns h4 /\ strs h5 = strs h4).
  { assert (H4a : nodes h4 !! a = Some nd3).
    { unfold h4, h3. simpl. rewrite lookup_insert_ne by done.
      apply lookup_insert_eq. }
    destruct expr as [ea|]; simpl.
    - destruct (Hexpr ea eq_refl) as [ed Hed].
      assert (Hea : ea <> a) by (intros ->; congruence).
      assert (Hed4 : exists ed4, nodes h4 !! ea = Some ed4).
      { rewrite (Hst4 ea Hea), Hed. destruct (decide (ea ∈ [la])); eauto. }
      destruct Hed4 as [ed4 Hed4].
      eexists. split; [apply (update_node_run _ _ _ _ Hed4)|]. simpl.
      split; [now rewrite lookup_insert_ne|].
      split; [|done]. now apply (stamped_one a ea ed4 h4).
    - exists h4. split; [done|]. split; [done|].
      split; [|done]. now apply stamped_nil. }
  destruct Hpost as (h5 & Hrun5 & H5 & Hst5 & Hd5 & Hs5).
  exists a, da, sa, h5. split.
  { unfold node_assign_new. unfold bind at 1. rewrite Hnew.
    unfold bind at 1. unfold strdup at 1. fold sa h1'.
    unfold bind at 1.
    erewrite update_node_run; [| unfold h1'; simpl; exact H1]. fold h2.
    unfold bind at 1.
    erewrite update_u_run;
      [| unfold h2; simpl; apply lookup_insert_eq | reflexivity].
    fold nd3 h3. unfold bind at 1. rewrite (update_node_run _ _ _ _ Hl3).
    fold h4. unfold bind at 1. now rewrite Hrun5. }
  split; [done|]. split; [done|]. split; [done|]. split; [done|].
  split.
  { change (la :: option_list expr) with ([la] ++ option_list expr).
    now apply (stamped_app a _ _ h h4 h5). }
  split; [now rewrite Hd5|]. rewrite Hs5. simpl. now rewrite Hs1.
Qed.

(** X22: [node_method_new] marks the call of a method expression: the
    module of the call node becomes a newly allocated string ["method"],
    whatever it was before (a module string the call had stays allocated),
    and the parent links of the map and of the call point to the new node;
    nothing else is changed. *)
Theorem node_method_new_links (h : heap) (ma ca : addr) (md cd : node_t)
        (m v : ptr) (k : Z) :
  nodes h !! ma = Some md ->
  nodes h !! ca = Some cd ->
  u cd = u_call m v k ->
  ma <> ca ->
  exists n da sa h',
    node_method_new (Some ma) (Some ca) h = (Ok (Some n), h')
    /\ nodes h !! n = None /\ dyns h !! da = None /\ strs h !! sa = None
    /\ nodes h' !! n
       = Some (mkNode TYPE_METHOD NULL NULL (Some da) NULL
                      (u_method (Some ma) (Some ca)))
    /\ nodes h' !! ca
       = Some (set_parent (Some n) (set_u (u_call (Some sa) v k) cd))
    /\ nodes h' !! ma = Some (set_parent (Some n) md)
    /\ (forall b, b <> n -> b <> ma -> b <> ca ->
                  nodes h' !! b = nodes h !! b)
    /\ dyns h' = <[da := dyn_zero]> (dyns h)
    /\ strs h' = <[sa := "method"%string]> (strs h).
Proof.
  intros Hm Hc Hu Hne.
  destruct (node_new_full TYPE_METHOD h)
    as (a & h1 & dp & Hnew & Hfree & Hn1 & Hs1 & Hdyn).
  destruct Hdyn as [(_ & _ & da & -> & Hda & Hd1)|([?|?] & _)];
    [|discriminate|discriminate].
  set (nd1 := mkNode TYPE_METHOD NULL NULL (Some da) NULL (u_method NULL NULL)).
  assert (Hma : ma <> a) by (intros ->; congruence).
  assert (Hca : ca <> a) by (intros ->; congruence).
  set (sa := fresh (dom (strs h1))).
  assert (Hsa : strs h !! sa = None).
  { rewrite <- Hs1. apply not_elem_of_dom. apply is_fresh. }
  set (h1' := with_strs h1 (<[sa := "method"%string]> (strs h1))).
  assert (Hc1 : nodes h1' !! ca = Some cd).
  { unfold h1'. simpl. rewrite Hn1. now rewrite lookup_insert_ne. }
  set (cd2 := set_u (u_call (Some sa) v k) cd).
  set (h2 := with_nodes h1' (<[ca := cd2]> (nodes h1'))).
  assert (H2 : nodes h2 !! a = Some nd1).
  { unfold h2, h1'. simpl. rewrite lookup_insert_ne by done.
    rewrite Hn1. apply lookup_insert_eq. }
  set (nd3 := set_u (u_method (Some ma) (Some ca)) nd1).
  set (h3 := with_nodes h2 (<[a := nd3]> (nodes h2))).
  assert (Hm3 : nodes h3 !! ma = Some md).
  { unfold h3, h2, h1'. simpl. rewrite !lookup_insert_ne by done.
    rewrite Hn1. now rewrite lookup_insert_ne. }
  set (h4 := with_nodes h3 (<[ma := set_parent (Some a) md]> (nodes h3))).
  assert (Hc4 : nodes h4 !! ca = Some cd2).
  { unfold h4, h3, h2. simpl. rewrite !lookup_insert_ne by done.
    apply lookup_insert_eq. }
  set (h5 := with_nodes h4 (<[ca := set_parent (Some a) cd2]> (nodes h4))).
  exists a, da, sa, h5. split.
  { unfold node_method_new. unfold bind at 1. rewrite Hnew.
    unfold bind at 1. unfold strdup at 1. fold sa h1'.
    unfold bind at 1.
    erewrite update_u_run; [| exact Hc1 | rewrite Hu; reflexivity].
    fold cd2 h2. unfold bind at 1.
    erewrite update_u_run; [| exact H2 | reflexivity].
    fold nd3 h3. unfold bind at 1. rewrite (update_node_run _ _ _ _ Hm3).
    fold h4. unfold bind at 1. now rewrite (update_node_run _ _ _ _ Hc4). }
  split; [done|]. split; [done|]. split; [done|]. split.
  { unfold h5, h4, h3. simpl. rewrite !lookup_insert_ne by done.
    apply lookup_insert_eq. }
  split; [unfold h5; simpl; apply lookup_insert_eq|].
  split.
  { unfold h5, h4. simpl. rewrite lookup_insert_ne by done.
    apply lookup_insert_eq. }
  split.
  { intros b Hb1 Hb2 Hb3. unfold h5, h4, h3, h2, h1'. simpl.
    rewrite !lookup_insert_ne by done. rewrite Hn1.
    now rewrite lookup_insert_ne. }
  split; [done|]. simpl. now rewrite Hs1.
Qed.

(** X23: without a key record, [node_map_new] builds the default key: the
    map node it returns holds a record node of its own with exactly one
    argument, a string node whose string is a newly allocated empty
    string; the three nodes are new, linked by their parent links, and no
    node that existed is changed.  The map node has no annotation. *)
Theorem node_map_new_default (h : heap) (fuel : nat) (name : ptr) :
  (1 <= fuel)%nat ->
  exists n r k s d1 d2 h',
    node_map_new fuel name NULL h = (Ok (Some n), h')
    /\ nodes h !! n = None /\ nodes h !! r = None /\ nodes h !! k = None
    /\ n <> r /\ n <> k /\ r <> k
    /\ strs h !! s = None
    /\ nodes h' !! n
       = Some (mkNode TYPE_MAP NULL NULL NULL name (u_map (Some r)))
    /\ nodes h' !! r
       = Some (mkNode TYPE_REC NULL (Some n) (Some d2) NULL
                      (u_rec (Some k) 1))
    /\ nodes h' !! k
       = Some (mkNode TYPE_STR NULL (Some r) (Some d1) (Some s) u_none)
    /\ (forall b, b <> n -> b <> r -> b <> k ->
                  nodes h' !! b = nodes h !! b)
    /\ strs h' = <[s := String.EmptyString]> (strs h)
    /\ d1 <> d2
    /\ dyns h' = <[d2 := dyn_zero]> (<[d1 := dyn_zero]> (dyns h)).
Proof.
  intros Hfuel. destruct fuel as [|fuel]; [lia|].
  destruct (node_new_full TYPE_MAP h)
    as (a & h1 & dp & Hnew & Hfree & Hn1 & Hs1 & Hdyn).
  destruct Hdyn as [(Hx & _)|(_ & -> & Hd1)]; [done|].
  set (nd1 := mkNode TYPE_MAP NULL NULL NULL NULL (u_map NULL)).
  set (s := fresh (dom (strs h1))).
  assert (Hs : strs h !! s = None).
  { rewrite <- Hs1. apply not_elem_of_dom. apply is_fresh. }
  set (h1' := with_strs h1 (<[s := String.EmptyString]> (strs h1))).
  destruct (node_new_full TYPE_STR h1')
    as (ka & hk & dpk & Hnewk & Hfreek & Hnk & Hsk & Hdynk).
  destruct Hdynk as [(_ & _ & d1 & -> & Hd1free & Hdk)|([?|?] & _)];
    [|discriminate|discriminate].
  set (kd1 := mkNode TYPE_STR NULL NULL (Some d1) NULL u_none).
  assert (Hk1 : nodes hk !! ka = Some kd1).
  { rewrite Hnk. apply lookup_insert_eq. }
  set (kd2 := set_string (Some s) kd1).
  set (hk2 := with_nodes hk (<[ka := kd2]> (nodes hk))).
  destruct (node_new_full TYPE_REC hk2)
    as (ra & hr & dpr & Hnewr & Hfreer & Hnr & Hsr & Hdynr).
  destruct Hdynr as [(_ & _ & d2 & -> & Hd2free & Hdr)|([?|?] & _)];
    [|discriminate|discriminate].
  set (rd1 := mkNode TYPE_REC NULL NULL (Some d2) NULL (u_rec NULL 0)).
  assert (Hr1 : nodes hr !! ra = Some rd1).
  { rewrite Hnr. apply lookup_insert_eq. }
  assert (Hka_a : ka <> a).
  { intros ->. unfold h1' in Hfreek. simpl in Hfreek. rewrite Hn1 in Hfreek.
    now rewrite lookup_insert_eq in Hfreek. }
  assert (Hra_ka : ra <> ka).
  { intros ->. unfold hk2 in Hfreer. simpl in Hfreer.
    now rewrite lookup_insert_eq in Hfreer. }
  assert (Hra_a : ra <> a).
  { intros ->. unfold hk2 in Hfreer. simpl in Hfreer.
    rewrite lookup_insert_ne in Hfreer by done. rewrite Hnk in Hfreer.
    rewrite lookup_insert_ne in Hfreer by done. unfold h1' in Hfreer.
    simpl in Hfreer. rewrite Hn1 in Hfreer.
    now rewrite lookup_insert_eq in Hfreer. }
  assert (Hka_free : nodes h !! ka = None).
  { unfold h1' in Hfreek. simpl in Hfreek. rewrite Hn1 in Hfreek.
    now rewrite lookup_insert_ne in Hfreek. }
  assert (Hra_free : nodes h !! ra = None).
  { unfold hk2 in Hfreer. simpl in Hfreer.
    rewrite lookup_insert_ne in Hfreer by done. rewrite Hnk in Hfreer.
    rewrite lookup_insert_ne in Hfreer by done. unfold h1' in Hfreer.
    simpl in Hfreer. rewrite Hn1 in Hfreer.
    now rewrite lookup_insert_ne in Hfreer. }
  set (rd2 := set_u (u_rec (Some ka) 0) rd1).
  set (hr2 := with_nodes hr (<[ra := rd2]> (nodes hr))).
  assert (Hk_r2 : nodes hr2 !! ka = Some kd2).
  { unfold hr2. simpl. rewrite lookup_insert_ne by done. rewrite Hnr.
    rewrite lookup_insert_ne by done. unfold hk2. simpl.
    apply lookup_insert_eq. }
  set (kd3 := set_parent (Some ra) kd2).
  set (hr3 := with_nodes hr2 (<[ka := kd3]> (nodes hr2))).
  assert (Hr_r3 : nodes hr3 !! ra = Some rd2).
  { unfold hr3, hr2. simpl. rewrite lookup_insert_ne by done.
    apply lookup_insert_eq. }
  set (rd4 := set_u (u_rec (Some ka) 1) rd2).
  set (hr4 := with_nodes hr3 (<[ra := rd4]> (nodes hr3))).
  assert (Hk_r4 : nodes hr4 !! ka = Some kd3).
  { unfold hr4, hr3. simpl. rewrite lookup_insert_ne by done.
    apply lookup_insert_eq. }
  assert (Ha_r4 : nodes hr4 !! a = Some nd1).
  { unfold hr4, hr3, hr2. simpl. rewrite !lookup_insert_ne by done.
    rewrite Hnr. rewrite lookup_insert_ne by done. unfold hk2. simpl.
    rewrite lookup_insert_ne by done. rewrite Hnk.
    rewrite lookup_insert_ne by done. unfold h1'. simpl. rewrite Hn1.
    apply lookup_insert_eq. }
  set (h5 := with_nodes hr4 (<[a := set_string name nd1]> (nodes hr4))).
  set (nd6 := set_u (u_map (Some ra)) (set_string name nd1)).
  set (h6 := with_nodes h5 (<[a := nd6]> (nodes h5))).
  assert (Hr_6 : nodes h6 !! ra = Some rd4).
  { unfold h6, h5, hr4. simpl. rewrite !lookup_insert_ne by done.
    apply lookup_insert_eq. }
  set (h7 := with_nodes h6 (<[ra := set_parent (Some a) rd4]> (nodes h6))).
  assert (Hrec : (s <- strdup String.EmptyString ;;
                  k <- node_str_new s ;;
                  node_rec_new (S fuel) k) h1 = (Ok (Some ra), hr4)).
  { unfold bind at 1. unfold strdup at 1. fold s h1'.
    unfold bind at 1. unfold node_str_new at 1. unfold bind at 1.
    rewrite Hnewk. unfold bind at 1. rewrite (update_node_run _ _ _ _ Hk1).
    fold kd2 hk2. unfold ret at 1.
    unfold node_rec_new at 1. unfold bind at 1. rewrite Hnewr.
    unfold bind at 1. erewrite update_u_run; [| exact Hr1 | reflexivity].
    fold rd2 hr2. unfold bind at 1. cbn [node_foreach].
    unfold bind at 1. unfold bind at 1.
    rewrite (update_node_run _ _ _ _ Hk_r2). fold kd3 hr3.
    erewrite update_u_run; [| exact Hr_r3 | reflexivity].
    change (wrap_int (0 + 1)) with 1. fold rd4 hr4.
    unfold bind at 1. rewrite (load_node_run _ _ _ Hk_r4).
    replace (node_foreach fuel (next kd3) _ hr4) with (@Ok unit tt, hr4)
      by now destruct fuel.
    reflexivity. }
  exists a, ra, ka, s, d1, d2, h7. split.
  { unfold node_map_new. unfold bind at 1. rewrite Hnew.
    unfold bind at 1.
    lazymatch goal with
    | |- context [match NULL with Some _ => _ | None => ?m end] =>
        change (match NULL with Some _ => ret NULL | None => m end) with m
    end.
    rewrite Hrec.
    unfold bind at 1. rewrite (update_node_run _ _ _ _ Ha_r4). fold h5.
    unfold bind at 1.
    erewrite update_u_run;
      [| unfold h5; simpl; apply lookup_insert_eq | reflexivity].
    fold nd6 h6. unfold bind at 1.
    now rewrite (update_node_run _ _ _ _ Hr_6). }
  split; [done|]. split; [done|]. split; [done|].
  split; [done|]. split; [done|]. split; [done|]. split; [done|].
  split.
  { unfold h7, h6. simpl. rewrite lookup_insert_ne by done.
    apply lookup_insert_eq. }
  split; [unfold h7; simpl; apply lookup_insert_eq|].
  split.
  { unfold h7, h6, h5, hr4. simpl. rewrite !lookup_insert_ne by done.
    unfold hr3. simpl. apply lookup_insert_eq. }
  split.
  { intros b Hb1 Hb2 Hb3. unfold h7, h6, h5, hr4, hr3, hr2. simpl.
    rewrite !lookup_insert_ne by done. rewrite Hnr.
    rewrite lookup_insert_ne by done. unfold hk2. simpl.
    rewrite lookup_insert_ne by done. rewrite Hnk.
    rewrite lookup_insert_ne by done. unfold h1'. simpl. rewrite Hn1.
    now rewrite lookup_insert_ne. }
  split.
  { simpl. rewrite Hsr. unfold hk2. simpl. rewrite Hsk. unfold h1'. simpl.
    now rewrite Hs1. }
  split.
  { intros ->. unfold hk2 in Hd2free. simpl in Hd2free. rewrite Hdk in Hd2free.
    now rewrite lookup_insert_eq in Hd2free. }
  simpl. rewrite Hdr. unfold hk2. simpl. rewrite Hdk. unfold h1'. simpl.
  now rewrite Hd1.
Qed.

(** X28: the nodes of symbols get no annotation of their own:
    [node_var_new], and [node_map_new] with a key record, allocate the
    node and nothing else; the name is stored, not copied, and the key
    record given is the one the map holds, its parent link set to the
    map. *)
Theorem node_symbol_new_no_dyn (h : heap) (fuel : nat) (name : ptr)
        (ra : addr) (rd : node_t) :
  nodes h !! ra = Some rd ->
  (exists n h',
      node_var_new name h = (Ok (Some n), h')
      /\ nodes h !! n = None
      /\ nodes h'
         = <[n := mkNode TYPE_VAR NULL NULL NULL name u_none]> (nodes h)
      /\ dyns h' = dyns h /\ strs h' = strs h)
  /\ (exists n h',
         node_map_new fuel name (Some ra) h = (Ok (Some n), h')
         /\ nodes h !! n = None
         /\ nodes h'
            = <[ra := set_parent (Some n) rd]>
                (<[n := mkNode TYPE_MAP NULL NULL NULL name
                               (u_map (Some ra))]> (nodes h))
         /\ dyns h' = dyns h /\ strs h' = strs h).
Proof.
  intros Hr. split.
  - destruct (node_new_full TYPE_VAR h)
      as (a & h1 & dp & Hnew & Hfree & Hn1 & Hs1 & Hdyn).
    destruct Hdyn as [(_ & Hx & _)|(_ & -> & Hd1)]; [done|].
    assert (H1 : nodes h1 !! a
                 = Some (mkNode TYPE_VAR NULL NULL NULL NULL u_none)).
    { rewrite Hn1. apply lookup_insert_eq. }
    exists a. eexists. split.
    { unfold node_var_new. unfold bind at 1. rewrite Hnew.
      unfold bind at 1. rewrite (update_node_run _ _ _ _ H1). reflexivity. }
    simpl. split; [done|]. split; [|done].
    rewrite Hn1. now rewrite insert_insert_eq.
  - destruct (node_new_full TYPE_MAP h)
      as (a & h1 & dp & Hnew & Hfree & Hn1 & Hs1 & Hdyn).
    destruct Hdyn as [(Hx & _)|(_ & -> & Hd1)]; [done|].
    set (nd1 := mkNode TYPE_MAP NULL NULL NULL NULL (u_map NULL)).
    assert (H1 : nodes h1 !! a = Some nd1).
    { rewrite Hn1. apply lookup_insert_eq. }
    assert (Hra : ra <> a) by (intros ->; congruence).
    set (h2 := with_nodes h1 (<[a := set_string name nd1]> (nodes h1))).
    set (nd3 := set_u (u_map (Some ra)) (set_string name nd1)).
    set (h3 := with_nodes h2 (<[a := nd3]> (nodes h2))).
    assert (Hr3 : nodes h3 !! ra = Some rd).
    { unfold h3, h2. simpl. rewrite !lookup_insert_ne by done.
      rewrite Hn1. now rewrite lookup_insert_ne. }
    exists a. eexists. split.
    { unfold node_map_new. unfold bind at 1. rewrite Hnew.
      unfold bind at 1. unfold ret at 1.
      unfold bind at 1. rewrite (update_node_run _ _ _ _ H1). fold h2.
      unfold bind at 1.
      erewrite update_u_run;
        [| unfold h2; simpl; apply lookup_insert_eq | reflexivity].
      fold nd3 h3. unfold bind at 1.
      rewrite (update_node_run _ _ _ _ Hr3). reflexivity. }
    simpl. split; [done|]. split; [|done].
    rewrite Hn1. now rewrite !insert_insert_eq.
Qed.

Lemma node_symbol_new_no_dyn_witness :
  (exists n h',
      node_var_new NULL MoreExamples.parts_heap = (Ok (Some n), h')
      /\ nodes MoreExamples.parts_heap !! n = None
      /\ nodes h'
         = <[n := mkNode TYPE_VAR NULL NULL NULL NULL u_none]>
             (nodes MoreExamples.parts_heap)
      /\ dyns h' = dyns MoreExamples.parts_heap
      /\ strs h' = strs MoreExamples.parts_heap)
  /\ (exists n h',
         node_map_new 0 NULL (Some 1%positive) MoreExamples.parts_heap
         = (Ok (Some n), h')
         /\ nodes MoreExamples.parts_heap !! n = None
         /\ nodes h'
            = <[1%positive := set_parent (Some n)
                                (node_at MoreExamples.parts_heap 1)]>
                (<[n := mkNode TYPE_MAP NULL NULL NULL NULL
                               (u_map (Some 1%positive))]>
                   (nodes MoreExamples.parts_heap))
         /\ dyns h' = dyns MoreExamples.parts_heap
         /\ strs h' = strs MoreExamples.parts_heap).
Proof.
  apply (node_symbol_new_no_dyn MoreExamples.parts_heap 0 NULL 1
           (node_at MoreExamples.parts_heap 1)).
  vm_compute. reflexivity.
Defined.

(** ** Destruction: what the callback releases *)

Lemma lift_run {C A} (m : M heap A) h (c : C) r h' :
  m h = (r, h') -> lift m (h, c) = (r, (h', c)).
Proof. intros H. unfold lift. simpl. now rewrite H. Qed.

(** X24: on a var node [_node_free] releases the node and nothing else:
    neither its annotation, which the symbol table owns, nor its name; on
    a map node it releases the node and the name, and not the
    annotation. *)
Theorem node_free_cb_symbol (h : heap) (a : addr) (nd : node_t) :
  nodes h !! a = Some nd ->
  (type nd = TYPE_VAR ->
   _node_free (Some a) (h, tt)
   = (Ok 0, (with_nodes h (delete a (nodes h)), tt)))
  /\ (type nd = TYPE_MAP ->
      forall s, string nd = Some s -> is_Some (strs h !! s) ->
                _node_free (Some a) (h, tt)
                = (Ok 0, (mkHeap (delete a (nodes h)) (dyns h)
                                 (delete s (strs h)), tt))).
Proof.
  intros Hn. split.
  - intros Ht. unfold _node_free. apply lift_run.
    unfold bind at 1. rewrite (load_node_run _ _ _ Hn). rewrite Ht.
    unfold bind at 1. unfold ret at 1. unfold bind at 1.
    destruct (decide (TYPE_VAR <> TYPE_MAP /\ TYPE_VAR <> TYPE_VAR))
      as [[_ Hx]|_]; [done|].
    unfold ret at 1. unfold bind at 1. unfold free_node. now rewrite Hn.
  - intros Ht s Hs [str Hstr]. unfold _node_free. apply lift_run.
    unfold bind at 1. rewrite (load_node_run _ _ _ Hn). rewrite Ht.
    unfold bind at 1. rewrite Hs. unfold free_str at 1. rewrite Hstr.
    unfold bind at 1.
    destruct (decide (TYPE_MAP <> TYPE_MAP /\ TYPE_MAP <> TYPE_VAR))
      as [[Hx _]|_]; [done|].
    unfold ret at 1. unfold bind at 1. unfold free_node. simpl.
    now rewrite Hn.
Qed.

(** A walk without [pre] callback on a literal is the [post] callback. *)
Lemma walk_literal {C} (post : option (callback C)) fuel a nd (w : heap * C) :
  nodes (fst w) !! a = Some nd ->
  type nd = TYPE_INT \/ type nd = TYPE_STR ->
  node_walk (S fuel) (Some a) None post w = call_cb post (Some a) w.
Proof.
  intros Hn Ht. destruct w as [h c]. simpl in Hn. cbn [node_walk call_cb].
  unfold or_return at 1. unfold bind at 1. unfold ret at 1.
  change (0 =? 0) with true. cbv iota.
  unfold bind at 1. rewrite (lift_run _ _ _ _ _ (load_node_run _ _ _ Hn)).
  now destruct Ht as [-> | ->].
Qed.

Lemma node_free_cb_int h a nd da d :
  nodes h !! a = Some nd -> type nd = TYPE_INT ->
  dyn nd = Some da -> dyns h !! da = Some d ->
  _node_free (Some a) (h, tt)
  = (Ok 0, (mkHeap (delete a (nodes h)) (delete da (dyns h)) (strs h), tt)).
Proof.
  intros Hn Ht Hd Hdd. unfold _node_free. apply lift_run.
  unfold bind at 1. rewrite (load_node_run _ _ _ Hn). rewrite Ht.
  unfold bind at 1. unfold ret at 1. unfold bind at 1.
  destruct (decide (TYPE_INT <> TYPE_MAP /\ TYPE_INT <> TYPE_VAR))
    as [_|Hx]; [|exfalso; apply Hx; done].
  rewrite Hd. unfold free_dyn at 1. rewrite Hdd.
  unfold bind at 1. unfold free_node. simpl. now rewrite Hn.
Qed.

Lemma node_free_cb_str h a nd da d sa str :
  nodes h !! a = Some nd -> type nd = TYPE_STR ->
  dyn nd = Some da -> dyns h !! da = Some d ->
  string nd = Some sa -> strs h !! sa = Some str ->
  _node_free (Some a) (h, tt)
  = (Ok 0, (mkHeap (delete a (nodes h)) (delete da (dyns h))
                   (delete sa (strs h)), tt)).
Proof.
  intros Hn Ht Hd Hdd Hs Hss. unfold _node_free. apply lift_run.
  unfold bind at 1. rewrite (load_node_run _ _ _ Hn). rewrite Ht.
  unfold bind at 1. rewrite Hs. unfold free_str at 1. rewrite Hss.
  unfold bind at 1.
  destruct (decide (TYPE_STR <> TYPE_MAP /\ TYPE_STR <> TYPE_VAR))
    as [_|Hx]; [|exfalso; apply Hx; done].
  rewrite Hd. unfold free_dyn at 1. simpl. rewrite Hdd.
  unfold bind at 1. unfold free_node. simpl. now rewrite Hn.
Qed.

(** X25: construction and destruction of a literal cancel: [node_free] on
    the node that [node_int_new] has just returned, or on the node that
    [node_str_new] has returned for a string duplicated for it, leaves the
    store exactly as it was before the construction. *)
Theorem literal_new_free_roundtrip (h : heap) (fuel : nat) (val : Z)
        (str : String.string) :
  (exists n h1,
      node_int_new val h = (Ok n, h1)
      /\ node_free (S fuel) n (h1, tt) = (Ok tt, (h, tt)))
  /\ (exists n h1,
         (s <- strdup str ;; node_str_new s) h = (Ok n, h1)
         /\ node_free (S fuel) n (h1, tt) = (Ok tt, (h, tt))).
Proof.
  split.
  - destruct (node_new_with_u TYPE_INT (u_integer val) h
                ltac:(done) ltac:(done)
                (fun x => match x with
                          | u_integer _ => Some (u_integer val)
                          | _ => None
                          end) eq_refl)
      as (a & da & h2 & Hrun2 & Hfree & Hda & Hn2 & Hd2 & Hs2).
    exists (Some a), h2. split; [exact Hrun2|].
    assert (Hna : nodes h2 !! a
                  = Some (mkNode TYPE_INT NULL NULL (Some da) NULL
                                 (u_integer val))).
    { rewrite Hn2. apply lookup_insert_eq. }
    unfold node_free. unfold bind.
    rewrite (walk_literal _ fuel a _ (h2, tt) Hna (or_introl eq_refl)).
    cbn [call_cb].
    rewrite (node_free_cb_int h2 a _ da dyn_zero Hna eq_refl eq_refl);
      [|rewrite Hd2; apply lookup_insert_eq].
    unfold ret. f_equal. destruct h as [hn hd hs]. simpl in *.
    rewrite Hn2, Hd2, Hs2.
    now rewrite !delete_insert_eq, !delete_id.
  - set (sa := fresh (dom (strs h))).
    assert (Hsa : strs h !! sa = None).
    { apply not_elem_of_dom. apply is_fresh. }
    set (h0 := with_strs h (<[sa := str]> (strs h))).
    destruct (node_new_full TYPE_STR h0)
      as (a & h1 & dp & Hnew & Hfree & Hn1 & Hs1 & Hdyn).
    destruct Hdyn as [(_ & _ & da & -> & Hda & Hd1)|([?|?] & _)];
      [|discriminate|discriminate].
    set (nd1 := mkNode TYPE_STR NULL NULL (Some da) NULL u_none).
    assert (H1 : nodes h1 !! a = Some nd1).
    { rewrite Hn1. apply lookup_insert_eq. }
    set (nd2 := set_string (Some sa) nd1).
    set (h2 := with_nodes h1 (<[a := nd2]> (nodes h1))).
    assert (Hna : nodes h2 !! a = Some nd2).
    { unfold h2. simpl. apply lookup_insert_eq. }
    exists (Some a), h2. split.
    { unfold bind at 1. unfold strdup at 1. fold sa h0.
      unfold node_str_new. unfold bind at 1. rewrite Hnew.
      unfold bind at 1. now rewrite (update_node_run _ _ _ _ H1). }
    unfold node_free. unfold bind.
    rewrite (walk_literal _ fuel a _ (h2, tt) Hna (or_intror eq_refl)).
    cbn [call_cb].
    rewrite (node_free_cb_str h2 a _ da dyn_zero sa str Hna eq_refl eq_refl);
      [| unfold h2; simpl; rewrite Hd1; apply lookup_insert_eq
       | reflexivity
       | unfold h2; simpl; rewrite Hs1; unfold h0; simpl;
         apply lookup_insert_eq ].
    unfold ret. f_equal. destruct h as [hn hd hs]. unfold h2, h0 in *.
    simpl in *. rewrite Hn1, Hd1, Hs1. simpl.
    now rewrite !delete_insert_eq, !delete_id.
Qed.

(** X26: [node_free] drops the status of its walk: on a node of kind
    [TYPE_NONE] the walk stops with -1 before the callback is reached, so
    [node_free] returns as usual and has released nothing, not even that
    node. *)
Theorem node_free_type_none (h : heap) (fuel : nat) (a : addr)
        (nd : node_t) :
  nodes h !! a = Some nd ->
  type nd = TYPE_NONE ->
  node_free (S fuel) (Some a) (h, tt) = (Ok tt, (h, tt)).
Proof.
  intros Hn Ht. unfold node_free. unfold bind at 1. cbn [node_walk call_cb].
  unfold or_return at 1. unfold bind at 1. unfold ret at 1.
  change (0 =? 0) with true. cbv iota.
  unfold bind at 1. rewrite (lift_run _ _ _ _ _ (load_node_run _ _ _ Hn)).
  now rewrite Ht.
Qed.

(** ** Instances on the example inputs *)

Import MoreExamples.

(** A probe with the full register file: a request succeeds, and not every
    register is taken. *)
Lemma reg_get_fails_iff_exhausted_witness :
  exists r h',
    node_probe_reg_get the_probe 1 probe_heap = (Ok r, h')
    /\ (r = -1 <->
        forall x, BPF_REG_6 <= x < BPF_REG_9 ->
                  reg_avail (dyn_of probe_heap the_probe) x = false).
Proof.
  apply (reg_get_fails_iff_exhausted probe_heap the_probe
           (dyn_of probe_heap the_probe) 1).
  vm_compute. reflexivity.
Defined.

(** After a static request has taken register 6, a dynamic request gets
    register 7. *)
Lemma reg_get_lowest_free_witness :
  BPF_REG_6 <= 7 < BPF_REG_9
  /\ reg_avail (dyn_of probe_heap1 the_probe) 7 = true
  /\ forall x, BPF_REG_6 <= x < 7 ->
               reg_avail (dyn_of probe_heap1 the_probe) x = false.
Proof.
  apply (reg_get_lowest_free probe_heap1
           (snd (node_probe_reg_get the_probe 1 probe_heap1)) the_probe
           (dyn_of probe_heap1 the_probe) 1 7).
  - vm_compute. reflexivity.
  - vm_compute. reflexivity.
  - lia.
Defined.


Lemma reg_stack_commute_witness :
  (r <- node_probe_reg_get the_probe 1 ;;
   o <- node_probe_stack_get the_probe 8 ;;
   ret (r, o)) probe_heap1
  = (o <- node_probe_stack_get the_probe 8 ;;
     r <- node_probe_reg_get the_probe 1 ;;
     ret (r, o)) probe_heap1.
Proof.
  apply (reg_stack_commute probe_heap1 the_probe 1 8).
  vm_compute. reflexivity.
Defined.

(** Three requests, of 8, 16 and 4 bytes, get the regions [-8 .. 0),
    [-24 .. -8) and [-28 .. -24). *)
Lemma stack_regions_disjoint_witness :
  (forall j o' s', [-8; -24; -28] !! j = Some o' ->
                   [8; 16; 4] !! j = Some s' ->
                   o' + s' <= probe_sp (dyn_of probe_heap the_probe))
  /\ (forall i j o o' s',
         (i < j)%nat ->
         [-8; -24; -28] !! i = Some o -> [-8; -24; -28] !! j = Some o' ->
         [8; 16; 4] !! j = Some s' ->
         o' + s' <= o).
Proof.
  apply (stack_regions_disjoint probe_heap
           (snd (calls (node_probe_stack_get the_probe) [8; 16; 4]
                       probe_heap))
           the_probe (dyn_of probe_heap the_probe) [8; 16; 4]
           [-8; -24; -28]).
  - vm_compute. reflexivity.
  - repeat constructor; vm_compute; discriminate.
  - repeat constructor; vm_compute; discriminate.
  - vm_compute. reflexivity.
Defined.

(** With register 6 taken, four requests get 7, 8 and twice the
    sentinel. *)
Lemma reg_get_sequence_witness :
  exists h',
    calls (node_probe_reg_get the_probe) [1; 0; 1; 0] probe_heap1
    = (Ok (take (length [1; 0; 1; 0])
                (free_regs (dyn_of probe_heap1 the_probe))
           ++ replicate (length [1; 0; 1; 0]
                         - length (free_regs (dyn_of probe_heap1 the_probe)))
                        (-1)), h').
Proof.
  apply (reg_get_sequence probe_heap1 the_probe
           (dyn_of probe_heap1 the_probe) [1; 0; 1; 0]).
  vm_compute. reflexivity.
Defined.

(** In the script [x = 2;]: the probe is the nearest probe above the
    literal, two links up. *)
Lemma node_get_parent_of_type_nearest_witness :
  node_get_parent_of_type 2 TYPE_PROBE (Some 2%positive) script_heap
  = (Ok (Some 4%positive), script_heap).
Proof.
  apply (node_get_parent_of_type_nearest script_heap TYPE_PROBE 2 4 2 2).
  - vm_compute. reflexivity.
  - vm_compute. reflexivity.
  - intros j a Hj Ha. destruct j as [|[|j]]; [| |lia].
    + vm_compute in Ha. injection Ha as <-. vm_compute. discriminate.
    + vm_compute in Ha. injection Ha as <-. vm_compute. discriminate.
  - lia.
Defined.

(** The same script has no conditional: the query for one ends at the
    script, the root, with NULL. *)
Lemma node_get_parent_of_type_none_witness :
  node_get_parent_of_type 4 TYPE_IF (Some 2%positive) script_heap
  = (Ok NULL, script_heap).
Proof.
  apply (node_get_parent_of_type_none script_heap TYPE_IF 2 5
           (node_at script_heap 5) 3 4).
  - vm_compute. reflexivity.
  - vm_compute. reflexivity.
  - vm_compute. reflexivity.
  - intros j a Hj Ha. destruct j as [|[|[|[|j]]]]; [| | | |lia].
    + vm_compute in Ha. injection Ha as <-. vm_compute. discriminate.
    + vm_compute in Ha. injection Ha as <-. vm_compute. discriminate.
    + vm_compute in Ha. injection Ha as <-. vm_compute. discriminate.
    + vm_compute in Ha. injection Ha as <-. vm_compute. discriminate.
  - lia.
Defined.

Lemma node_get_parent_of_type_sound_witness :
  script_heap = script_heap
  /\ node_type script_heap 4 = Some TYPE_PROBE
  /\ exists a k,
      Some 2%positive = Some a /\ ancestor script_heap k a = Some 4%positive
      /\ forall j q, (j < k)%nat -> ancestor script_heap j a = Some q ->
                     node_type script_heap q <> Some TYPE_PROBE.
Proof.
  apply (node_get_parent_of_type_sound 3 script_heap script_heap TYPE_PROBE
           (Some 2%positive) 4).
  vm_compute. reflexivity.
Defined.

Lemma node_get_stmt_sound_witness :
  script_heap = script_heap
  /\ exists s sd p k,
      Some 3%positive = Some s /\ ancestor script_heap k 2 = Some s
      /\ nodes script_heap !! s = Some sd /\ parent sd = Some p
      /\ node_type script_heap p = Some TYPE_PROBE.
Proof.
  apply (node_get_stmt_sound 1 script_heap script_heap 2 (Some 3%positive)).
  vm_compute. reflexivity.
Defined.

Lemma node_get_pvdr_spec_witness :
  (type (node_at script_heap 4) = TYPE_PROBE ->
   forall da d, dyn (node_at script_heap 4) = Some da ->
                dyns script_heap !! da = Some d ->
                node_get_pvdr 3 (Some 2%positive) script_heap
                = (Ok (probe_pvdr d), script_heap))
  /\ (type (node_at script_heap 4) <> TYPE_PROBE ->
      parent (node_at script_heap 4) = NULL ->
      node_get_pvdr 3 (Some 2%positive) script_heap = (Ok NULL, script_heap)).
Proof.
  apply (node_get_pvdr_spec script_heap 2 4 (node_at script_heap 4) 2 3).
  - vm_compute. reflexivity.
  - vm_compute. reflexivity.
  - intros j a Hj Ha. destruct j as [|[|j]]; [| |lia].
    + vm_compute in Ha. injection Ha as <-. vm_compute. discriminate.
    + vm_compute in Ha. injection Ha as <-. vm_compute. discriminate.
  - lia.
Defined.

Lemma node_get_probe_of_stmt_witness :
  exists sd p,
    nodes script_heap !! 3%positive = Some sd /\ parent sd = Some p
    /\ node_get_probe 2 (Some 2%positive) script_heap
       = (Ok (Some p), script_heap).
Proof.
  apply (node_get_probe_of_stmt 1 script_heap script_heap 2 3
           (node_at script_heap 2)).
  - vm_compute. reflexivity.
  - vm_compute. discriminate.
  - vm_compute. reflexivity.
Defined.

(** The counting callback leaves the store alone, so a walk with it
    does. *)
Lemma walk_keeps_witness :
  fst (if_heap gt_op, 0) = fst (if_heap gt_op, 10).
Proof.
  apply (walk_keeps (fun w w' : heap * Z => fst w = fst w')
           (Some count_cb) None 4 (n_if (the_if gt_op))
           (if_heap gt_op, 0) (if_heap gt_op, 10) (Ok 0)).
  - reflexivity.
  - intros w1 w2 w3 H1 H2. now rewrite H1.
  - intros g [= <-] n w r w' H. unfold count_cb in H.
    injection H as _ <-. reflexivity.
  - intros g [=].
  - vm_compute. reflexivity.
Defined.

Lemma walk_no_callbacks_witness :
  (if_heap gt_op, 0) = (if_heap gt_op, 0)
  /\ forall s, Ok 0 = Ok s -> s = 0 \/ s = -1.
Proof.
  apply (walk_no_callbacks 4 (n_if (the_if gt_op))
           (if_heap gt_op, 0) (if_heap gt_op, 0) (Ok 0)).
  vm_compute. reflexivity.
Defined.

(** A walk that a callback stops with 7 at the first literal returns the
    status of its last invocation. *)
Lemma walk_status_source_witness :
  7 = -1
  \/ exists tr e,
      log_of (snd (node_walk 20 (n_if (the_if gt_op))
                     (observe Pre <$> Some (stop_at TYPE_INT 7))
                     (observe Post <$> Some (stop_at TYPE_STR 5))
                     (if_heap gt_op, (tt, []))))
      = log_of (if_heap gt_op, (tt, [])) ++ tr ++ [e]
      /\ ev_status e = 7.
Proof.
  apply (walk_status_source (Some (stop_at TYPE_INT 7))
           (Some (stop_at TYPE_STR 5)) 20 (n_if (the_if gt_op))
           (if_heap gt_op, (tt, []))).
  - vm_compute. reflexivity.
  - lia.
Defined.

Lemma walk_pre_post_paired_witness :
  exists tr,
    log_of (snd (node_walk 20 (n_if (the_if gt_op))
                   (Some (observe Pre (stop_at TYPE_NONE 7)))
                   (Some (observe Post (stop_at TYPE_NONE 5)))
                   (if_heap gt_op, (tt, []))))
    = log_of (if_heap gt_op, (tt, [])) ++ tr
    /\ nodes_of Pre tr ≡ₚ nodes_of Post tr.
Proof.
  apply (walk_pre_post_paired (stop_at TYPE_NONE 7) (stop_at TYPE_NONE 5) 20
           (n_if (the_if gt_op)) (if_heap gt_op, (tt, []))).
  vm_compute. reflexivity.
Defined.

(** A script and an unrolled block made of the two siblings [1, 2]. *)
Lemma node_script_unroll_new_links_witness :
  (exists n da h',
      node_script_new 2 the_args args_heap = (Ok (Some n), h')
      /\ nodes args_heap !! n = None /\ dyns args_heap !! da = None
      /\ nodes h' !! n
         = Some (mkNode TYPE_SCRIPT NULL NULL (Some da) NULL
                        (u_script the_args))
      /\ stamped n [1; 2]%positive args_heap h'
      /\ siblings h' the_args [1; 2]%positive
      /\ dyns h' = <[da := dyn_zero]> (dyns args_heap)
      /\ strs h' = strs args_heap)
  /\ (exists n da h',
         node_unroll_new 2 3 the_args args_heap = (Ok (Some n), h')
         /\ nodes args_heap !! n = None /\ dyns args_heap !! da = None
         /\ nodes h' !! n
            = Some (mkNode TYPE_UNROLL NULL NULL (Some da) NULL
                           (u_unroll 3 the_args))
         /\ stamped n [1; 2]%positive args_heap h'
         /\ siblings h' the_args [1; 2]%positive
         /\ dyns h' = <[da := dyn_zero]> (dyns args_heap)
         /\ strs h' = strs args_heap).
Proof.
  apply (node_script_unroll_new_links args_heap 2 3 the_args
           [1; 2]%positive).
  - simpl. split; [reflexivity|].
    exists (node_at args_heap 1). split; [vm_compute; reflexivity|].
    split; [vm_compute; reflexivity|].
    exists (node_at args_heap 2). split; [vm_compute; reflexivity|].
    vm_compute. reflexivity.
  - simpl. lia.
Defined.

(** A probe with the predicate at 1 and the statements [2; 3]. *)
Lemma node_probe_new_links_witness :
  exists n da h',
    node_probe_new 2 NULL (Some 1%positive) (Some 2%positive) parts_heap
    = (Ok (Some n), h')
    /\ nodes parts_heap !! n = None /\ dyns parts_heap !! da = None
    /\ nodes h' !! n
       = Some (mkNode TYPE_PROBE NULL NULL (Some da) NULL
                      (u_probe (Some 1%positive) (Some 2%positive)))
    /\ stamped n (option_list (Some 1%positive) ++ [2; 3]%positive)
               parts_heap h'
    /\ siblings h' (Some 2%positive) [2; 3]%positive
    /\ dyns h' = <[da := dyn_zero]> (dyns parts_heap)
    /\ strs h' = strs parts_heap.
Proof.
  apply (node_probe_new_links parts_heap 2 NULL (Some 1%positive)
           (Some 2%positive) [2; 3]%positive).
  - simpl. split; [reflexivity|].
    exists (node_at parts_heap 2). split; [vm_compute; reflexivity|].
    split; [vm_compute; reflexivity|].
    exists (node_at parts_heap 3). split; [vm_compute; reflexivity|].
    vm_compute. reflexivity.
  - simpl. lia.
  - intros pa [= <-]. exists (node_at parts_heap 1). vm_compute. reflexivity.
Defined.

Lemma node_call_rec_new_links_witness :
  (exists n da h',
      node_call_new 2 NULL NULL the_args args_heap = (Ok (Some n), h')
      /\ nodes args_heap !! n = None /\ dyns args_heap !! da = None
      /\ nodes h' !! n
         = Some (mkNode TYPE_CALL NULL NULL (Some da) NULL
                        (u_call NULL the_args
                                (Z.of_nat (length [1; 2]%positive))))
      /\ stamped n [1; 2]%positive args_heap h'
      /\ dyns h' = <[da := dyn_zero]> (dyns args_heap)
      /\ strs h' = strs args_heap)
  /\ (exists n da h',
         node_rec_new 2 the_args args_heap = (Ok (Some n), h')
         /\ nodes args_heap !! n = None /\ dyns args_heap !! da = None
         /\ nodes h' !! n
            = Some (mkNode TYPE_REC NULL NULL (Some da) NULL
                           (u_rec the_args
                                  (Z.of_nat (length [1; 2]%positive))))
         /\ stamped n [1; 2]%positive args_heap h'
         /\ dyns h' = <[da := dyn_zero]> (dyns args_heap)
         /\ strs h' = strs args_heap).
Proof.
  apply (node_call_rec_new_links args_heap 2 NULL NULL the_args
           [1; 2]%positive).
  - simpl. split; [reflexivity|].
    exists (node_at args_heap 1). split; [vm_compute; reflexivity|].
    split; [vm_compute; reflexivity|].
    exists (node_at args_heap 2). split; [vm_compute; reflexivity|].
    vm_compute. reflexivity.
  - simpl. lia.
  - vm_compute. discriminate.
Defined.

(** A conditional with the condition at 1, the then branch [2; 3] and the
    else branch [4]: its [then_last] is the node at 3. *)
Lemma node_if_new_links_witness :
  exists n da h',
    node_if_new 2 (Some 1%positive) (Some 2%positive) (Some 4%positive)
                parts_heap
    = (Ok (Some n), h')
    /\ nodes parts_heap !! n = None /\ dyns parts_heap !! da = None
    /\ nodes h' !! n
       = Some (mkNode TYPE_IF NULL NULL (Some da) NULL
                      (u_iff (Some 1%positive) (Some 2%positive)
                             (last [2; 3]%positive) (Some 4%positive)))
    /\ stamped n (1%positive :: [2; 3]%positive ++ [4]%positive)
               parts_heap h'
    /\ siblings h' (Some 2%positive) [2; 3]%positive
    /\ siblings h' (Some 4%positive) [4]%positive
    /\ dyns h' = <[da := dyn_zero]> (dyns parts_heap)
    /\ strs h' = strs parts_heap.
Proof.
  apply (node_if_new_links parts_heap 2 1 (Some 2%positive)
           (Some 4%positive) [2; 3]%positive [4]%positive).
  - exists (node_at parts_heap 1). vm_compute. reflexivity.
  - simpl. split; [reflexivity|].
    exists (node_at parts_heap 2). split; [vm_compute; reflexivity|].
    split; [vm_compute; reflexivity|].
    exists (node_at parts_heap 3). split; [vm_compute; reflexivity|].
    vm_compute. reflexivity.
  - simpl. split; [reflexivity|].
    exists (node_at parts_heap 4). split; [vm_compute; reflexivity|].
    vm_compute. reflexivity.
  - simpl. lia.
  - simpl. lia.
Defined.

Lemma node_binop_not_new_links_witness :
  (exists n da h',
      node_binop_new (Some 1%positive) gt_op (Some 4%positive) parts_heap
      = (Ok (Some n), h')
      /\ nodes parts_heap !! n = None /\ dyns parts_heap !! da = None
      /\ nodes h' !! n
         = Some (mkNode TYPE_BINOP NULL NULL (Some da) NULL
                        (u_binop gt_op (Some 1%positive) (Some 4%positive)))
      /\ stamped n [1; 4]%positive parts_heap h'
      /\ dyns h' = <[da := dyn_zero]> (dyns parts_heap)
      /\ strs h' = strs parts_heap)
  /\ (exists n da h',
         node_not_new (Some 1%positive) parts_heap = (Ok (Some n), h')
         /\ nodes parts_heap !! n = None /\ dyns parts_heap !! da = None
         /\ nodes h' !! n
            = Some (mkNode TYPE_NOT NULL NULL (Some da) NULL
                           (u_not (Some 1%positive)))
         /\ stamped n [1]%positive parts_heap h'
         /\ dyns h' = <[da := dyn_zero]> (dyns parts_heap)
         /\ strs h' = strs parts_heap).
Proof.
  apply (node_binop_not_new_links parts_heap gt_op 1 4).
  - exists (node_at parts_heap 1). vm_compute. reflexivity.
  - exists (node_at parts_heap 4). vm_compute. reflexivity.
Defined.

Lemma node_assign_new_links_witness :
  (exists n da sa h',
      node_assign_new (Some 1%positive) (Some 4%positive) parts_heap
      = (Ok (Some n), h')
      /\ nodes parts_heap !! n = None /\ dyns parts_heap !! da = None
      /\ strs parts_heap !! sa = None
      /\ nodes h' !! n
         = Some (mkNode TYPE_ASSIGN NULL NULL (Some da) (Some sa)
                        (u_assign (Some 1%positive) (Some 4%positive)))
      /\ stamped n (1%positive :: option_list (Some 4%positive))
                 parts_heap h'
      /\ dyns h' = <[da := dyn_zero]> (dyns parts_heap)
      /\ strs h' = <[sa := "="%string]> (strs parts_heap))
  /\ fst (node_assign_new NULL (Some 4%positive) parts_heap) = Fault.
Proof.
  apply (node_assign_new_links parts_heap 1 (Some 4%positive)).
  - exists (node_at parts_heap 1). vm_compute. reflexivity.
  - intros ea [= <-]. exists (node_at parts_heap 4). vm_compute. reflexivity.
Defined.

(** A method expression on the receiver at 1 and the call at 2, whose
    module was the string at 1. *)
Lemma node_method_new_links_witness :
  exists n da sa h',
    node_method_new (Some 1%positive) (Some 2%positive) receiver_call_heap
    = (Ok (Some n), h')
    /\ nodes receiver_call_heap !! n = None
    /\ dyns receiver_call_heap !! da = None
    /\ strs receiver_call_heap !! sa = None
    /\ nodes h' !! n
       = Some (mkNode TYPE_METHOD NULL NULL (Some da) NULL
                      (u_method (Some 1%positive) (Some 2%positive)))
    /\ nodes h' !! 2%positive
       = Some (set_parent (Some n)
                 (set_u (u_call (Some sa) NULL 0)
                        (node_at receiver_call_heap 2)))
    /\ nodes h' !! 1%positive
       = Some (set_parent (Some n) (node_at receiver_call_heap 1))
    /\ (forall b, b <> n -> b <> 1%positive -> b <> 2%positive ->
                  nodes h' !! b = nodes receiver_call_heap !! b)
    /\ dyns h' = <[da := dyn_zero]> (dyns receiver_call_heap)
    /\ strs h' = <[sa := "method"%string]> (strs receiver_call_heap).
Proof.
  apply (node_method_new_links receiver_call_heap 1 2
           (node_at receiver_call_heap 1) (node_at receiver_call_heap 2)
           (Some 1%positive) NULL 0).
  - vm_compute. reflexivity.
  - vm_compute. reflexivity.
  - vm_compute. reflexivity.
  - discriminate.
Defined.

Lemma node_map_new_default_witness :
  exists n r k s d1 d2 h',
    node_map_new 1 NULL NULL heap_empty = (Ok (Some n), h')
    /\ nodes heap_empty !! n = None /\ nodes heap_empty !! r = None
    /\ nodes heap_empty !! k = None
    /\ n <> r /\ n <> k /\ r <> k
    /\ strs heap_empty !! s = None
    /\ nodes h' !! n
       = Some (mkNode TYPE_MAP NULL NULL NULL NULL (u_map (Some r)))
    /\ nodes h' !! r
       = Some (mkNode TYPE_REC NULL (Some n) (Some d2) NULL
                      (u_rec (Some k) 1))
    /\ nodes h' !! k
       = Some (mkNode TYPE_STR NULL (Some r) (Some d1) (Some s) u_none)
    /\ (forall b, b <> n -> b <> r -> b <> k ->
                  nodes h' !! b = nodes heap_empty !! b)
    /\ strs h' = <[s := String.EmptyString]> (strs heap_empty)
    /\ d1 <> d2
    /\ dyns h' = <[d2 := dyn_zero]> (<[d1 := dyn_zero]> (dyns heap_empty)).
Proof. apply (node_map_new_default heap_empty 1 NULL). lia. Defined.

(** The variable of the script [x = 2;], at address 1. *)
Lemma node_free_cb_symbol_witness :
  (type (node_at script_heap 1) = TYPE_VAR ->
   _node_free (Some 1%positive) (script_heap, tt)
   = (Ok 0, (with_nodes script_heap
               (delete 1%positive (nodes script_heap)), tt)))
  /\ (type (node_at script_heap 1) = TYPE_MAP ->
      forall s, string (node_at script_heap 1) = Some s ->
                is_Some (strs script_heap !! s) ->
                _node_free (Some 1%positive) (script_heap, tt)
                = (Ok 0, (mkHeap (delete 1%positive (nodes script_heap))
                                 (dyns script_heap)
                                 (delete s (strs script_heap)), tt))).
Proof.
  apply (node_free_cb_symbol script_heap 1 (node_at script_heap 1)).
  vm_compute. reflexivity.
Defined.

Lemma node_free_type_none_witness :
  node_free 1 (Some 1%positive) (none_heap, tt) = (Ok tt, (none_heap, tt)).
Proof.
  apply (node_free_type_none none_heap 0 1 (node_at none_heap 1)).
  - vm_compute. reflexivity.
  - vm_compute. reflexivity.
Defined.
